(** * esputil: SLIP framing, ROM bootloader commands, HEX and image builders

    A shallow embedding of [esputil.c].  Bytes ([unsigned char], [uint8_t])
    are integers of [Z] in the range 0..255; [uint16_t] and [uint32_t] values
    are integers of [Z] reduced modulo 2^16 and 2^32 where the C code
    truncates; [size_t] counters that index a buffer are natural numbers.
    Multi-byte objects copied with [memcpy] are laid out little-endian, as on
    the hosts the tool is built for. *)

From Stdlib Require Import ZArith List Lia Bool String Ascii.
From stdpp Require Import base list.
Import ListNotations.

Local Open Scope Z_scope.

(** ** Little-endian layout of integers *)

Definition le16 (v : Z) : list Z := [v mod 256; (v / 256) mod 256].

Definition le32 (v : Z) : list Z :=
  [v mod 256; (v / 256) mod 256; (v / 65536) mod 256; (v / 16777216) mod 256].

Definition is_byte (b : Z) : Prop := 0 <= b < 256.

(** Reads [buf[i]]; an index outside the list reads as 0. *)
Definition byte_at (buf : list Z) (i : Z) : Z :=
  if i <? 0 then 0 else nth (Z.to_nat i) buf 0.

Definition rd32 (buf : list Z) (i : Z) : Z :=
  byte_at buf i + 256 * byte_at buf (i + 1) + 65536 * byte_at buf (i + 2)
  + 16777216 * byte_at buf (i + 3).

(** ** The SLIP state machine *)

Module Slip.

(** [enum { END = 192, ESC = 219, ESC_END = 220, ESC_ESC = 221 }] *)
Definition END : Z := 192.
Definition ESC : Z := 219.
Definition ESC_END : Z := 220.
Definition ESC_ESC : Z := 221.

(** [struct slip].  [buf] is the caller's buffer, [size] its capacity, [len]
    the number of buffered bytes, [mode] 0 for serial and non-zero for
    network (packet) mode, [prev] the previously read character. *)
Record slip := mkslip {
  buf : list Z;
  size : nat;
  len : nat;
  mode : Z;
  prev : Z
}.

(** [slip->buf[slip->len++] = b].  The length is below [size] whenever
    [slip_recv] gets here from a state of [slip_wf], so the increment does
    not wrap. *)
Definition append (b : Z) (s : slip) : slip :=
  mkslip (<[len s := b]> (buf s)) (size s) (S (len s)) (mode s) (prev s).

Definition set_len (n : nat) (s : slip) : slip :=
  mkslip (buf s) (size s) n (mode s) (prev s).

Definition set_prev (c : Z) (s : slip) : slip :=
  mkslip (buf s) (size s) (len s) (mode s) c.

(** C's [!m] on an [int]. *)
Definition lnot (m : Z) : Z := if m =? 0 then 1 else 0.

(** [if (c == END) slip->len = 0, slip->mode = !slip->mode;] *)
Definition flip (s : slip) : slip :=
  mkslip (buf s) (size s) 0%nat (lnot (mode s)) (prev s).

(** [slip_recv]: processes the incoming byte [c]; the result is the returned
    [size_t] and the updated state. *)
Definition slip_recv (c : Z) (s : slip) : nat * slip :=
  let '(res, s1) :=
    if mode s =? 0 then (0%nat, s)
    else
      let '(res, s') :=
        if (prev s =? ESC) && (c =? ESC_END) then (0%nat, append END s)
        else if (prev s =? ESC) && (c =? ESC_ESC) then (0%nat, append ESC s)
        else if c =? END then (len s, s)
        else if negb (c =? ESC) then (0%nat, append c s)
        else (0%nat, s) in
      (res, if (size s' <=? len s')%nat then set_len 0 s' else s') in
  let s2 := set_prev c s1 in
  (res, if c =? END then flip s2 else s2).

(** [slip_send]: [fn] is the injected per-byte sink and [arg] the state it
    acts on. *)
Definition slip_send {A : Type} (p : list Z) (fn : Z -> A -> A) (arg : A) : A :=
  let body :=
    fold_left
      (fun a b =>
         if b =? END then fn ESC_END (fn ESC a)
         else if b =? ESC then fn ESC_ESC (fn ESC a)
         else fn b a)
      p (fn END arg) in
  fn END body.

(** A sink that records the bytes in the order they are emitted. *)
Definition emit (c : Z) (out : list Z) : list Z := out ++ [c].

Definition slip_encode (p : list Z) : list Z := slip_send p emit [].

(** Feeding bytes one at a time; the results of the calls are collected. *)
Fixpoint slip_feed (cs : list Z) (s : slip) : list nat * slip :=
  match cs with
  | [] => ([], s)
  | c :: cs' =>
      let '(r, s1) := slip_recv c s in
      let '(rs, s2) := slip_feed cs' s1 in
      (r :: rs, s2)
  end.

(** The state [main] sets up: a zeroed [struct ctx] with a buffer of
    capacity [n]. *)
Definition slip_init (n : nat) : slip := mkslip (replicate n 0) n 0 0 0.

(** [uint8_t slipbuf[32 * 1024]] of [main]. *)
Definition slipbuf_size : nat := 32 * 1024.

(** The byte [slip_recv] appends in packet mode, if it appends one. *)
Definition slip_decoded (c : Z) (s : slip) : option Z :=
  if (prev s =? ESC) && (c =? ESC_END) then Some END
  else if (prev s =? ESC) && (c =? ESC_ESC) then Some ESC
  else if c =? END then None
  else if negb (c =? ESC) then Some c
  else None.

(** The states [slip_recv] is meant for: [size] is the extent of the buffer
    and the length is below it, so that every store is inside the buffer. *)
Definition slip_wf (s : slip) : Prop :=
  length (buf s) = size s /\ (len s < size s)%nat.

(** The escape sequence [slip_send] emits for one payload byte. *)
Definition esc (b : Z) : list Z :=
  if b =? END then [ESC; ESC_END]
  else if b =? ESC then [ESC; ESC_ESC]
  else [b].

(** [if (slip->len >= slip->size) slip->len = 0;] *)
Definition overflow (s : slip) : slip :=
  if (size s <=? len s)%nat then set_len 0 s else s.

End Slip.

(** ** The chip registry *)

Module Chip.

(** [struct chip] *)
Record chip := mkchip {
  id : Z;        (* Chip ID, stored in the ROM address 0x40001000 *)
  name : string; (* Chip name *)
  bla : Z        (* Bootloader flash offset *)
}.

Definition CHIP_ID_ESP32 : Z := 0x00f01d83.
Definition CHIP_ID_ESP32_S2 : Z := 0x000007c6.
Definition CHIP_ID_ESP32_C3_ECO_1_2 : Z := 0x6921506f.
Definition CHIP_ID_ESP32_C3_ECO3 : Z := 0x1b31506f.
Definition CHIP_ID_ESP8266 : Z := 0xfff0c101.
Definition CHIP_ID_ESP32_S3_BETA2 : Z := 0xeb004136.
Definition CHIP_ID_ESP32_S3_BETA3 : Z := 0x9.
Definition CHIP_ID_ESP32_C6_BETA : Z := 0x0da1806f.

Definition s_known_chips : list chip :=
  [ mkchip 0 "Unknown" 0;
    mkchip CHIP_ID_ESP8266 "ESP8266" 0;
    mkchip CHIP_ID_ESP32 "ESP32" 4096;
    mkchip CHIP_ID_ESP32_C3_ECO_1_2 "ESP32-C3-ECO2" 0;
    mkchip CHIP_ID_ESP32_C3_ECO3 "ESP32-C3-ECO3" 0;
    mkchip CHIP_ID_ESP32_S2 "ESP32-S2" 4096;
    mkchip CHIP_ID_ESP32_S3_BETA2 "ESP32-S3-BETA2" 0;
    mkchip CHIP_ID_ESP32_S3_BETA3 "ESP32-S3-BETA3" 0;
    mkchip CHIP_ID_ESP32_C6_BETA "ESP32-C6-BETA" 0 ].

End Chip.

(** ** The command protocol *)

Module Cmd.
Import Slip Chip.

(** What one turn of the read loop of [cmd] observes on the serial line:
    [iowait] returns without [READY_SERIAL], [read] returns [n <= 0], or
    [read] returns the bytes [bytes]. *)
Inductive io_event :=
| NotReady
| Closed
| Data (bytes : list Z).

(** The serial line: [tx] collects the bytes written with [uart_tx], [rx]
    is what the following reads will observe; once [rx] is used up the line
    stays silent and [iowait] times out.  The port takes every byte written:
    a [write] that fails, on which [uart_tx] ends the process, is the
    subject of [Uart] below. *)
Record world := mkworld {
  tx : list Z;
  rx : list io_event
}.

(** The fields of [struct ctx] the protocol depends on. *)
Record ctx := mkctx {
  ctx_slip : slip;
  ctx_chip : chip
}.

(** The calls of [fail], which print a message and leave the process. *)
Inductive failure :=
| SerialLineClosed
| ErrorReadingChipID
| ChipMismatch (specified detected : string)
| UnknownChipID (chipid : Z)
| EraseFailed.

Inductive outcome (A : Type) :=
| Done (a : A)
| Exit (f : failure).
Arguments Done {A} a.
Arguments Exit {A} f.

(** The first [8 + len] bytes of [tmp] after the header and the data are
    stored.  Every caller passes a [len] that is at most the extent of
    [buf]. *)
Definition cmd_frame (op : Z) (buf : list Z) (len cs : Z) : list Z :=
  let tmp := replicate 8 0 in              (* memset(tmp, 0, 8) *)
  let tmp := <[1%nat := op]> tmp in        (* tmp[1] = op *)
  let tmp := list_inserts 2 (le16 len) tmp in  (* memcpy(&tmp[2], &len, 2) *)
  let tmp := list_inserts 4 (le32 cs) tmp in   (* memcpy(&tmp[4], &cs, 4) *)
  tmp ++ take (Z.to_nat len) buf.          (* memcpy(&tmp[8], buf, len) *)

(** [eofs = chip.id == 0 || chip.id == CHIP_ID_ESP8266 ? r - 2 : r - 4] *)
Definition cmd_eofs (chip_id : Z) (r : nat) : Z :=
  if (chip_id =? 0) || (chip_id =? CHIP_ID_ESP8266)
  then Z.of_nat r - 2 else Z.of_nat r - 4.

(** [ecode = buf[eofs] ? buf[eofs + 1] : 0] *)
Definition cmd_ecode (b : list Z) (eofs : Z) : Z :=
  if negb (byte_at b eofs =? 0) then byte_at b (eofs + 1) else 0.

(** [r < 10 || buf[0] != 1 || buf[1] != op], negated. *)
Definition cmd_accepts (op : Z) (r : nat) (b : list Z) : bool :=
  negb ((r <? 10)%nat || negb (byte_at b 0 =? 1) || negb (byte_at b 1 =? op)).

(** The inner loop of [cmd] over the bytes of one [read]: the error code of
    the first accepted frame, if there is one. *)
Fixpoint cmd_scan (chip_id op : Z) (bytes : list Z) (s : slip)
  : option Z * slip :=
  match bytes with
  | [] => (None, s)
  | c :: rest =>
      let '(r, s1) := slip_recv c s in
      if (r =? 0)%nat then cmd_scan chip_id op rest s1
      else if negb (cmd_accepts op r (buf s1)) then cmd_scan chip_id op rest s1
      else (Some (cmd_ecode (buf s1) (cmd_eofs chip_id r)), s1)
  end.

(** The outer loop of [cmd]. *)
Fixpoint cmd_loop (chip_id op : Z) (evs : list io_event) (s : slip)
  : outcome (Z * slip * list io_event) :=
  match evs with
  | [] => Done (1, s, [])
  | NotReady :: evs' => Done (1, s, evs')
  | Closed :: _ => Exit SerialLineClosed
  | Data [] :: _ => Exit SerialLineClosed
  | Data bytes :: evs' =>
      match cmd_scan chip_id op bytes s with
      | (Some ecode, s1) => Done (ecode, s1, evs')
      | (None, s1) => cmd_loop chip_id op evs' s1
      end
  end.

(** [cmd]: sends the command and waits for its response, on a port that
    takes every byte written ([Uart.cmd_uart] is [cmd] with the failing
    [write] of [uart_tx]). *)
Definition cmd (c : ctx) (op : Z) (buf : list Z) (len cs : Z) (w : world)
  : outcome (Z * ctx * world) :=
  let tx1 := slip_send (cmd_frame op buf len cs) emit (tx w) in
  match cmd_loop (id (ctx_chip c)) op (rx w) (ctx_slip c) with
  | Done (ecode, s1, evs) => Done (ecode, mkctx s1 (ctx_chip c), mkworld tx1 evs)
  | Exit f => Exit f
  end.

(** [read32]: the result of [cmd] and, when it is 0, the word stored to
    [*value]. *)
Definition read32 (c : ctx) (addr : Z) (w : world)
  : outcome (Z * option Z * ctx * world) :=
  match cmd c 10 (le32 addr) 4 0 w with
  | Done (ok, c1, w1) =>
      Done (ok, if ok =? 0 then Some (rd32 (buf (ctx_slip c1)) 4) else None,
            c1, w1)
  | Exit f => Exit f
  end.

(** The loop of [chip_detect] over the registry. *)
Fixpoint chip_match (chips : list chip) (cur : chip) (chipid : Z)
  : outcome chip :=
  match chips with
  | [] => Exit (UnknownChipID chipid)
  | k :: rest =>
      if id k =? chipid then
        if negb (id cur =? 0) && negb (id cur =? chipid)
        then Exit (ChipMismatch (name cur) (name k))
        else Done k
      else chip_match rest cur chipid
  end.

(** [chip_detect] *)
Definition chip_detect (c : ctx) (w : world) : outcome (ctx * world) :=
  match read32 c 0x40001000 w with
  | Done (ok, value, c1, w1) =>
      match value with
      | Some chipid =>
          match chip_match s_known_chips (ctx_chip c1) chipid with
          | Done k => Done (mkctx (ctx_slip c1) k, w1)
          | Exit f => Exit f
          end
      | None => Exit ErrorReadingChipID
      end
  | Exit f => Exit f
  end.

(** The SYNC body of [chip_connect]: [{7, 7, 0x12, 0x20}] and 32 times 0x55. *)
Definition sync_data : list Z := [7; 7; 0x12; 0x20] ++ replicate 32 0x55.

(** The status a response frame of length [r] carries at offset [ofs]. *)
Definition status_at (b : list Z) (ofs : Z) : Z :=
  if byte_at b ofs =? 0 then 0 else byte_at b (ofs + 1).

End Cmd.

(** ** Flashing *)

Module Flash.
Import Slip Chip Cmd.

(** [d1] of [flashbin] for a file of [size] bytes, as 32-bit words. *)
Definition flash_begin_d1 (size flash_offset : Z) : list Z :=
  let block_size := 4096 in
  let encrypted := 0 in
  let num_blocks := ((size + block_size - 1) mod 2 ^ 32) / block_size in
  [size mod 2 ^ 32; num_blocks; block_size; flash_offset; encrypted].

(** [d1size] of [flashbin]. *)
Definition flash_begin_d1size (chip_id : Z) : Z :=
  let d1size := 4 * 5 - 4 in
  if (chip_id =? CHIP_ID_ESP32_S2) || (chip_id =? CHIP_ID_ESP32_S3_BETA2)
     || (chip_id =? CHIP_ID_ESP32_S3_BETA3) || (chip_id =? CHIP_ID_ESP32_C6_BETA)
     || (chip_id =? CHIP_ID_ESP32_C3_ECO_1_2) || (chip_id =? CHIP_ID_ESP32_C3_ECO3)
  then (d1size + 4) mod 2 ^ 16 else d1size.

(** The command frame of the FLASH_BEGIN request of [flashbin]. *)
Definition flash_begin_frame (chip_id size flash_offset : Z) : list Z :=
  cmd_frame 2 (flat_map le32 (flash_begin_d1 size flash_offset))
            (flash_begin_d1size chip_id) 0.

(** The FLASH_BEGIN step of [flashbin]. *)
Definition flash_begin (c : ctx) (size flash_offset : Z) (w : world)
  : outcome (ctx * world) :=
  match cmd c 2 (flat_map le32 (flash_begin_d1 size flash_offset))
            (flash_begin_d1size (id (ctx_chip c))) 0 w with
  | Done (ecode, c1, w1) => if ecode =? 0 then Done (c1, w1) else Exit EraseFailed
  | Exit f => Exit f
  end.

(** The body of a command frame: what follows the 8-byte header. *)
Definition frame_body (frame : list Z) : list Z := drop 8 frame.

End Flash.

(** ** Intel HEX: [mkhex] and [unhex] *)

Module Hex.

(** [unsigned long] is 64 bits wide (LP64). *)
Definition ulong (v : Z) : Z := v mod 2 ^ 64.
(** The conversion of an [unsigned long] to [int]. *)
Definition to_int (v : Z) : Z :=
  let w := v mod 2 ^ 32 in if w <? 2 ^ 31 then w else w - 2 ^ 32.

Definition hexdigit (d : Z) : ascii :=
  nth (Z.to_nat d)
      ["0"; "1"; "2"; "3"; "4"; "5"; "6"; "7"; "8"; "9";
       "a"; "b"; "c"; "d"; "e"; "f"]%char "0"%char.

(** The [k] low hexadecimal digits of [v], most significant first. *)
Fixpoint hex_low (k : nat) (v : Z) : string :=
  match k with
  | O => EmptyString
  | S k' => String.append (hex_low k' (v / 16)) (String (hexdigit (v mod 16)) EmptyString)
  end.

(** The number of hexadecimal digits of [v >= 0]. *)
Definition hex_width (v : Z) : nat :=
  if v <=? 0 then 1%nat else Z.to_nat (Z.log2 v / 4 + 1).

(** [printf("%0wx", v)] for an unsigned [v]: at least [w] digits. *)
Definition fmt_x (w : nat) (v : Z) : string :=
  hex_low (Nat.max w (hex_width v)) v.

Definition nl : string := String (ascii_of_nat 10) EmptyString.

(** [printhexline]: the text of one record.  [cs] is an [unsigned]. *)
Definition printhexline (type len addr : Z) (buf : list Z) : string :=
  let cs := (type + len + Z.land (Z.shiftr addr 8) 255 + Z.land addr 255) mod 2 ^ 32 in
  let head := String.append ":"
                (String.append (fmt_x 2 len)
                   (String.append (fmt_x 4 (Z.land addr 0xffff)) (fmt_x 2 type))) in
  let '(cs, body) :=
    fold_left (fun '(cs, body) b => ((cs + b) mod 2 ^ 32, String.append body (fmt_x 2 b)))
              (firstn (Z.to_nat len) buf) (cs, head) in
  String.append body
    (String.append (fmt_x 2 (Z.land ((2 ^ 32 - 1 - cs + 1) mod 2 ^ 32) 255)) nl).

(** [printhexhiaddrline] *)
Definition printhexhiaddrline (addr : Z) : string :=
  printhexline 4 2 0 [Z.land (Z.shiftr addr 24) 255; Z.land (Z.shiftr addr 16) 255].

(** What [mkhex] does when [n] reaches 16 or the file ends: the pending
    bytes [buf] (there are [n] of them) are printed at [addr]. *)
Definition mkhex_flush (addr : Z) (buf : list Z) (out : string) : Z * string :=
  let n := Z.of_nat (length buf) in
  let out :=
    if (0xffff <=? addr) && (Z.land addr 0xffff =? 0)
    then String.append out (printhexhiaddrline addr) else out in
  let out :=
    if 0 <? n then String.append out (printhexline 0 n (Z.land addr 0xffff) buf)
    else out in
  (ulong (addr + n), out).

(** The read loop of [mkhex] over the bytes of one file; [buf] holds the
    [n] bytes read since the last line. *)
Fixpoint mkhex_file (bytes : list Z) (addr : Z) (buf : list Z) (out : string)
  : string :=
  match bytes with
  | c :: rest =>
      let buf := buf ++ [c] in
      if (16 <=? length buf)%nat then
        let '(addr, out) := mkhex_flush addr buf out in
        mkhex_file rest addr [] out
      else mkhex_file rest addr buf out
  | [] => snd (mkhex_flush addr buf out)
  end.

(** [mkhex]: [args] are the pairs of an address, as [strtoul] reads it,
    and the bytes of the file; the result is the text printed. *)
Definition mkhex (args : list (Z * list Z)) : string :=
  let out :=
    fold_left (fun out '(addr, bytes) =>
                 mkhex_file bytes addr [] (String.append out (printhexhiaddrline addr)))
              args EmptyString in
  String.append out (printhexline 1 0 0 []).

(** A [char] holding the value [fgetc] returned ([char] is signed). *)
Definition to_char (c : Z) : Z := if c <? 128 then c else c - 256.

(** [hex_to_ul(s, len)], where [s] points at [tmp + ofs]. *)
Definition hex_to_ul (tmp : list Z) (ofs : Z) (len : nat) : Z :=
  fst (fold_left
    (fun '(v, i) (_ : unit) =>
       let c := byte_at tmp (ofs + i) in
       let v := if 0 <? i then ulong (Z.shiftl v 4) else v in
       let d := if (48 <=? c) && (c <=? 57) then c - 48
                else if (65 <=? c) && (c <=? 70) then c - 55
                else c - 87 in
       (Z.lor v (ulong d), i + 1))
    (replicate len tt) (0, 0)).

Definition isspace (c : Z) : bool :=
  (c =? 32) || ((9 <=? c) && (c <=? 13)).

(** The state of [unhex]: the line buffer [tmp] and its fill [n], [upper]
    and [next], the address that names the open output file ([out]), the
    files of the directory with their contents, and the list of created file
    names in the order of creation.  A file [ADDR.bin] is identified by
    [ADDR]. *)
Record unhex_state := mkunhex {
  tmp : list Z;
  n : Z;
  upper : Z;
  next : Z;
  out : option Z;
  files : list (Z * list Z);
  names : list Z
}.

Inductive unhex_failure :=
| NoColon
| BadLength (n expected : Z).

(** [fopen(path, "wb")]: creates the file or truncates it. *)
Definition fopen_wb (addr : Z) (fs : list (Z * list Z)) : list (Z * list Z) :=
  if existsb (fun f => fst f =? addr) fs
  then map (fun f => if fst f =? addr then (addr, []) else f) fs
  else fs ++ [(addr, [])].

(** [fputc(byte, out)] on the file named by [addr]. *)
Definition fputc (byte : Z) (addr : Z) (fs : list (Z * list Z)) : list (Z * list Z) :=
  map (fun f => if fst f =? addr then (addr, snd f ++ [byte mod 256]) else f) fs.

(** The body of [if (n >= sizeof(tmp) || c == '\n')]. *)
Definition unhex_line (st : unhex_state) : unhex_state + unhex_failure :=
  let len := to_int (hex_to_ul (tmp st) 1 2) in
  let lower := hex_to_ul (tmp st) 3 4 in
  let type := to_int (hex_to_ul (tmp st) 7 2) in
  let addr := Z.lor (upper st) lower in
  if negb (byte_at (tmp st) 0 =? 58) then inr NoColon
  else if negb (n st =? 1 + 2 + 4 + 2 + len * 2 + 2)
  then inr (BadLength (n st) (1 + 2 + 4 + 2 + len * 2 + 2))
  else if type =? 0 then
    let '(o, fs, nm) :=
      match out st with
      | Some a => if negb (next st =? addr)
                  then (addr, fopen_wb addr (files st), names st ++ [addr])
                  else (a, files st, names st)
      | None => (addr, fopen_wb addr (files st), names st ++ [addr])
      end in
    let fs :=
      fold_left (fun fs i => fputc (to_int (hex_to_ul (tmp st) (9 + i * 2) 2)) o fs)
                (map Z.of_nat (seq 0 (Z.to_nat len))) fs in
    inl (mkunhex (tmp st) 0 (upper st) (ulong (addr + len)) (Some o) fs nm)
  else if type =? 1 then
    inl (mkunhex (tmp st) 0 (upper st) (next st) None (files st) (names st))
  else if type =? 4 then
    inl (mkunhex (tmp st) 0 (ulong (Z.shiftl (hex_to_ul (tmp st) 9 4) 16))
                 (next st) (out st) (files st) (names st))
  else inl (mkunhex (tmp st) 0 (upper st) (next st) (out st) (files st) (names st)).

(** One turn of the [fgetc] loop. *)
Definition unhex_char (c : Z) (st : unhex_state) : unhex_state + unhex_failure :=
  let st :=
    if negb (isspace c)
    then mkunhex (<[Z.to_nat (n st) := to_char c]> (tmp st)) (n st + 1)
                 (upper st) (next st) (out st) (files st) (names st)
    else st in
  if (600 <=? n st) || (c =? 10) then unhex_line st else inl st.

Fixpoint unhex_loop (text : list Z) (st : unhex_state)
  : unhex_state + unhex_failure :=
  match text with
  | [] => inl st
  | c :: rest =>
      match unhex_char c st with
      | inl st => unhex_loop rest st
      | inr f => inr f
      end
  end.

(** [unhex] on the text of the HEX file: the files written to the emptied
    directory and the list of their names.  The line buffer starts zeroed;
    a line that passes the length check is read within what was stored. *)
Definition unhex (text : string) : (list (Z * list Z) * list Z) + unhex_failure :=
  let codes := map (fun a => Z.of_nat (nat_of_ascii a)) (list_ascii_of_string text) in
  match unhex_loop codes (mkunhex (replicate 600 0) 0 0 0 None [] []) with
  | inl st => inl (files st, names st)
  | inr f => inr f
  end.

End Hex.

(** ** The image builder: [mkbin] *)

Module Elf.

(** What a run yields: a value, a call of [fail], a read outside the file
    held in memory, or a loop that did not finish within its fuel. *)
Inductive result (A : Type) :=
| Ok (a : A)
| Failed (msg : string)
| OutOfBounds
| OutOfFuel.
Arguments Ok {A} a.
Arguments Failed {A} msg.
Arguments OutOfBounds {A}.
Arguments OutOfFuel {A}.

Definition bind {A B : Type} (r : result A) (k : A -> result B) : result B :=
  match r with
  | Ok a => k a
  | Failed msg => Failed msg
  | OutOfBounds => OutOfBounds
  | OutOfFuel => OutOfFuel
  end.

Notation "x <- e ;; k" := (bind e (fun x => k))
  (at level 100, e at next level, right associativity).

(** [checksum2] *)
Definition checksum2 (v : Z) (buf : list Z) : Z :=
  fold_left (fun v b => Z.lxor v b) buf v.

(** [align_to(n, to)] on [unsigned long]. *)
Definition align_to (n to : Z) : Z :=
  ((((n + to - 1) mod 2 ^ 64) / to) * to) mod 2 ^ 64.

(** [struct mem]: the file as read by [read_entire_file]; [len] is its
    length. *)
Definition mem := list Z.
Definition len (elf : mem) : Z := Z.of_nat (length elf).

(** The [k] bytes at offset [ofs] of the file. *)
Definition rd (elf : mem) (ofs : Z) (k : Z) : result (list Z) :=
  if (0 <=? ofs) && (ofs + k <=? len elf)
  then Ok (firstn (Z.to_nat k) (skipn (Z.to_nat ofs) elf))
  else OutOfBounds.

Definition rd_u16 (elf : mem) (ofs : Z) : result Z :=
  b <- rd elf ofs 2 ;; Ok (byte_at b 0 + 256 * byte_at b 1).

Definition rd_u32 (elf : mem) (ofs : Z) : result Z :=
  b <- rd elf ofs 4 ;; Ok (rd32 b 0).

(** [struct Elf32_Phdr] *)
Record Elf32_Phdr := mkphdr {
  p_type : Z; p_offset : Z; p_vaddr : Z; p_paddr : Z;
  p_filesz : Z; p_memsz : Z; p_flags : Z; p_align : Z
}.

(** [elf_get_num_segments]: [e_phnum], at offset 44 of [struct Elf32_Ehdr]. *)
Definition elf_get_num_segments (elf : mem) : result Z := rd_u16 elf 44.

(** [elf_get_entry_point]: [e_entry], at offset 24. *)
Definition elf_get_entry_point (elf : mem) : result Z := rd_u32 elf 24.

(** [elf_get_phdr]; [e_phoff] is at offset 28 and a program header is 32
    bytes long. *)
Definition elf_get_phdr (elf : mem) (no : Z) : result Elf32_Phdr :=
  e_phoff <- rd_u32 elf 28 ;;
  filesz0 <- rd_u32 elf (e_phoff + 16) ;;
  let no := if filesz0 =? 0 then no + 1 else no in
  h <- rd elf (e_phoff + 32 * no) 32 ;;
  Ok (mkphdr (rd32 h 0) (rd32 h 4) (rd32 h 8) (rd32 h 12)
             (rd32 h 16) (rd32 h 20) (rd32 h 24) (rd32 h 28)).

(** The state of the segment loop: the bytes written to the output file,
    the checksum, and the number of iterations done. *)
Record mkbin_state := mkst {
  written : list Z;
  cs : Z;
  iterations : nat
}.

(** The body of the segment loop for segment [i]. *)
Definition mkbin_segment (elf : mem) (i : Z) (st : mkbin_state)
  : result mkbin_state :=
  h <- elf_get_phdr elf i ;;
  let load_address := p_vaddr h in
  let aligned_size := align_to (p_filesz h) 4 mod 2 ^ 32 in
  payload <- rd elf (p_offset h) (p_filesz h) ;;
  let pad := (aligned_size - p_filesz h) mod 2 ^ 32 in
  Ok (mkst (written st ++ le32 load_address ++ le32 aligned_size ++ payload
              ++ replicate (Z.to_nat pad) 0)
           (checksum2 (cs st) payload)
           (S (iterations st))).

(** [for (i = 0; i < num_segments; i++)] with [uint8_t i]. *)
Fixpoint mkbin_loop (fuel : nat) (elf : mem) (i num_segments : Z)
  (st : mkbin_state) : result mkbin_state :=
  match fuel with
  | O => OutOfFuel
  | S fuel' =>
      if i <? num_segments then
        st' <- mkbin_segment elf i st ;;
        mkbin_loop fuel' elf ((i + 1) mod 256) num_segments st'
      else Ok st
  end.

(** The padding and the checksum byte that end the file. *)
Definition mkbin_finish (st : mkbin_state) : list Z :=
  let ofs := Z.of_nat (length (written st)) in
  let aligned_ofs := align_to (ofs + 1) 16 in
  written st ++ replicate (Z.to_nat (aligned_ofs - ofs - 1)) 0 ++ [cs st].

(** [mkbin]: the bytes of the output file and the number of iterations of
    the segment loop. *)
Definition mkbin (chip_id : Z) (elf : mem) : result (list Z * nat) :=
  let common_hdr := [0xe9; 1; 0; 0] in
  let extended_hdr := [0xee; 0; 0; 0; 2; 0; 0; 0; 0; 0; 0; 0; 0; 0; 0; 0] in
  e_phnum <- elf_get_num_segments elf ;;
  let num_segments := e_phnum mod 256 in
  entrypoint <- elf_get_entry_point elf ;;
  let extended_hdr :=
    if chip_id =? 0x000007c6
    then <[4%nat := 2]> (<[0%nat := 0]> extended_hdr) else extended_hdr in
  if len elf <? 32 then Failed "corrupt ELF file"
  else if negb (byte_at elf 4 =? 1) then Failed "Not ELF32"
  else
    let common_hdr := <[1%nat := num_segments]> common_hdr in
    let st := mkst (common_hdr ++ le32 entrypoint ++ extended_hdr) 0xef 0 in
    st <- mkbin_loop 256 elf 0 num_segments st ;;
    Ok (mkbin_finish st, iterations st).

(** *** Well-formed input *)

(** [e_phnum], the 16-bit field at offset 44 of the ELF header. *)
Definition e_phnum (elf : mem) : Z := byte_at elf 44 + 256 * byte_at elf 45.

(** The header [no] of the table at [e_phoff] and the segment it describes
    lie inside the file. *)
Definition phdr_in_file (elf : mem) (e_phoff no : Z) : bool :=
  (e_phoff + 32 * (no + 1) <=? len elf)
  && (rd32 elf (e_phoff + 32 * no + 4) + rd32 elf (e_phoff + 32 * no + 16)
      <=? len elf).

(** An ELF32 file [mkbin] can load: its bytes are bytes, its length fits
    [int], it holds an ELF header of class ELF32, and every program header
    the segment loop reads lies, with its segment, inside the file. *)
Definition elf32_ok (elf : mem) : bool :=
  forallb (fun b => (0 <=? b) && (b <? 256)) elf
  && (52 <=? len elf) && (len elf <? 2 ^ 31)
  && (byte_at elf 4 =? 1)
  && (let e_phoff := rd32 elf 28 in
      let shift := if rd32 elf (e_phoff + 16) =? 0 then 1 else 0 in
      let num_segments := e_phnum elf mod 256 in
      (num_segments =? 0)
      || ((e_phoff + 32 <=? len elf)
          && forallb (fun i => phdr_in_file elf e_phoff (Z.of_nat i + shift))
                     (seq 0 (Z.to_nat num_segments)))).

(** The ELF file of 116 + 9 bytes with two segments: the four bytes
    [abcd] at 0x3FFB0000 and the five bytes [hello] at 0x40080000, entry
    point 0x40080000. *)
Definition sample_elf : mem :=
  [0x7f; 0x45; 0x4c; 0x46; 1; 1; 1; 0; 0; 0; 0; 0; 0; 0; 0; 0]
  ++ le16 2 ++ le16 94 ++ le32 1 ++ le32 0x40080000 ++ le32 52 ++ le32 0
  ++ le32 0 ++ le16 52 ++ le16 32 ++ le16 2 ++ le16 40 ++ le16 0 ++ le16 0
  ++ flat_map le32 [1; 116; 0x3FFB0000; 0x3FFB0000; 4; 4; 6; 4]
  ++ flat_map le32 [1; 120; 0x40080000; 0x40080000; 5; 5; 5; 4]
  ++ [97; 98; 99; 100] ++ [104; 101; 108; 108; 111].

End Elf.

(** ** Streams of frames and the monitor relay *)

Module Monitor.
Import Slip.

(** What a caller of [slip_recv] sees of a byte stream: at every non-zero
    result [r], the first [r] bytes of the buffer (as [cmd] and [monitor]
    read them). *)
Fixpoint slip_packets (cs : list Z) (s : slip) : list (list Z) :=
  match cs with
  | [] => []
  | c :: cs' =>
      let '(r, s1) := slip_recv c s in
      if (r =? 0)%nat then slip_packets cs' s1
      else take r (buf s1) :: slip_packets cs' s1
  end.

(** A stretch of a serial stream: console text or one SLIP frame. *)
Inductive item :=
| Noise (text : list Z)
| Frame (payload : list Z).

Definition item_bytes (i : item) : list Z :=
  match i with
  | Noise text => text
  | Frame payload => slip_encode payload
  end.

Definition item_packet (i : item) : list (list Z) :=
  match i with
  | Noise _ => []
  | Frame [] => []
  | Frame payload => [payload]
  end.

(** What [monitor] does besides updating the SLIP state: [putchar],
    [sendto] and [uart_tx]. *)
Inductive action :=
| Putchar (c : Z)
| SendTo (payload : list Z)
| UartTx (c : Z).

(** The loop of [monitor] over the bytes read from the device; [sock] is
    [ctx->sock]. *)
Fixpoint monitor_serial (sock : Z) (bytes : list Z) (s : slip)
  : list action * slip :=
  match bytes with
  | [] => ([], s)
  | c :: rest =>
      let '(len, s1) := slip_recv c s in
      let echo :=
        if (len =? 0)%nat && (mode s1 =? 0) then [Putchar c] else [] in
      let send :=
        if (len <=? 0)%nat then []
        else if (0 <? len)%nat && negb (mode s1 =? 0) && negb (sock =? 0)
             then [SendTo (take (Slip.len s1) (buf s1))] else [] in
      let '(acts, s2) := monitor_serial sock rest s1 in
      (echo ++ send ++ acts, s2)
  end.

(** What one call of [monitor] finds: for each source that [iowait] reports
    ready, the bytes the following [read] or [recvfrom] returns. *)
Record ready := mkready {
  from_serial : option (list Z);
  from_stdin : option (list Z);
  from_sock : option (list Z)
}.

(** [monitor]: the actions in the order they happen and the SLIP state, or
    nothing when the serial line is closed ([fail]). *)
Definition monitor (sock : Z) (r : ready) (s : slip)
  : option (list action * slip) :=
  let serial :=
    match from_serial r with
    | Some [] => None
    | Some bytes => Some (monitor_serial sock bytes s)
    | None => Some ([], s)
    end in
  match serial with
  | None => None
  | Some (a1, s1) =>
      let a2 :=
        match from_stdin r with
        | Some bytes => map UartTx bytes
        | None => []
        end in
      let a3 :=
        match from_sock r with
        | Some [] => []
        | Some bytes => slip_send bytes (fun c out => out ++ [UartTx c]) []
        | None => []
        end in
      Some (a1 ++ a2 ++ a3, s1)
  end.

(** What [monitor] prints for an item: console text as it is, nothing for
    a frame with a payload, the closing delimiter for an empty frame. *)
Definition item_echo (i : item) : list action :=
  match i with
  | Noise text => map Putchar text
  | Frame [] => [Putchar END]
  | Frame _ => []
  end.

Definition is_send (a : action) : bool :=
  match a with SendTo _ => true | _ => false end.

End Monitor.

(** ** Checksums *)

Module Checksum.
Import Elf.

(** [checksum]: [checksum2] started from 0xef. *)
Definition checksum (buf : list Z) : Z := checksum2 0xef buf.

End Checksum.

(** ** Responses as [cmd] reads them *)

Module Response.
Import Slip Chip Cmd.

(** What [cmd] makes of one decoded packet [P] while it waits for the
    response to [op]: nothing when the packet is shorter than 10 bytes or
    does not start with 1 and [op], else the status at the tail. *)
Definition response_status (chip_id op : Z) (P : list Z) : option Z :=
  if (length P <? 10)%nat || negb (byte_at P 0 =? 1) || negb (byte_at P 1 =? op)
  then None
  else Some (status_at P (if (chip_id =? 0) || (chip_id =? CHIP_ID_ESP8266)
                          then Z.of_nat (length P) - 2
                          else Z.of_nat (length P) - 4)).

(** The status of the first packet that is a response. *)
Fixpoint first_status (chip_id op : Z) (packets : list (list Z)) : option Z :=
  match packets with
  | [] => None
  | P :: rest =>
      match response_status chip_id op P with
      | Some e => Some e
      | None => first_status chip_id op rest
      end
  end.

(** [strcasecmp(a, b) == 0]: the strings agree up to the case of the
    letters A..Z. *)
Definition tolower (a : ascii) : ascii :=
  let n := nat_of_ascii a in
  if (65 <=? n)%nat && (n <=? 90)%nat then ascii_of_nat (n + 32) else a.

Fixpoint strcasecmp_eq (a b : string) : bool :=
  match a, b with
  | EmptyString, EmptyString => true
  | String x a', String y b' =>
      Ascii.eqb (tolower x) (tolower y) && strcasecmp_eq a' b'
  | _, _ => false
  end.

Fixpoint lower (a : string) : string :=
  match a with
  | EmptyString => EmptyString
  | String x a' => String (tolower x) (lower a')
  end.

(** The loop of [set_chip_from_string]; [None] stands for the call of
    [fail]. *)
Fixpoint chip_by_name (chips : list chip) (nm : string) : option chip :=
  match chips with
  | [] => None
  | k :: rest => if strcasecmp_eq (name k) nm then Some k else chip_by_name rest nm
  end.

(** [set_chip_from_string] *)
Definition set_chip_from_string (c : ctx) (nm : string) : option ctx :=
  match chip_by_name s_known_chips nm with
  | Some k => Some (mkctx (ctx_slip c) k)
  | None => None
  end.

End Response.

(** ** Writing a file to flash: [flashbin] *)

Module FlashData.
Import Slip Chip Cmd Flash Checksum.

(** How [flashbin] ends: it returns, a [cmd] or the erase ends the
    process, a FLASH_DATA command is refused ([fail("flash_data failed")]),
    or the read loop did not finish within its fuel. *)
Inductive flash_result :=
| FlashOk (c : ctx) (w : world)
| FlashExit (f : failure)
| FlashDataFailed
| FlashOutOfFuel.

(** The stores of [if (seq == 0 && flash_offset == ctx->chip.bla)] into
    [buf]; [hs] is 16. *)
Definition flash_patch (k : chip) (flash_params flash_offset seq : Z)
  (buf : list Z) : list Z :=
  if (seq =? 0) && (flash_offset =? bla k) then
    let buf :=
      if negb (flash_params =? 0)
      then <[19%nat := Z.land flash_params 255]>
             (<[18%nat := Z.land (Z.shiftr flash_params 8) 255]> buf)
      else buf in
    let buf := if id k =? CHIP_ID_ESP32_C3_ECO3 then <[28%nat := 5]> buf else buf in
    let buf := if id k =? CHIP_ID_ESP32_C3_ECO_1_2 then <[28%nat := 5]> buf else buf in
    if id k =? CHIP_ID_ESP32_S2
    then <[28%nat := 2]> (<[24%nat := 0]> buf) else buf
  else buf.

(** [buf] when the FLASH_DATA command of one turn is issued: [fread] has
    stored [chunk] at [buf + hs], the patch is applied, and the length and
    the sequence number are stored in the first eight bytes. *)
Definition flash_block (k : chip) (flash_params flash_offset seq : Z)
  (chunk buf : list Z) : list Z :=
  let buf := list_inserts 16 chunk buf in
  let buf := flash_patch k flash_params flash_offset seq buf in
  let buf := list_inserts 0 (le32 (Z.of_nat (length chunk))) buf in
  list_inserts 4 (le32 seq) buf.

(** The read loop of [flashbin]: [file] is what is left of the file. *)
Fixpoint flash_data_loop (fuel : nat) (flash_params flash_offset : Z)
  (file : list Z) (seq : Z) (buf : list Z) (c : ctx) (w : world)
  : flash_result :=
  match fuel with
  | O => FlashOutOfFuel
  | S fuel' =>
      match take 4096 file with
      | [] => FlashOk c w
      | chunk =>
          let n := Z.of_nat (length chunk) in
          let buf := flash_block (ctx_chip c) flash_params flash_offset seq chunk buf in
          let cs := checksum (take (Z.to_nat n) (drop 16 buf)) in
          match cmd c 3 buf ((16 + n) mod 2 ^ 16) cs w with
          | Done (e, c1, w1) =>
              if e =? 0
              then flash_data_loop fuel' flash_params flash_offset
                     (drop 4096 file) (seq + 1) buf c1 w1
              else FlashDataFailed
          | Exit f => FlashExit f
          end
      end
  end.

(** [flashbin] on a file with the bytes [file].  Of [buf] only the first
    16 bytes are cleared at the start; what lies behind them is sent only
    after [fread] has stored there. *)
Definition flashbin (c : ctx) (flash_params flash_offset : Z) (file : list Z)
  (w : world) : flash_result :=
  match flash_begin c (Z.of_nat (length file)) flash_offset w with
  | Done (c1, w1) =>
      flash_data_loop (S (length file)) flash_params flash_offset file 0
                      (replicate (16 + 4096) 0) c1 w1
  | Exit f => FlashExit f
  end.

(** The blocks successive calls of [fread] return. *)
Fixpoint fread_blocks (fuel : nat) (file : list Z) : list (list Z) :=
  match fuel with
  | O => []
  | S fuel' =>
      match take 4096 file with
      | [] => []
      | chunk => chunk :: fread_blocks fuel' (drop 4096 file)
      end
  end.

(** The FLASH_DATA frames for the blocks [blocks], numbered from [seq]. *)
Fixpoint flash_frames (k : chip) (flash_params flash_offset seq : Z)
  (blocks : list (list Z)) (buf : list Z) : list (list Z) :=
  match blocks with
  | [] => []
  | chunk :: rest =>
      let n := Z.of_nat (length chunk) in
      let buf := flash_block k flash_params flash_offset seq chunk buf in
      cmd_frame 3 buf ((16 + n) mod 2 ^ 16) (checksum (take (Z.to_nat n) (drop 16 buf)))
      :: flash_frames k flash_params flash_offset (seq + 1) rest buf
  end.

(** The patch as it acts on the payload of the first block: the same
    stores, at offsets 2, 3, 8 and 12 of the payload. *)
Definition patch_body (k : chip) (flash_params flash_offset seq : Z)
  (body : list Z) : list Z :=
  if (seq =? 0) && (flash_offset =? bla k) then
    let body :=
      if negb (flash_params =? 0)
      then <[3%nat := Z.land flash_params 255]>
             (<[2%nat := Z.land (Z.shiftr flash_params 8) 255]> body)
      else body in
    let body := if id k =? CHIP_ID_ESP32_C3_ECO3 then <[12%nat := 5]> body else body in
    let body := if id k =? CHIP_ID_ESP32_C3_ECO_1_2 then <[12%nat := 5]> body else body in
    if id k =? CHIP_ID_ESP32_S2
    then <[12%nat := 2]> (<[8%nat := 0]> body) else body
  else body.

(** A FLASH_DATA request as it is laid out: header (request, opcode 3,
    length, checksum of the payload), prefix (payload length, sequence
    number, eight zero bytes) and payload. *)
Definition data_frame (k : chip) (flash_params flash_offset seq : Z)
  (chunk : list Z) : list Z :=
  let n := Z.of_nat (length chunk) in
  let P := patch_body k flash_params flash_offset seq chunk in
  [0; 3] ++ le16 (16 + n) ++ le32 (checksum P)
  ++ le32 n ++ le32 seq ++ replicate 8 0 ++ P.

Fixpoint data_frames (k : chip) (flash_params flash_offset seq : Z)
  (blocks : list (list Z)) : list (list Z) :=
  match blocks with
  | [] => []
  | chunk :: rest =>
      data_frame k flash_params flash_offset seq chunk
      :: data_frames k flash_params flash_offset (seq + 1) rest
  end.

(** The buffer between two turns of the loop: eight header bytes, eight
    zero bytes and room for one block. *)
Definition buf_shape (buf : list Z) : Prop :=
  exists pre body,
    buf = pre ++ replicate 8 0 ++ body /\
    length pre = 8%nat /\ length body = 4096%nat.

(** The fields of a FLASH_DATA frame: the 8-byte command header, the
    16-byte prefix and the payload. *)
Definition frame_prefix (frame : list Z) : list Z := take 16 (drop 8 frame).
Definition frame_payload (frame : list Z) : list Z := drop 24 frame.

End FlashData.

(** ** The layout of the image *)

Module Image.
Import Elf.

(** The fields of program header [no] of the table at [e_phoff]. *)
Definition phdr_offset (elf : mem) (no : Z) : Z := rd32 elf (rd32 elf 28 + 32 * no + 4).
Definition phdr_vaddr (elf : mem) (no : Z) : Z := rd32 elf (rd32 elf 28 + 32 * no + 8).
Definition phdr_filesz (elf : mem) (no : Z) : Z := rd32 elf (rd32 elf 28 + 32 * no + 16).

(** The bytes of the segment that header [no] describes. *)
Definition seg_payload (elf : mem) (no : Z) : list Z :=
  firstn (Z.to_nat (phdr_filesz elf no)) (skipn (Z.to_nat (phdr_offset elf no)) elf).

(** [n] rounded up to a multiple of 4. *)
Definition align4 (n : Z) : Z := (n + 3) / 4 * 4.

(** One segment of the image: load address, size rounded up to a multiple
    of 4, the bytes of the segment and zero bytes up to that size. *)
Definition seg_record (elf : mem) (no : Z) : list Z :=
  le32 (phdr_vaddr elf no) ++ le32 (align4 (phdr_filesz elf no))
  ++ seg_payload elf no
  ++ replicate (Z.to_nat (align4 (phdr_filesz elf no) - phdr_filesz elf no)) 0.

(** The headers [mkbin] takes the segments from: header [i], or header
    [i + 1] when the first header describes no bytes. *)
Definition seg_headers (elf : mem) : list Z :=
  let shift := if phdr_filesz elf 0 =? 0 then 1 else 0 in
  map (fun i => Z.of_nat i + shift) (seq 0 (Z.to_nat (e_phnum elf mod 256))).

(** The extended header. *)
Definition extended_hdr (chip_id : Z) : list Z :=
  (if chip_id =? 0x000007c6 then 0x00 else 0xee)
  :: [0; 0; 0; 2; 0; 0; 0; 0; 0; 0; 0; 0; 0; 0; 0].

End Image.

(** ** Reset recipes and [chip_connect] *)

Module Reset.
Import Slip Chip Cmd.

(** What the reset code does to the serial port: [set_dtr], [set_rts],
    [set_rts_and_dtr], [sleep_ms] and [flushio]. *)
Inductive line_op :=
| SetDtr (v : bool)
| SetRts (v : bool)
| SetRtsDtr (rts_val dtr_val : bool)
| Sleep (ms : Z)
| Flush.

Definition DEFAULT_RESET_DELAY : Z := 50.

Definition hard_reset : list line_op :=
  [SetDtr false; SetRts true; Sleep 100; SetRts false].

Definition reset_to_bootloader_usb_jtag_serial : list line_op :=
  [SetRts false; SetDtr false; Sleep 100;
   SetDtr true; SetRts false; Sleep 100;
   SetRts true; SetDtr false; SetRts true; Sleep 100;
   SetDtr false; SetRts false].

Definition reset_to_bootloader (delay_ms : Z) : list line_op :=
  [Sleep 100; SetDtr false; SetRts true; Sleep 100;
   SetDtr true; SetRts false; Sleep delay_ms; SetDtr false].

Definition unix_tight_reset_to_bootloader (delay_ms : Z) : list line_op :=
  [SetRtsDtr false false; SetRtsDtr true true; SetRtsDtr true false; Sleep 100;
   SetRtsDtr false true; Sleep delay_ms; SetRtsDtr false false; SetDtr false].

(** [reset_strategy] (the UNIX variant): the operations of one call and
    the value of the static [count] after it. *)
Definition reset_strategy (count : Z) : list line_op * Z :=
  let count := if 4 <? count then 0 else count in
  let ops :=
    if count =? 0 then reset_to_bootloader_usb_jtag_serial
    else if count =? 1 then unix_tight_reset_to_bootloader DEFAULT_RESET_DELAY
    else if count =? 2 then unix_tight_reset_to_bootloader (DEFAULT_RESET_DELAY + 50)
    else if count =? 3 then reset_to_bootloader DEFAULT_RESET_DELAY
    else reset_to_bootloader (DEFAULT_RESET_DELAY + 50) in
  (ops, count + 1).

(** [reset_strategy] under [_WIN32]. *)
Definition reset_strategy_win32 (count : Z) : list line_op * Z :=
  let count := if 2 <? count then 0 else count in
  let ops :=
    if count =? 0 then reset_to_bootloader_usb_jtag_serial
    else if count =? 1 then reset_to_bootloader DEFAULT_RESET_DELAY
    else reset_to_bootloader (DEFAULT_RESET_DELAY + 50) in
  (ops, count + 1).

(** The value of [count] after [k] calls, from [count]. *)
Fixpoint count_after (k : nat) (count : Z) : Z :=
  match k with
  | O => count
  | S k' => snd (reset_strategy (count_after k' count))
  end.

Fixpoint count_after_win32 (k : nat) (count : Z) : Z :=
  match k with
  | O => count
  | S k' => snd (reset_strategy_win32 (count_after_win32 k' count))
  end.

(** The modem-control lines. *)
Record lines := mklines { dtr : bool; rts : bool }.

Definition line_step (l : lines) (op : line_op) : lines :=
  match op with
  | SetDtr v => mklines v (rts l)
  | SetRts v => mklines (dtr l) v
  | SetRtsDtr r d => mklines d r
  | Sleep _ => l
  | Flush => l
  end.

Definition run_lines (ops : list line_op) (l : lines) : lines :=
  fold_left line_step ops l.

(** The inner loop of [chip_connect]: up to [n] SYNC commands; on the first
    that succeeds, [sleep_ms(50)], [flushio] and [chip_detect].  The reads
    of [rx] are what the program observes after its flushes. *)
Fixpoint sync_tries (n : nat) (c : ctx) (w : world) (ops : list line_op)
  : outcome (bool * ctx * world * list line_op) :=
  match n with
  | O => Done (false, c, w, ops)
  | S n' =>
      match cmd c 8 sync_data 36 0 w with
      | Done (e, c1, w1) =>
          if e =? 0 then
            match chip_detect c1 w1 with
            | Done (c2, w2) => Done (true, c2, w2, ops ++ [Sleep 50; Flush])
            | Exit f => Exit f
            end
          else sync_tries n' c1 w1 ops
      | Exit f => Exit f
      end
  end.

(** The outer loop of [chip_connect] over the rounds [js]. *)
Fixpoint connect_rounds (js : list nat) (count : Z) (c : ctx) (w : world)
  (ops : list line_op) : outcome (bool * ctx * world * Z * list line_op) :=
  match js with
  | [] => Done (false, c, w, count, ops)
  | j :: js' =>
      let '(recipe, count1) := reset_strategy count in
      match sync_tries (2 + j) c w (ops ++ recipe ++ [Flush]) with
      | Done (true, c1, w1, ops1) => Done (true, c1, w1, count1, ops1)
      | Done (false, c1, w1, ops1) => connect_rounds js' count1 c1 w1 ops1
      | Exit f => Exit f
      end
  end.

(** [chip_connect]: the result, the session, the static [count] and the
    operations on the port. *)
Definition chip_connect (count : Z) (c : ctx) (w : world)
  : outcome (bool * ctx * world * Z * list line_op) :=
  connect_rounds [0; 1; 2; 3; 4; 5]%nat count c w [].

(** The number of calls of [flushio] among operations. *)
Definition flushes (ops : list line_op) : nat :=
  length (List.filter (fun op => match op with Flush => true | _ => false end) ops).

(** The recipes in the order [reset_strategy] goes through them. *)
Definition recipes : list (list line_op) :=
  [reset_to_bootloader_usb_jtag_serial;
   unix_tight_reset_to_bootloader 50; unix_tight_reset_to_bootloader 100;
   reset_to_bootloader 50; reset_to_bootloader 100].

Definition recipes_win32 : list (list line_op) :=
  [reset_to_bootloader_usb_jtag_serial;
   reset_to_bootloader 50; reset_to_bootloader 100].

End Reset.

(** ** The records of a HEX file, as text and as bytes *)

Module HexRecord.
Import Hex.

(** The character codes of a text, as [fgetc] returns them. *)
Definition codes (s : string) : list Z :=
  map (fun a => Z.of_nat (nat_of_ascii a)) (list_ascii_of_string s).

(** The code of the lower-case hexadecimal digit of [d]. *)
Definition hexcode (d : Z) : Z := if d <? 10 then 48 + d else 87 + d.

(** The value [hex_to_ul] gives to the character [c]. *)
Definition digit (c : Z) : Z :=
  if (48 <=? c) && (c <=? 57) then c - 48
  else if (65 <=? c) && (c <=? 70) then c - 55
  else c - 87.

(** One turn of the loop of [hex_to_ul]. *)
Definition hex_step (tmp : list Z) (ofs : Z) : Z * Z -> unit -> Z * Z :=
  fun '(v, i) (_ : unit) =>
       let c := byte_at tmp (ofs + i) in
       let v := if 0 <? i then ulong (Z.shiftl v 4) else v in
       let d := if (48 <=? c) && (c <=? 57) then c - 48
                else if (65 <=? c) && (c <=? 70) then c - 55
                else c - 87 in
       (Z.lor v (ulong d), i + 1).

(** The sum of the bytes of a record before its checksum byte: the length,
    the two address bytes, the type and the data. *)
Definition record_sum (type addr : Z) (data : list Z) : Z :=
  Z.of_nat (length data) + addr / 256 + addr mod 256 + type + fold_right Z.add 0 data.

(** The checksum byte that brings the sum of a record to 0 modulo 256. *)
Definition record_cs (type addr : Z) (data : list Z) : Z :=
  (- record_sum type addr data) mod 256.

(** The characters of a record without its line end: the colon, the
    length, the address, the type, the data and the checksum, two hexadecimal
    digits a byte. *)
Definition record_codes (type addr : Z) (data : list Z) : list Z :=
  [58] ++ codes (fmt_x 2 (Z.of_nat (length data))) ++ codes (fmt_x 4 addr)
       ++ codes (fmt_x 2 type) ++ flat_map (fun b => codes (fmt_x 2 b)) data
       ++ codes (fmt_x 2 (record_cs type addr data)).

(** A character that [unhex] stores in its line buffer as it is: no white
    space, and below 128. *)
Definition plain (c : Z) : Prop := isspace c = false /\ 0 <= c < 128.

(** [fputc] of each byte of [data] on the file named by [o]. *)
Definition fputs (data : list Z) (o : Z) (fs : list (Z * list Z)) : list (Z * list Z) :=
  fold_left (fun fs b => fputc b o fs) data fs.

(** The two data bytes of the record [printhexhiaddrline] prints. *)
Definition hi_bytes (a : Z) : list Z :=
  [Z.land (Z.shiftr a 24) 255; Z.land (Z.shiftr a 16) 255].

(** The test of [mkhex] before a data record:
    [addr >= 0xffff && !(addr & 0xffff)]. *)
Definition hi_due (a : Z) : bool := (0xffff <=? a) && (Z.land a 0xffff =? 0).

(** The characters [mkhex] prints when it flushes [buf] at [a]. *)
Definition flush_codes (a : Z) (buf : list Z) : list Z :=
  (if hi_due a then record_codes 4 0 (hi_bytes a) ++ [10] else [])
  ++ (if 0 <? Z.of_nat (length buf)
      then record_codes 0 (Z.land a 0xffff) buf ++ [10] else []).

(** The state of [unhex] between two lines while it reads back one segment
    that starts at [addr0]: [written] is what the output file holds. *)
Definition seg_state (addr0 : Z) (written : list Z) (st : unhex_state) : Prop :=
  length (tmp st) = 600%nat /\ n st = 0 /\
  ((written = [] /\ out st = None /\ files st = [] /\ names st = []) \/
   (written <> [] /\ out st = Some addr0 /\
    next st = addr0 + Z.of_nat (length written) /\
    files st = [(addr0, written)] /\ names st = [addr0])).

End HexRecord.

(** ** The arguments of [flash] *)

Module FlashArgs.
Import Response.

(** [&s[n]]: the string that starts at index [n] of [s]. *)
Fixpoint string_from (n : nat) (s : string) : string :=
  match n, s with
  | O, _ => s
  | S n', String _ s' => string_from n' s'
  | S _, EmptyString => EmptyString
  end.

(** [has_suffix] *)
Definition has_suffix (word suffix : string) : bool :=
  let word_len := String.length word in
  let suffix_len := String.length suffix in
  (suffix_len <? word_len)%nat &&
  strcasecmp_eq (string_from (word_len - suffix_len) word) suffix.

(** The flash parameters [flash] takes from the 16 bytes it read at the
    bootloader address, [buf] being the SLIP buffer with the response:
    [flash_params = (ctx->slip.buf[10] << 8) | ctx->slip.buf[11]], a
    [uint16_t]. *)
Definition bootloader_flash_params (buf : list Z) : Z :=
  (Z.lor (Z.shiftl (byte_at buf 10) 8) (byte_at buf 11)) mod 2 ^ 16.

End FlashArgs.

(** ** Writing to the port: [uart_tx] *)

Module Uart.
Import Slip Chip Cmd.

(** The serial port as [uart_tx] uses it: [sent] collects the bytes the
    device took, and [room] is the number of one-byte writes the device still
    takes ([None]: any number); the [write] after those returns other than
    1. *)
Record port := mkport {
  sent : list Z;
  room : option nat
}.

(** The sender: the port, or the process has ended in
    [fail("failed to write %d to fd %d")] at the byte [ch]. *)
Inductive tx_state :=
| Sent (p : port)
| WriteFailed (ch : Z).

(** [uart_tx]; once the process has ended nothing more is written. *)
Definition uart_tx (ch : Z) (st : tx_state) : tx_state :=
  match st with
  | WriteFailed c => WriteFailed c
  | Sent p =>
      match room p with
      | None => Sent (mkport (sent p ++ [ch]) None)
      | Some (S k) => Sent (mkport (sent p ++ [ch]) (Some k))
      | Some O => WriteFailed ch
      end
  end.

(** The calls of [fail] that [cmd] can reach: those of its read loop, and
    the one of [uart_tx]. *)
Inductive cmd_exit :=
| ReadFailed (f : failure)
| FailedToWrite (ch : Z).

(** What [cmd] does: it returns the error code, with the session, the port
    and the reads that are left, or it ends the process. *)
Inductive cmd_result :=
| Returned (ecode : Z) (c : ctx) (p : port) (evs : list io_event)
| Exited (x : cmd_exit).

(** [cmd] with [uart_tx] as the sink of [slip_send]: the whole frame is
    written before the first read. *)
Definition cmd_uart (c : ctx) (op : Z) (buf : list Z) (len cs : Z) (p : port)
  (evs : list io_event) : cmd_result :=
  match slip_send (cmd_frame op buf len cs) uart_tx (Sent p) with
  | WriteFailed ch => Exited (FailedToWrite ch)
  | Sent p1 =>
      match cmd_loop (id (ctx_chip c)) op evs (ctx_slip c) with
      | Done (ecode, s1, evs1) => Returned ecode (mkctx s1 (ctx_chip c)) p1 evs1
      | Exit f => Exited (ReadFailed f)
      end
  end.

End Uart.

(** * Properties *)

(** *** Facts about the SLIP state machine *)

Module SlipFacts.
Import Slip.

Ltac slip_ne := try assumption; unfold END, ESC, ESC_END, ESC_ESC in *; lia.

Ltac slip_cases :=
  repeat (match goal with
          | |- context [Z.eqb ?a ?b] => destruct (Z.eqb_spec a b)
          | |- context [Nat.leb ?a ?b] => destruct (Nat.leb_spec a b)
          end; simpl in *; try (exfalso; slip_ne));
  try reflexivity.

Lemma slip_send_emit (p : list Z) (acc : list Z) :
  slip_send p emit acc = acc ++ END :: flat_map esc p ++ [END].
Proof.
  unfold slip_send, emit.
  assert (H : forall q a,
    fold_left (fun a b =>
      if b =? END then (a ++ [ESC]) ++ [ESC_END]
      else if b =? ESC then (a ++ [ESC]) ++ [ESC_ESC]
      else a ++ [b]) q a = a ++ flat_map esc q).
  { induction q as [| b q IH]; intros a; simpl.
    - now rewrite app_nil_r.
    - rewrite IH. unfold esc.
      destruct (b =? END); [| destruct (b =? ESC)];
        now rewrite <- ?app_assoc. }
  rewrite H. now rewrite <- !app_assoc.
Qed.

Lemma slip_encode_eq (p : list Z) :
  slip_encode p = END :: flat_map esc p ++ [END].
Proof. unfold slip_encode. now rewrite slip_send_emit. Qed.

Lemma slip_feed_app (a b : list Z) (s : slip) :
  slip_feed (a ++ b) s =
  (fst (slip_feed a s) ++ fst (slip_feed b (snd (slip_feed a s))),
   snd (slip_feed b (snd (slip_feed a s)))).
Proof.
  revert s. induction a as [| c a IH]; intros s; simpl.
  - now destruct (slip_feed b s).
  - destruct (slip_recv c s) as [r s1]. rewrite IH.
    destruct (slip_feed a s1) as [ra sa]. simpl.
    now destruct (slip_feed b sa).
Qed.

Lemma slip_feed_cons (c : Z) (cs : list Z) (s : slip) :
  slip_feed (c :: cs) s =
  (fst (slip_recv c s) :: fst (slip_feed cs (snd (slip_recv c s))),
   snd (slip_feed cs (snd (slip_recv c s)))).
Proof.
  simpl. destruct (slip_recv c s) as [r s1]. simpl.
  now destruct (slip_feed cs s1).
Qed.

(** One step in packet mode on a byte that is not the delimiter. *)
Lemma slip_recv_packet (c : Z) (s : slip) :
  mode s <> 0 -> c <> END ->
  slip_recv c s =
  (0%nat,
   set_prev c (overflow (match slip_decoded c s with
                         | Some b => append b s
                         | None => s
                         end))).
Proof.
  intros Hm Hc. unfold slip_recv, slip_decoded, overflow.
  destruct (Z.eqb_spec (mode s) 0) as [|_]; [contradiction|].
  destruct (Z.eqb_spec c END) as [|_]; [contradiction|].
  destruct ((prev s =? ESC) && (c =? ESC_END)); [reflexivity|].
  destruct ((prev s =? ESC) && (c =? ESC_ESC)); [reflexivity|].
  destruct (negb (c =? ESC)); reflexivity.
Qed.

(** The closing delimiter in packet mode reports the buffered length. *)
Lemma slip_recv_close (s : slip) :
  mode s <> 0 -> prev s <> ESC -> (len s < size s)%nat ->
  slip_recv END s = (len s, mkslip (buf s) (size s) 0%nat 0 END).
Proof.
  intros Hm Hp Hl. unfold slip_recv, flip, set_prev, lnot.
  destruct (Z.eqb_spec (mode s) 0) as [|_]; [contradiction|].
  destruct (Z.eqb_spec (prev s) ESC) as [|_]; [contradiction|].
  simpl. destruct (Nat.leb_spec (size s) (len s)); [lia|]. simpl.
  destruct (Z.eqb_spec (mode s) 0) as [|_]; [contradiction|]. reflexivity.
Qed.

(** The opening delimiter in serial mode. *)
Lemma slip_recv_open (s : slip) :
  mode s = 0 ->
  slip_recv END s = (0%nat, mkslip (buf s) (size s) 0%nat 1 END).
Proof.
  intros Hm. destruct s as [b n l m p]. simpl in Hm. subst m. reflexivity.
Qed.

(** Feeding the escaped form of one byte appends that byte. *)
Lemma slip_feed_esc (b : Z) (s : slip) :
  mode s <> 0 -> prev s <> ESC -> (S (len s) < size s)%nat ->
  exists p, p <> ESC /\
    slip_feed (esc b) s =
    (replicate (length (esc b)) 0%nat,
     mkslip (<[len s := b]> (buf s)) (size s) (S (len s)) (mode s) p).
Proof.
  intros Hm Hp Hl. destruct s as [bf n l m p]. simpl in *. unfold esc.
  destruct (Z.eqb_spec b END) as [->|HnE]; [| destruct (Z.eqb_spec b ESC) as [->|HnC]].
  - exists ESC_END. split; [slip_ne|].
    unfold slip_feed, slip_recv, append, set_prev, set_len, flip. simpl.
    slip_cases.
  - exists ESC_ESC. split; [slip_ne|].
    unfold slip_feed, slip_recv, append, set_prev, set_len, flip. simpl.
    slip_cases.
  - exists b. split; [assumption|].
    unfold slip_feed, slip_recv, append, set_prev, set_len, flip. simpl.
    slip_cases.
Qed.

(** Feeding the escaped payload in packet mode appends the payload. *)
Lemma slip_feed_payload (B : list Z) :
  forall s, mode s <> 0 -> prev s <> ESC -> (len s + length B < size s)%nat ->
  exists p, p <> ESC /\
    slip_feed (flat_map esc B) s =
    (replicate (length (flat_map esc B)) 0%nat,
     mkslip (list_inserts (len s) B (buf s)) (size s)
            (len s + length B) (mode s) p).
Proof.
  induction B as [| b B IH]; intros s Hm Hp Hl; simpl in *.
  - exists (prev s). split; [assumption|].
    rewrite Nat.add_0_r. now destruct s.
  - destruct (slip_feed_esc b s Hm Hp) as (p1 & Hp1 & E1); [lia|].
    set (s1 := mkslip (<[len s := b]> (buf s)) (size s) (S (len s)) (mode s) p1) in *.
    destruct (IH s1) as (p2 & Hp2 & E2); simpl; try assumption; try lia.
    exists p2. split; [assumption|].
    rewrite slip_feed_app, E1. simpl. rewrite E2. simpl.
    rewrite length_app, replicate_add. f_equal. f_equal.
    + symmetry. apply list_insert_inserts_lt. lia.
    + lia.
Qed.

Lemma take_inserts_0 (B l : list Z) :
  (length B <= length l)%nat -> take (length B) (list_inserts 0 B l) = B.
Proof.
  intros H. rewrite <- (take_drop (length B) l) at 1.
  rewrite list_inserts_0_r by (rewrite length_take; lia).
  now rewrite take_app_length.
Qed.

(** A literal byte that fills the last free slot resets the length. *)
Lemma slip_recv_literal_full (c : Z) (s : slip) :
  mode s <> 0 -> prev s <> ESC -> c <> END -> c <> ESC ->
  (size s <= S (len s))%nat ->
  slip_recv c s = (0%nat, mkslip (<[len s := c]> (buf s)) (size s) 0%nat (mode s) c).
Proof.
  intros Hm Hp H1 H2 Hl. destruct s as [bf n l m p]. simpl in *.
  unfold slip_recv, append, set_prev, set_len, flip. simpl. slip_cases.
Qed.

Lemma flat_map_esc_plain (b : Z) (n : nat) :
  b <> END -> b <> ESC -> flat_map esc (replicate n b) = replicate n b.
Proof.
  intros H1 H2. induction n as [| n IH]; simpl; [reflexivity|].
  rewrite IH. unfold esc.
  destruct (Z.eqb_spec b END); [contradiction|].
  destruct (Z.eqb_spec b ESC); [contradiction|]. reflexivity.
Qed.

(** A payload one byte longer than the capacity: the decoder wraps around
    and reports a packet of length 1 holding the last payload byte. *)
Lemma slip_feed_wraps (n : nat) (b : Z) (bf : list Z) (pv : Z) :
  (2 <= n)%nat -> length bf = n -> b <> END -> b <> ESC ->
  exists s',
    slip_feed (slip_encode (replicate (S n) b)) (mkslip bf n 0 0 pv) =
    (replicate (S (S n)) 0%nat ++ [1%nat], s') /\
    buf s' !! 0%nat = Some b /\ mode s' = 0.
Proof.
  intros Hn Hbf H1 H2.
  rewrite slip_encode_eq, flat_map_esc_plain by assumption.
  assert (Hsplit : replicate (S n) b = replicate (n - 1) b ++ [b] ++ [b]).
  { replace (S n) with ((n - 1) + (1 + 1))%nat by lia.
    now rewrite !replicate_add. }
  rewrite Hsplit, slip_feed_cons, slip_recv_open by reflexivity.
  cbn [fst snd buf size].
  set (s1 := mkslip bf n 0 1 END).
  destruct (slip_feed_payload (replicate (n - 1) b) s1) as (p1 & Hp1 & E1);
    [simpl; slip_ne | simpl; slip_ne | simpl; rewrite length_replicate; lia |].
  rewrite flat_map_esc_plain in E1 by assumption.
  subst s1. cbn [len buf size mode] in E1.
  rewrite <- !app_assoc, slip_feed_app, E1.
  cbn [fst snd]. rewrite !length_replicate.
  set (s2 := mkslip _ _ _ _ p1).
  cbn [app]. rewrite slip_feed_cons.
  rewrite (slip_recv_literal_full b s2) by (simpl; slip_ne).
  cbn [fst snd]. subst s2. cbn [len buf size mode].
  set (s3 := mkslip _ _ 0%nat _ b).
  destruct (slip_feed_esc b s3) as (p3 & Hp3 & E3);
    [simpl; slip_ne | simpl; slip_ne | simpl; lia |].
  assert (Eb : esc b = [b]).
  { unfold esc. destruct (Z.eqb_spec b END); [contradiction|].
    destruct (Z.eqb_spec b ESC); [contradiction|]. reflexivity. }
  rewrite Eb, slip_feed_cons in E3. cbn [slip_feed length replicate] in E3.
  injection E3 as E3r E3s.
  rewrite slip_feed_cons, E3s, E3r, slip_feed_cons.
  rewrite slip_recv_close by (simpl; slip_ne).
  subst s3. cbn [fst snd slip_feed len buf size mode].
  eexists. split; [|split].
  - f_equal.
    replace (S (S n)) with ((1 + (n - 1)) + 2)%nat by lia.
    rewrite !replicate_add. simpl. now rewrite <- app_assoc.
  - cbn [buf]. apply list_lookup_insert_eq.
    rewrite length_insert, length_inserts. lia.
  - reflexivity.
Qed.

(** The delimiter is escaped on the wire and comes back as one byte. *)
Example slip_encode_END : slip_encode [0xC0] = [0xC0; 0xDB; 0xDC; 0xC0].
Proof. reflexivity. Qed.

(** One call never changes the capacity or the extent of the buffer, and
    keeps the length within the capacity. *)
Lemma slip_recv_bounds (c : Z) (s : slip) :
  (len s <= size s)%nat ->
  (len (snd (slip_recv c s)) <= size (snd (slip_recv c s)))%nat /\
  size (snd (slip_recv c s)) = size s /\
  length (buf (snd (slip_recv c s))) = length (buf s).
Proof.
  intros Hl. destruct s as [bf n l m p]. simpl in *.
  unfold slip_recv, append, set_prev, set_len, flip. simpl.
  slip_cases; rewrite ?length_insert; repeat split; lia.
Qed.

Lemma slip_recv_mode (c : Z) (s : slip) :
  mode (snd (slip_recv c s)) = if c =? END then lnot (mode s) else mode s.
Proof.
  destruct s as [bf n l m p].
  unfold slip_recv, append, set_prev, set_len, flip. simpl.
  slip_cases.
Qed.

Lemma take_1_lookup (l : list Z) (b : Z) : l !! 0%nat = Some b -> take 1 l = [b].
Proof. destruct l as [| x l]; simpl; intros H; [discriminate | now inversion H]. Qed.

(** C2 (as amended). SLIP round trip below the capacity: for a payload [B]
    shorter than the buffer, feeding the encoder's output byte by byte to a
    decoder in serial mode with no buffered bytes returns 0 on every byte but
    the closing delimiter, where it returns the length of [B]; the buffer
    then starts with [B] and the decoder is back in serial mode. *)
Theorem slip_roundtrip (B bf : list Z) (n : nat) (pv : Z) :
  length bf = n -> (length B < n)%nat ->
  exists s',
    slip_feed (slip_encode B) (mkslip bf n 0 0 pv) =
    (replicate (length (slip_encode B) - 1) 0%nat ++ [length B], s') /\
    take (length B) (buf s') = B /\ mode s' = 0 /\ len s' = 0%nat.
Proof.
  intros Hbf Hl. rewrite slip_encode_eq.
  rewrite slip_feed_cons, slip_recv_open by reflexivity.
  cbn [fst snd buf size].
  destruct (slip_feed_payload B (mkslip bf n 0 1 END)) as (p1 & Hp1 & E1);
    [simpl; slip_ne | simpl; slip_ne | simpl; lia |].
  cbn [len buf size mode] in E1.
  rewrite slip_feed_app, E1. cbn [fst snd].
  rewrite slip_feed_cons, slip_recv_close by (simpl; slip_ne).
  cbn [fst snd slip_feed len buf size mode].
  eexists. split; [|split; [|split]].
  - cbn [length]. rewrite length_app. cbn [length].
    replace (S (length (flat_map esc B) + 1) - 1)%nat
      with (S (length (flat_map esc B))) by lia.
    reflexivity.
  - cbn [buf]. apply take_inserts_0. lia.
  - reflexivity.
  - reflexivity.
Qed.

(** Witness of [slip_roundtrip]: the payload [C0] in the buffer of [main]. *)
Lemma slip_roundtrip_witness :
  length (replicate slipbuf_size 0) = slipbuf_size /\
  (length [192] < slipbuf_size)%nat /\
  exists s',
    slip_feed (slip_encode [192]) (mkslip (replicate slipbuf_size 0) slipbuf_size 0 0 0) =
    (replicate (length (slip_encode [192]) - 1) 0%nat ++ [length [192]], s') /\
    take (length [192]) (buf s') = [192] /\ mode s' = 0 /\ len s' = 0%nat.
Proof.
  assert (H1 : length (replicate slipbuf_size 0) = slipbuf_size)
    by apply length_replicate.
  assert (H2 : (length [192] < slipbuf_size)%nat)
    by (apply Nat.ltb_lt; vm_compute; reflexivity).
  split; [exact H1|]. split; [exact H2|].
  exact (slip_roundtrip [192] (replicate slipbuf_size 0) slipbuf_size 0 H1 H2).
Defined.

(** C2, the claim as stated fails: a payload of 32769 bytes overruns the
    32768-byte buffer of [main]; the decoder wraps around and reports one
    packet of length 1 that holds the last payload byte.  And an empty
    payload is not reported: both delimiters return 0. *)
Lemma slip_roundtrip_overflow :
  (exists s',
     slip_feed (slip_encode (replicate (S slipbuf_size) 2)) (slip_init slipbuf_size) =
     (replicate (S (S slipbuf_size)) 0%nat ++ [1%nat], s') /\
     take 1 (buf s') = [2] /\
     take 1 (buf s') <> replicate (S slipbuf_size) 2)
  /\ fst (slip_feed (slip_encode []) (slip_init slipbuf_size)) = [0%nat; 0%nat].
Proof.
  split; [|vm_compute; reflexivity].
  destruct (slip_feed_wraps slipbuf_size 2 (replicate slipbuf_size 0) 0)
    as (s' & E & Hb & _).
  - apply Nat.leb_le. vm_compute. reflexivity.
  - apply length_replicate.
  - slip_ne.
  - slip_ne.
  - exists s'. split; [exact E|].
    rewrite (take_1_lookup _ _ Hb). split; [reflexivity|].
    intros H. apply (f_equal (@length Z)) in H.
    rewrite length_replicate in H. simpl in H.
    injection H as H. revert H. apply Nat.neq_sym, Nat.neq_0_lt_0.
    apply Nat.ltb_lt. vm_compute. reflexivity.
Qed.

Lemma slip_recv_wf (c : Z) (s : slip) :
  slip_wf s ->
  slip_wf (snd (slip_recv c s)) /\ size (snd (slip_recv c s)) = size s.
Proof.
  intros [Hb Hl].
  destruct (slip_recv_bounds c s ltac:(lia)) as (B1 & B2 & B3).
  unfold slip_wf. rewrite B2, B3. repeat split; try assumption.
  destruct s as [bf n l m p]. simpl in *.
  unfold slip_recv, append, set_prev, set_len, flip. simpl.
  slip_cases; lia.
Qed.

Lemma slip_feed_wf (cs : list Z) (s : slip) :
  slip_wf s ->
  slip_wf (snd (slip_feed cs s)) /\ size (snd (slip_feed cs s)) = size s.
Proof.
  revert s. induction cs as [| c cs IH]; intros s Hwf.
  - simpl. split; [assumption | reflexivity].
  - rewrite slip_feed_cons. cbn [snd].
    destruct (slip_recv_wf c s Hwf) as [W1 S1].
    destruct (IH _ W1) as [W2 S2]. split; [assumption | congruence].
Qed.

(** A byte appended to the last free slot leaves the length at zero. *)
Lemma slip_recv_fills (c b : Z) (s : slip) :
  mode s <> 0 -> slip_decoded c s = Some b -> (size s <= S (len s))%nat ->
  len (snd (slip_recv c s)) = 0%nat /\
  buf (snd (slip_recv c s)) = <[len s := b]> (buf s).
Proof.
  intros Hm Hd Hl. destruct s as [bf n l m p]. simpl in *.
  unfold slip_decoded in Hd. simpl in Hd. revert Hd.
  unfold slip_recv, append, set_prev, set_len, flip. simpl.
  slip_cases; intros Hd; inversion Hd; subst; try (split; reflexivity); lia.
Qed.

(** C5. The buffered length never exceeds the capacity: from a state with
    a buffer of [size] bytes and a length below [size], after any sequence
    of bytes the length is still below the capacity (so never exceeds it),
    the capacity and the extent of the buffer are unchanged, and a byte
    whose append fills the last free slot leaves the length at zero. *)
Theorem slip_len_within_capacity (cs : list Z) (s : slip) :
  slip_wf s ->
  (len (snd (slip_feed cs s)) <= size (snd (slip_feed cs s)))%nat /\
  (len (snd (slip_feed cs s)) < size (snd (slip_feed cs s)))%nat /\
  size (snd (slip_feed cs s)) = size s /\
  length (buf (snd (slip_feed cs s))) = size s /\
  (forall c b, mode (snd (slip_feed cs s)) <> 0 ->
     slip_decoded c (snd (slip_feed cs s)) = Some b ->
     (size s <= S (len (snd (slip_feed cs s))))%nat ->
     len (snd (slip_recv c (snd (slip_feed cs s)))) = 0%nat /\
     size (snd (slip_recv c (snd (slip_feed cs s)))) = size s /\
     length (buf (snd (slip_recv c (snd (slip_feed cs s))))) = size s).
Proof.
  intros Hwf. destruct (slip_feed_wf cs s Hwf) as [Hwf' Ws].
  pose proof Hwf' as [Wb Wl]. rewrite Ws in Wb, Wl. rewrite Ws.
  split; [lia|]. split; [assumption|]. split; [reflexivity|].
  split; [assumption|].
  intros c b Hm Hd Hfull.
  destruct (slip_recv_wf c _ Hwf') as [[B1 _] S1]. rewrite S1, Ws in B1.
  split; [|split; [congruence | assumption]].
  apply (slip_recv_fills c b); [assumption | assumption | lia].
Qed.

(** Witness of [slip_len_within_capacity]: six bytes fed to the buffer of
    [main]. *)
Lemma slip_len_within_capacity_witness :
  slip_wf (slip_init slipbuf_size) /\
  Nat.le (len (snd (slip_feed [192; 1; 2; 3; 4; 5] (slip_init slipbuf_size))))
         (size (snd (slip_feed [192; 1; 2; 3; 4; 5] (slip_init slipbuf_size)))).
Proof.
  assert (H : slip_wf (slip_init slipbuf_size)).
  { split; [apply length_replicate|]. apply Nat.ltb_lt. vm_compute. reflexivity. }
  split; [exact H|].
  exact (proj1 (slip_len_within_capacity [192; 1; 2; 3; 4; 5]
                  (slip_init slipbuf_size) H)).
Defined.

(** C6. The mode flips exactly on the delimiter: for every byte and every
    state, the mode after [slip_recv] differs from the mode before if and
    only if the byte is 0xC0. *)
Theorem slip_mode_flips_iff_END (c : Z) (s : slip) :
  mode (snd (slip_recv c s)) <> mode s <-> c = 192.
Proof.
  rewrite slip_recv_mode. change 192 with END.
  destruct (Z.eqb_spec c END) as [E|E].
  - split; [auto|]. intros _. unfold lnot.
    destruct (Z.eqb_spec (mode s) 0); lia.
  - split; [intros H; now contradiction H | intros H; contradiction].
Qed.

End SlipFacts.

(** *** Facts about the command protocol *)

Module CmdFacts.
Import Slip Chip Cmd.

Lemma cmd_scan_accept (chip_id op c : Z) (rest : list Z) (s : slip) :
  cmd_accepts op (fst (slip_recv c s)) (buf (snd (slip_recv c s))) = true ->
  cmd_scan chip_id op (c :: rest) s =
  (Some (cmd_ecode (buf (snd (slip_recv c s)))
                   (cmd_eofs chip_id (fst (slip_recv c s)))),
   snd (slip_recv c s)).
Proof.
  intros Ha. simpl. destruct (slip_recv c s) as [r s1]. simpl in *.
  rewrite Ha. simpl.
  destruct (Nat.eqb_spec r 0) as [->|_]; [|reflexivity].
  unfold cmd_accepts in Ha. simpl in Ha. discriminate.
Qed.

Lemma cmd_ecode_status (b : list Z) (ofs : Z) : cmd_ecode b ofs = status_at b ofs.
Proof. unfold cmd_ecode, status_at. now destruct (byte_at b ofs =? 0). Qed.

(** C1 (as amended). For a frame the command loop accepts (length at least
    10, first byte 1, second byte the pending opcode), the status is read at
    offset [len - 2] when the chip id is 0 (the unknown default) or
    0xfff0c101, and at offset [len - 4] for every other chip id. *)
Theorem cmd_status_offset (chip_id op c : Z) (rest : list Z) (s : slip) :
  (10 <= fst (slip_recv c s))%nat ->
  byte_at (buf (snd (slip_recv c s))) 0 = 1 ->
  byte_at (buf (snd (slip_recv c s))) 1 = op ->
  cmd_scan chip_id op (c :: rest) s =
  (Some (status_at (buf (snd (slip_recv c s)))
           (if (chip_id =? 0) || (chip_id =? 0xfff0c101)
            then Z.of_nat (fst (slip_recv c s)) - 2
            else Z.of_nat (fst (slip_recv c s)) - 4)),
   snd (slip_recv c s)).
Proof.
  intros Hr H0 H1. rewrite cmd_scan_accept.
  - now rewrite cmd_ecode_status.
  - unfold cmd_accepts. rewrite H0, H1, Z.eqb_refl, Z.eqb_refl.
    destruct (Nat.ltb_spec (fst (slip_recv c s)) 10); [lia | reflexivity].
Qed.

(** Witness of [cmd_status_offset]: an ESP32 answers SYNC with status
    [01 05] in its four-byte tail. *)
Lemma cmd_status_offset_witness :
  let s := snd (slip_feed [192; 1; 8; 4; 0; 0; 0; 0; 0; 1; 5; 0; 0]
                          (slip_init slipbuf_size)) in
  (10 <= fst (slip_recv 192 s))%nat /\
  byte_at (buf (snd (slip_recv 192 s))) 0 = 1 /\
  byte_at (buf (snd (slip_recv 192 s))) 1 = 8 /\
  fst (cmd_scan 0x00f01d83 8 [192] s) = Some 5.
Proof.
  intros s.
  assert (Hr : (10 <= fst (slip_recv 192 s))%nat)
    by (apply Nat.leb_le; vm_compute; reflexivity).
  assert (H0 : byte_at (buf (snd (slip_recv 192 s))) 0 = 1)
    by (vm_compute; reflexivity).
  assert (H1 : byte_at (buf (snd (slip_recv 192 s))) 1 = 8)
    by (vm_compute; reflexivity).
  repeat (split; [assumption|]).
  rewrite (cmd_status_offset 0x00f01d83 8 192 [] s Hr H0 H1).
  vm_compute. reflexivity.
Defined.

(** C1, the claim as stated fails for the unknown default chip (id 0): the
    response [01 08 .. 01 05 00 00] of length 12 carries status 5 at offset
    [len - 4], yet [cmd] reads offset [len - 2] and returns 0. *)
Lemma cmd_status_offset_unknown_chip :
  match cmd (mkctx (slip_init slipbuf_size) (mkchip 0 "Unknown" 0))
            8 sync_data 36 0
            (mkworld [] [Data (slip_encode [1; 8; 4; 0; 0; 0; 0; 0; 1; 5; 0; 0])])
  with
  | Done (ecode, c1, _) =>
      ecode = 0 /\
      status_at (buf (ctx_slip c1)) (12 - 2) = 0 /\
      status_at (buf (ctx_slip c1)) (12 - 4) = 5 /\
      ecode <> status_at (buf (ctx_slip c1)) (12 - 4)
  | Exit _ => False
  end.
Proof. vm_compute. repeat split. discriminate. Qed.

(** The SYNC request on the wire. *)
Example sync_frame :
  slip_send (cmd_frame 8 sync_data 36 0) emit [] =
  [0xC0; 0x00; 0x08; 0x24; 0x00; 0x00; 0x00; 0x00; 0x00]
    ++ [0x07; 0x07; 0x12; 0x20] ++ replicate 32 0x55 ++ [0xC0].
Proof. reflexivity. Qed.

(** C7. The READ_REG request for address 0x40001000 is the header
    00 0A 04 00 00 00 00 00 followed by the four address bytes, and this is
    what [slip_send] wraps. *)
Theorem read_reg_frame :
  cmd_frame 10 (le32 0x40001000) 4 0 =
  [0x00; 0x0A; 0x04; 0x00; 0x00; 0x00; 0x00; 0x00] ++ [0x00; 0x10; 0x00; 0x40]
  /\ (forall c w, match read32 c 0x40001000 w with
                  | Done (_, _, _, w1) =>
                      tx w1 = tx w ++ slip_encode
                        ([0x00; 0x0A; 0x04; 0x00; 0x00; 0x00; 0x00; 0x00]
                           ++ [0x00; 0x10; 0x00; 0x40])
                  | Exit _ => True
                  end).
Proof.
  split; [reflexivity|].
  intros c w. unfold read32, cmd.
  destruct (cmd_loop _ _ _ _) as [[[e s1] evs]|f]; [|exact I].
  cbn [tx]. rewrite SlipFacts.slip_send_emit, SlipFacts.slip_encode_eq.
  reflexivity.
Qed.

Lemma cmd_loop_exit (chip_id op : Z) (evs : list io_event) (s : slip) (f : failure) :
  cmd_loop chip_id op evs s = Exit f -> f = SerialLineClosed.
Proof.
  revert s. induction evs as [| ev evs IH]; intros s; simpl; [discriminate|].
  destruct ev as [| | bytes]; [discriminate | congruence |].
  destruct bytes as [| b bs]; [congruence|].
  destruct (cmd_scan _ _ _ _) as [[e|] s1]; [discriminate | apply IH].
Qed.

Lemma chip_match_unknown (chips : list chip) (cur : chip) (chipid x : Z) :
  chip_match chips cur chipid = Exit (UnknownChipID x) <->
  x = chipid /\ ~ In chipid (map id chips).
Proof.
  induction chips as [| k chips IH]; simpl.
  - split; [intros H; inversion H; auto | intros [-> _]; reflexivity].
  - destruct (Z.eqb_spec (id k) chipid) as [E|E].
    + split.
      * destruct (negb (id cur =? 0) && negb (id cur =? chipid)); discriminate.
      * intros [_ H]. exfalso. apply H. now left.
    + rewrite IH. split; intros [H1 H2]; (split; [assumption|]); tauto.
Qed.

(** C9. When the register read succeeds with the value 0 and the session's
    chip id is 0, [chip_detect] succeeds and installs the [Unknown] entry
    (id 0, bootloader offset 0); [chip_detect] ends with the unknown-chip
    failure exactly when the register read succeeds with an id that is not
    in the registry. *)
Theorem chip_detect_zero (c : ctx) (w : world) :
  (forall c1 w1,
     read32 c 0x40001000 w = Done (0, Some 0, c1, w1) ->
     id (ctx_chip c) = 0 ->
     chip_detect c w = Done (mkctx (ctx_slip c1) (mkchip 0 "Unknown" 0), w1))
  /\ (forall x,
        chip_detect c w = Exit (UnknownChipID x) <->
        (exists c1 w1, read32 c 0x40001000 w = Done (0, Some x, c1, w1))
        /\ ~ In x (map id s_known_chips)).
Proof.
  split.
  - intros c1 w1 Hr Hid. unfold chip_detect. rewrite Hr.
    assert (Hc : ctx_chip c1 = ctx_chip c).
    { unfold read32, cmd in Hr.
      destruct (cmd_loop _ _ _ _) as [[[e s1] evs]|f]; [|discriminate].
      now inversion Hr. }
    simpl. rewrite Hc, Hid. reflexivity.
  - intros x. unfold chip_detect.
    destruct (read32 c 0x40001000 w) as [[[[ok v] c1] w1]|f] eqn:Hr.
    + assert (Hok : ok = 0 <-> v <> None).
      { unfold read32 in Hr. destruct (cmd _ _ _ _ _ _) as [[[ok' c'] w']|f'];
          [|discriminate].
        inversion Hr; subst. destruct (Z.eqb_spec ok 0); split; congruence. }
      destruct v as [chipid|].
      * destruct (chip_match s_known_chips (ctx_chip c1) chipid) as [k|f] eqn:Hm.
        -- split; [discriminate|]. intros [(c2 & w2 & E) Hn].
           inversion E; subst.
           assert (Hx : chip_match s_known_chips (ctx_chip c2) x
                        = Exit (UnknownChipID x))
             by (apply chip_match_unknown; auto).
           congruence.
        -- split.
           ++ intros E. inversion E; subst.
              apply chip_match_unknown in Hm as [-> Hn].
              split; [|assumption].
              exists c1, w1. f_equal. f_equal. f_equal. f_equal.
              apply Hok. discriminate.
           ++ intros [(c2 & w2 & E) Hn]. inversion E; subst.
              assert (Hx : chip_match s_known_chips (ctx_chip c2) x
                           = Exit (UnknownChipID x))
                by (apply chip_match_unknown; auto).
              congruence.
      * split; [discriminate|]. intros [(c2 & w2 & E) _]. discriminate.
    + split; [intros E; inversion E; subst|].
      * exfalso. unfold read32, cmd in Hr.
        destruct (cmd_loop _ _ _ _) as [[[e s1] evs]|f'] eqn:Hl; [discriminate|].
        apply cmd_loop_exit in Hl. congruence.
      * intros [(c2 & w2 & E) _]. discriminate.
Qed.

(** A ROM that answers READ_REG with 0x00F01D83 selects the ESP32 entry. *)
Example chip_detect_esp32 :
  match chip_detect (mkctx (slip_init 64) (mkchip 0 "Unknown" 0))
          (mkworld [] [Data (slip_encode
                         [1; 10; 4; 0; 0x83; 0x1D; 0xF0; 0x00; 0; 0; 0; 0])])
  with
  | Done (c, _) => ctx_chip c = mkchip 0x00F01D83 "ESP32" 4096
  | Exit _ => False
  end.
Proof. vm_compute. reflexivity. Qed.

(** Witness of [chip_detect_zero]: the ROM answers READ_REG with the word 0. *)
Lemma chip_detect_zero_witness :
  let c := mkctx (slip_init 64) (mkchip 0 "Unknown" 0) in
  let w := mkworld [] [Data (slip_encode [1; 10; 4; 0; 0; 0; 0; 0; 0; 0; 0; 0])] in
  exists c1 w1,
    read32 c 0x40001000 w = Done (0, Some 0, c1, w1) /\
    id (ctx_chip c) = 0 /\
    chip_detect c w = Done (mkctx (ctx_slip c1) (mkchip 0 "Unknown" 0), w1).
Proof.
  intros c w.
  destruct (read32 c 0x40001000 w) as [[[[ok v] c1] w1]|f] eqn:Hr;
    [|vm_compute in Hr; discriminate].
  assert (Hok : ok = 0 /\ v = Some 0).
  { vm_compute in Hr. inversion Hr. split; reflexivity. }
  destruct Hok as [-> ->].
  exists c1, w1. split; [reflexivity|]. split; [reflexivity|].
  exact (proj1 (chip_detect_zero c w) c1 w1 Hr eq_refl).
Defined.

End CmdFacts.

(** *** Facts about flashing *)

Module FlashFacts.
Import Slip Chip Cmd Flash.

(** What [flash_begin] writes to the serial line is the FLASH_BEGIN frame,
    wrapped by [slip_send]. *)
Lemma flash_begin_tx (c c1 : ctx) (size flash_offset : Z) (w w1 : world) :
  flash_begin c size flash_offset w = Done (c1, w1) ->
  tx w1 = tx w ++ slip_encode (flash_begin_frame (id (ctx_chip c)) size flash_offset).
Proof.
  unfold flash_begin, cmd, flash_begin_frame.
  destruct (cmd_loop _ _ _ _) as [[[e s1] evs]|f]; [|discriminate].
  destruct (e =? 0); [|discriminate].
  intros H. inversion H; subst. cbn [tx].
  now rewrite SlipFacts.slip_send_emit, SlipFacts.slip_encode_eq.
Qed.

(** C3 (as amended). The FLASH_BEGIN body is the four little-endian words
    [size, num_blocks, block_size, offset] (16 bytes); for the S2, S3, C3 and
    C6 chip ids the word [encrypted = 0] follows and the body is 20 bytes. *)
Theorem flash_begin_body (chip_id size flash_offset : Z) :
  let num_blocks := ((size + 4095) mod 2 ^ 32) / 4096 in
  let extra :=
    (chip_id =? 0x000007c6) || (chip_id =? 0xeb004136) || (chip_id =? 0x9)
    || (chip_id =? 0x0da1806f) || (chip_id =? 0x6921506f)
    || (chip_id =? 0x1b31506f) in
  frame_body (flash_begin_frame chip_id size flash_offset) =
    le32 (size mod 2 ^ 32) ++ le32 num_blocks ++ le32 4096 ++ le32 flash_offset
    ++ (if extra then le32 0 else [])
  /\ Z.of_nat (length (frame_body (flash_begin_frame chip_id size flash_offset)))
     = if extra then 20 else 16.
Proof.
  unfold flash_begin_frame, flash_begin_d1size, flash_begin_d1, frame_body,
    cmd_frame.
  replace (size + 4096 - 1) with (size + 4095) by lia.
  change CHIP_ID_ESP32_S2 with 0x000007c6.
  change CHIP_ID_ESP32_S3_BETA2 with 0xeb004136.
  change CHIP_ID_ESP32_S3_BETA3 with 0x9.
  change CHIP_ID_ESP32_C6_BETA with 0x0da1806f.
  change CHIP_ID_ESP32_C3_ECO_1_2 with 0x6921506f.
  change CHIP_ID_ESP32_C3_ECO3 with 0x1b31506f.
  cbv zeta.
  destruct ((chip_id =? 1990) || _ || _ || _ || _ || _); split; reflexivity.
Qed.

(** C3, the claim as stated fails: on an ESP32 the body is 16 bytes, not 20,
    and on an ESP32-S2 it is 20 bytes, not 24. *)
Lemma flash_begin_body_lengths :
  length (frame_body (flash_begin_frame CHIP_ID_ESP32 8192 0x1000)) = 16%nat /\
  length (frame_body (flash_begin_frame CHIP_ID_ESP32 8192 0x1000)) <> 20%nat /\
  length (frame_body (flash_begin_frame CHIP_ID_ESP32_S2 8192 0x1000)) = 20%nat /\
  length (frame_body (flash_begin_frame CHIP_ID_ESP32_S2 8192 0x1000)) <> 24%nat /\
  frame_body (flash_begin_frame CHIP_ID_ESP32 8192 0x1000) =
    [0; 0x20; 0; 0] ++ [2; 0; 0; 0] ++ [0; 0x10; 0; 0] ++ [0; 0x10; 0; 0].
Proof. repeat split; vm_compute; discriminate. Qed.

End FlashFacts.



(** *** Facts about the image builder *)

Module ElfFacts.
Import Elf.

Lemma byte_at_range (elf : mem) (i : Z) :
  Forall is_byte elf -> 0 <= byte_at elf i < 256.
Proof.
  intros H. unfold byte_at. destruct (i <? 0); [lia|].
  destruct (nth_in_or_default (Z.to_nat i) elf 0) as [Hin | ->]; [|lia].
  rewrite Forall_forall in H. apply H. now apply list_elem_of_In.
Qed.

Lemma rd32_range (elf : mem) (i : Z) :
  Forall is_byte elf -> 0 <= rd32 elf i < 2 ^ 32.
Proof.
  intros H. unfold rd32.
  pose proof (byte_at_range elf i H).
  pose proof (byte_at_range elf (i + 1) H).
  pose proof (byte_at_range elf (i + 2) H).
  pose proof (byte_at_range elf (i + 3) H).
  lia.
Qed.

Lemma byte_at_rd (elf : mem) (ofs k i : Z) :
  0 <= ofs -> 0 <= i < k ->
  byte_at (firstn (Z.to_nat k) (skipn (Z.to_nat ofs) elf)) i = byte_at elf (ofs + i).
Proof.
  intros Ho Hi. unfold byte_at.
  destruct (Z.ltb_spec i 0); [lia|].
  destruct (Z.ltb_spec (ofs + i) 0); [lia|].
  rewrite nth_firstn.
  destruct (Nat.ltb_spec (Z.to_nat i) (Z.to_nat k)); [|lia].
  rewrite nth_skipn. f_equal. lia.
Qed.

Lemma rd_ok (elf : mem) (ofs k : Z) :
  0 <= ofs -> ofs + k <= len elf ->
  rd elf ofs k = Ok (firstn (Z.to_nat k) (skipn (Z.to_nat ofs) elf)).
Proof.
  intros Ho Hk. unfold rd.
  destruct (Z.leb_spec 0 ofs); [|lia].
  destruct (Z.leb_spec (ofs + k) (len elf)); [|lia]. reflexivity.
Qed.

Lemma rd32_rd (elf : mem) (ofs k i : Z) :
  0 <= ofs -> 0 <= i -> i + 4 <= k ->
  rd32 (firstn (Z.to_nat k) (skipn (Z.to_nat ofs) elf)) i = rd32 elf (ofs + i).
Proof.
  intros Ho Hi Hk. unfold rd32.
  rewrite !byte_at_rd by lia.
  now rewrite !Z.add_assoc.
Qed.

Lemma rd_u32_ok (elf : mem) (ofs : Z) :
  0 <= ofs -> ofs + 4 <= len elf -> rd_u32 elf ofs = Ok (rd32 elf ofs).
Proof.
  intros Ho Hk. unfold rd_u32. rewrite rd_ok by assumption. simpl.
  rewrite (rd32_rd elf ofs 4 0) by lia. now rewrite Z.add_0_r.
Qed.

Lemma rd_u16_ok (elf : mem) (ofs : Z) :
  0 <= ofs -> ofs + 2 <= len elf ->
  rd_u16 elf ofs = Ok (byte_at elf ofs + 256 * byte_at elf (ofs + 1)).
Proof.
  intros Ho Hk. unfold rd_u16. rewrite rd_ok by assumption. simpl.
  rewrite !(byte_at_rd elf ofs 2) by lia. now rewrite Z.add_0_r.
Qed.

Lemma length_rd (elf : mem) (ofs k : Z) :
  0 <= ofs -> 0 <= k -> ofs + k <= len elf ->
  Z.of_nat (length (firstn (Z.to_nat k) (skipn (Z.to_nat ofs) elf))) = k.
Proof.
  intros Ho Hk Hl. unfold len in Hl.
  rewrite length_firstn, length_skipn. lia.
Qed.

(** One iteration of the segment loop on a header that lies, with its
    segment, inside the file. *)
Lemma mkbin_segment_ok (elf : mem) (i : Z) (st : mkbin_state) :
  Forall is_byte elf -> len elf < 2 ^ 31 -> 0 <= i ->
  rd32 elf 28 + 32 <= len elf ->
  phdr_in_file elf (rd32 elf 28)
    (i + if rd32 elf (rd32 elf 28 + 16) =? 0 then 1 else 0) = true ->
  exists st' ext,
    mkbin_segment elf i st = Ok st' /\
    iterations st' = S (iterations st) /\
    written st' = written st ++ ext /\
    Z.of_nat (length ext) <= 2 ^ 33.
Proof.
  intros Hb Hlen Hi Hph Hin.
  pose proof (rd32_range elf 28 Hb) as Hoff.
  set (e_phoff := rd32 elf 28) in *.
  unfold mkbin_segment, elf_get_phdr.
  rewrite (rd_u32_ok elf 28) by lia. cbn [bind]. fold e_phoff.
  rewrite (rd_u32_ok elf (e_phoff + 16)) by lia. cbn [bind].
  set (shift := if rd32 elf (e_phoff + 16) =? 0 then 1 else 0) in *.
  assert (Hs : 0 <= shift <= 1)
    by (subst shift; destruct (rd32 elf (e_phoff + 16) =? 0); lia).
  assert (Hno : (if rd32 elf (e_phoff + 16) =? 0 then i + 1 else i) = i + shift)
    by (subst shift; destruct (rd32 elf (e_phoff + 16) =? 0); lia).
  rewrite Hno. clear Hno.
  set (no := i + shift) in *.
  unfold phdr_in_file in Hin. apply andb_true_iff in Hin as [Hin1 Hin2].
  apply Z.leb_le in Hin1. apply Z.leb_le in Hin2.
  rewrite (rd_ok elf (e_phoff + 32 * no) 32) by lia. cbn [bind].
  cbn [p_vaddr p_filesz p_offset].
  rewrite !(rd32_rd elf (e_phoff + 32 * no) 32) by lia.
  pose proof (rd32_range elf (e_phoff + 32 * no + 4) Hb) as Ho.
  pose proof (rd32_range elf (e_phoff + 32 * no + 16) Hb) as Hf.
  set (ofs := rd32 elf (e_phoff + 32 * no + 4)) in *.
  set (fsz := rd32 elf (e_phoff + 32 * no + 16)) in *.
  rewrite (rd_ok elf ofs fsz) by lia. cbn [bind].
  eexists. eexists. split; [reflexivity|].
  cbn [iterations written]. split; [reflexivity|]. split; [reflexivity|].
  rewrite !length_app, length_replicate.
  change (length (le32 _)) with 4%nat.
  rewrite !Nat2Z.inj_add, (length_rd elf ofs fsz) by lia.
  pose proof (Z.mod_pos_bound (align_to fsz 4 mod 2 ^ 32 - fsz) (2 ^ 32)).
  lia.
Qed.

(** The segment loop finishes after [num_segments - i] iterations. *)
Lemma mkbin_loop_ok (elf : mem) (num_segments : Z) :
  Forall is_byte elf -> len elf < 2 ^ 31 ->
  rd32 elf 28 + 32 <= len elf -> 0 <= num_segments < 256 ->
  (forall i, 0 <= i < num_segments ->
     phdr_in_file elf (rd32 elf 28)
       (i + if rd32 elf (rd32 elf 28 + 16) =? 0 then 1 else 0) = true) ->
  forall (k : nat) (fuel : nat) (i : Z) (st : mkbin_state),
    0 <= i -> Z.of_nat k = num_segments - i -> (k < fuel)%nat ->
    exists st' ext,
      mkbin_loop fuel elf i num_segments st = Ok st' /\
      iterations st' = (iterations st + k)%nat /\
      written st' = written st ++ ext /\
      Z.of_nat (length ext) <= Z.of_nat k * 2 ^ 33.
Proof.
  intros Hb Hlen Hph Hn Hall.
  induction k as [| k IH]; intros fuel i st Hi Hk Hfuel.
  - destruct fuel as [| fuel]; [lia|]. simpl.
    destruct (Z.ltb_spec i num_segments); [lia|].
    exists st, []. rewrite app_nil_r, Nat.add_0_r. repeat split; simpl; lia.
  - destruct fuel as [| fuel]; [lia|]. simpl.
    destruct (Z.ltb_spec i num_segments); [|lia].
    destruct (mkbin_segment_ok elf i st Hb Hlen Hi Hph) as (st1 & e1 & E1 & I1 & W1 & L1).
    { apply Hall. lia. }
    rewrite E1. cbn [bind].
    rewrite Z.mod_small by lia.
    destruct (IH fuel (i + 1) st1) as (st2 & e2 & E2 & I2 & W2 & L2); try lia.
    exists st2, (e1 ++ e2). split; [exact E2|].
    split; [lia|]. split.
    + now rewrite W2, W1, <- app_assoc.
    + rewrite length_app. lia.
Qed.

(** The file ends on a 16-byte boundary with the checksum as last byte. *)
Lemma mkbin_finish_aligned (st : mkbin_state) :
  Z.of_nat (length (written st)) < 2 ^ 63 ->
  Z.of_nat (length (mkbin_finish st)) mod 16 = 0 /\
  exists body,
    mkbin_finish st = body ++ [cs st] /\
    Z.of_nat (length body) mod 16 = 15 /\
    firstn (length (written st)) body = written st.
Proof.
  intros Hl. unfold mkbin_finish.
  set (ofs := Z.of_nat (length (written st))) in *.
  assert (Ho : 0 <= ofs) by (subst ofs; lia).
  assert (Ha : align_to (ofs + 1) 16 = (ofs + 16) / 16 * 16).
  { unfold align_to. replace (ofs + 1 + 16 - 1) with (ofs + 16) by lia.
    rewrite (Z.mod_small (ofs + 16)) by lia.
    apply Z.mod_small. Z.div_mod_to_equations. lia. }
  rewrite Ha.
  assert (Hp : 0 <= (ofs + 16) / 16 * 16 - ofs - 1 < 16)
    by (Z.div_mod_to_equations; lia).
  split.
  - rewrite !length_app, length_replicate. cbn [length].
    rewrite !Nat2Z.inj_add. fold ofs. rewrite Z2Nat.id by lia.
    Z.div_mod_to_equations. lia.
  - exists (written st ++ replicate (Z.to_nat ((ofs + 16) / 16 * 16 - ofs - 1)) 0).
    split; [now rewrite <- app_assoc|]. split.
    + rewrite length_app, length_replicate, Nat2Z.inj_add. fold ofs.
      rewrite Z2Nat.id by lia. Z.div_mod_to_equations. lia.
    + now rewrite take_app_length.
Qed.

Lemma elf32_ok_bytes (elf : mem) :
  forallb (fun b => (0 <=? b) && (b <? 256)) elf = true -> Forall is_byte elf.
Proof.
  intros H. rewrite forallb_forall in H. apply Forall_forall.
  intros b Hb. apply list_elem_of_In, H in Hb.
  apply andb_true_iff in Hb as [H1 H2]. unfold is_byte. lia.
Qed.

(** On a well-formed file [mkbin] produces an image, after as many
    iterations of the segment loop as the truncated [e_phnum]. *)
Lemma mkbin_ok (chip_id : Z) (elf : mem) :
  elf32_ok elf = true ->
  exists st,
    mkbin chip_id elf = Ok (mkbin_finish st, iterations st) /\
    iterations st = Z.to_nat (e_phnum elf mod 256) /\
    Z.of_nat (length (written st)) < 2 ^ 63 /\
    byte_at (written st) 1 = e_phnum elf mod 256 /\
    (2 <= length (written st))%nat.
Proof.
  intros Hok. unfold elf32_ok in Hok.
  apply andb_true_iff in Hok as [Hok Hsegs].
  apply andb_true_iff in Hok as [Hok Hid]. apply Z.eqb_eq in Hid.
  apply andb_true_iff in Hok as [Hok Hlt]. apply Z.ltb_lt in Hlt.
  apply andb_true_iff in Hok as [Hok Hge]. apply Z.leb_le in Hge.
  apply elf32_ok_bytes in Hok.
  unfold mkbin, elf_get_num_segments, elf_get_entry_point.
  rewrite (rd_u16_ok elf 44), (rd_u32_ok elf 24) by lia. cbn [bind].
  change (44 + 1) with 45. fold (e_phnum elf).
  set (num_segments := e_phnum elf mod 256) in *.
  assert (Hn : 0 <= num_segments < 256) by (apply Z.mod_pos_bound; lia).
  destruct (Z.ltb_spec (len elf) 32); [lia|].
  destruct (Z.eqb_spec (byte_at elf 4) 1); [|contradiction]. cbn [negb].
  set (st0 := mkst _ 239 0%nat).
  assert (Hw0 : exists rest, written st0 = 0xe9 :: num_segments :: rest
                             /\ length rest = 22%nat).
  { subst st0. cbn [written]. eexists. split; [reflexivity|].
    destruct (chip_id =? 1990); reflexivity. }
  destruct Hw0 as (rest & Hw0 & Hrest).
  assert (Hloop : exists st ext,
            mkbin_loop 256 elf 0 num_segments st0 = Ok st /\
            iterations st = Z.to_nat num_segments /\
            written st = written st0 ++ ext /\
            Z.of_nat (length ext) <= num_segments * 2 ^ 33).
  { fold num_segments in Hsegs. apply orb_true_iff in Hsegs as [Hz|Hsegs].
    - apply Z.eqb_eq in Hz. exists st0, []. rewrite Hz. simpl.
      rewrite app_nil_r. repeat split. lia.
    - apply andb_true_iff in Hsegs as [Hph Hall]. apply Z.leb_le in Hph.
      rewrite forallb_forall in Hall.
      assert (Hall' : forall i, 0 <= i < num_segments ->
                phdr_in_file elf (rd32 elf 28)
                  (i + if rd32 elf (rd32 elf 28 + 16) =? 0 then 1 else 0) = true).
      { intros i Hi.
        replace i with (Z.of_nat (Z.to_nat i)) at 1 by lia.
        apply Hall. apply in_seq. lia. }
      destruct (mkbin_loop_ok elf num_segments Hok Hlt Hph Hn Hall')
        with (k := Z.to_nat num_segments) (fuel := 256%nat) (i := 0) (st := st0)
        as (st & ext & E & I & W & L); try lia.
      exists st, ext. repeat split; try assumption. lia. }
  destruct Hloop as (st & ext & E & I & W & L).
  rewrite E. cbn [bind]. exists st.
  split; [reflexivity|]. split; [exact I|].
  rewrite W, Hw0. cbn [app length byte_at]. rewrite length_app.
  repeat split; try reflexivity; lia.
Qed.

(** C10. For every well-formed ELF32 input the byte at offset 1 of the
    image is [e_phnum] reduced modulo 256, and the segment loop runs
    exactly that many times. *)
Theorem mkbin_segment_count (chip_id : Z) (elf : mem) :
  elf32_ok elf = true ->
  exists image iters,
    mkbin chip_id elf = Ok (image, iters) /\
    byte_at image 1 = e_phnum elf mod 256 /\
    Z.of_nat iters = e_phnum elf mod 256.
Proof.
  intros Hok.
  destruct (mkbin_ok chip_id elf Hok) as (st & E & I & Hl & Hb & H2).
  exists (mkbin_finish st), (iterations st).
  split; [exact E|]. split.
  - rewrite <- Hb. unfold mkbin_finish, byte_at. cbn [Z.ltb Z.compare].
    apply app_nth1. change (Z.to_nat 1) with 1%nat. lia.
  - rewrite I. apply Z2Nat.id. apply Z.mod_pos_bound. lia.
Qed.

(** Witness of [mkbin_segment_count]: the two-segment sample file. *)
Lemma mkbin_segment_count_witness :
  elf32_ok sample_elf = true /\
  exists image iters,
    mkbin 0 sample_elf = Ok (image, iters) /\
    byte_at image 1 = e_phnum sample_elf mod 256 /\
    Z.of_nat iters = e_phnum sample_elf mod 256.
Proof.
  assert (H : elf32_ok sample_elf = true) by (vm_compute; reflexivity).
  split; [exact H|]. exact (mkbin_segment_count 0 sample_elf H).
Defined.

(** The image of the sample file: two segments, the second padded from 5
    to 8 bytes, 64 bytes in all. *)
Example mkbin_sample :
  mkbin 0 sample_elf =
  Ok ([0xE9; 2; 0; 0] ++ [0; 0; 0x08; 0x40]
      ++ [0xEE; 0; 0; 0; 2; 0; 0; 0; 0; 0; 0; 0; 0; 0; 0; 0]
      ++ [0; 0; 0xFB; 0x3F] ++ [4; 0; 0; 0] ++ [97; 98; 99; 100]
      ++ [0; 0; 0x08; 0x40] ++ [8; 0; 0; 0] ++ [104; 101; 108; 108; 111]
      ++ [0; 0; 0] ++ replicate 11 0 ++ [0x89],
      2%nat).
Proof. vm_compute. reflexivity. Qed.

End ElfFacts.

(** *** Facts about the HEX encoder and decoder *)

Module HexFacts.
Import Hex.

(** The records of the pair (0x20000, [AA BB]) and what [unhex] makes of
    them. *)
Example mkhex_unhex_aligned :
  unhex (mkhex [(0x20000, [0xAA; 0xBB])]) = inl ([(0x20000, [0xAA; 0xBB])], [0x20000]).
Proof. vm_compute. reflexivity. Qed.

(** A record that starts exactly on the 64 KiB boundary is announced by an
    upper-address record: 33 bytes at 0x1FFF0 come back as one segment. *)
Example mkhex_unhex_boundary :
  let bytes := map Z.of_nat (seq 1 33) in
  unhex (mkhex [(0x1FFF0, bytes)]) = inl ([(0x1FFF0, bytes)], [0x1FFF0]).
Proof. vm_compute. reflexivity. Qed.

(** C4, at the failing input.  Seventeen bytes at 0x1FFF8: the first data
    record runs over the 64 KiB boundary, no upper-address record announces
    0x0002, and the second data record is decoded under the old upper
    address.  [unhex] yields two segments, the second at 0x10008 in place
    of 0x20008. *)
Theorem mkhex_unhex_straddle :
  let bytes := [1; 2; 3; 4; 5; 6; 7; 8; 9; 10; 11; 12; 13; 14; 15; 16; 17] in
  mkhex [(0x1FFF8, bytes)] =
    String.append ":020000040001f9" (String.append nl
   (String.append ":10fff8000102030405060708090a0b0c0d0e0f1071" (String.append nl
   (String.append ":0100080011e6" (String.append nl
   (String.append ":00000001ff" nl))))))
  /\ unhex (mkhex [(0x1FFF8, bytes)]) =
     inl ([(0x1FFF8, firstn 16 bytes); (0x10008, [17])], [0x1FFF8; 0x10008])
  /\ unhex (mkhex [(0x1FFF8, bytes)]) <> inl ([(0x1FFF8, bytes)], [0x1FFF8]).
Proof. vm_compute. repeat split. discriminate. Qed.

End HexFacts.

(** *** Facts about streams of frames and the monitor relay *)

Module MonitorFacts.
Import Slip Monitor SlipFacts.

Lemma slip_packets_app (a b : list Z) (s : slip) :
  slip_packets (a ++ b) s =
  slip_packets a s ++ slip_packets b (snd (slip_feed a s)).
Proof.
  revert s. induction a as [| c a IH]; intros s; [reflexivity|].
  rewrite slip_feed_cons. simpl.
  destruct (slip_recv c s) as [r s1]. simpl.
  rewrite IH. now destruct (r =? 0)%nat.
Qed.

Lemma slip_packets_silent (a : list Z) (s : slip) (k : nat) :
  fst (slip_feed a s) = replicate k 0%nat -> slip_packets a s = [].
Proof.
  revert s k. induction a as [| c a IH]; intros s k; [reflexivity|].
  rewrite slip_feed_cons. simpl.
  destruct (slip_recv c s) as [r s1]. simpl.
  destruct k as [| k]; [discriminate|]. simpl.
  intros H. injection H as -> H. simpl. now apply (IH s1 k).
Qed.

(** A frame fed in serial mode: the results and the state it leaves. *)
Lemma slip_feed_frame (B : list Z) (s : slip) :
  mode s = 0 -> (length B < size s)%nat ->
  slip_feed (slip_encode B) s =
  (replicate (S (length (flat_map esc B))) 0%nat ++ [length B],
   mkslip (list_inserts 0 B (buf s)) (size s) 0 0 END).
Proof.
  intros Hm Hl. rewrite slip_encode_eq.
  rewrite slip_feed_cons, slip_recv_open by assumption.
  cbn [fst snd].
  destruct (slip_feed_payload B (mkslip (buf s) (size s) 0 1 END))
    as (p1 & Hp1 & E1); [simpl; slip_ne | simpl; slip_ne | simpl; lia |].
  cbn [len buf size mode] in E1.
  rewrite slip_feed_app, E1. cbn [fst snd].
  rewrite slip_feed_cons, slip_recv_close by (simpl; slip_ne).
  reflexivity.
Qed.

Lemma slip_packets_cons (c : Z) (cs : list Z) (s : slip) :
  slip_packets (c :: cs) s =
  (if (fst (slip_recv c s) =? 0)%nat then []
   else [take (fst (slip_recv c s)) (buf (snd (slip_recv c s)))])
  ++ slip_packets cs (snd (slip_recv c s)).
Proof.
  simpl. destruct (slip_recv c s) as [r s1]. simpl.
  now destruct (r =? 0)%nat.
Qed.

Lemma slip_packets_frame (B : list Z) (s : slip) :
  mode s = 0 -> length (buf s) = size s -> (length B < size s)%nat ->
  slip_packets (slip_encode B) s = item_packet (Frame B).
Proof.
  intros Hm Hb Hl. rewrite slip_encode_eq.
  rewrite slip_packets_cons, slip_recv_open by assumption.
  cbn [fst snd Nat.eqb app].
  destruct (slip_feed_payload B (mkslip (buf s) (size s) 0 1 END))
    as (p1 & Hp1 & E1); [simpl; slip_ne | simpl; slip_ne | simpl; lia |].
  cbn [len buf size mode] in E1.
  rewrite slip_packets_app.
  rewrite (slip_packets_silent _ _ (length (flat_map esc B)))
    by (now rewrite E1).
  rewrite E1. cbn [snd app].
  rewrite slip_packets_cons, slip_recv_close by (simpl; slip_ne).
  cbn [fst snd len buf slip_packets].
  destruct B as [| b B]; [reflexivity|]. cbn [length Nat.eqb Nat.add item_packet].
  rewrite app_nil_r. f_equal. change (S (length B)) with (length (b :: B)).
  apply take_inserts_0. cbn [length] in *. lia.
Qed.

(** Console text in serial mode changes nothing but [prev]. *)
Lemma slip_feed_noise (text : list Z) (s : slip) :
  mode s = 0 -> ~ In END text ->
  exists p,
    slip_feed text s =
    (replicate (length text) 0%nat, mkslip (buf s) (size s) (len s) 0 p).
Proof.
  revert s. induction text as [| c text IH]; intros s Hm Hn.
  - exists (prev s). destruct s; simpl in *; now subst.
  - assert (Hc : c <> END) by (intros ->; apply Hn; now left).
    assert (E : slip_recv c s = (0%nat, mkslip (buf s) (size s) (len s) 0 c)).
    { destruct s as [bf n l m p]. simpl in *. subst m.
      unfold slip_recv, set_prev. simpl.
      destruct (Z.eqb_spec c END); [contradiction | reflexivity]. }
    destruct (IH (mkslip (buf s) (size s) (len s) 0 c)) as (p & Ep);
      [reflexivity | intros H; apply Hn; now right |].
    exists p. rewrite slip_feed_cons, E. cbn [fst snd]. now rewrite Ep.
Qed.

(** One item of a stream, taken in serial mode. *)
Lemma slip_item (i : item) (s : slip) :
  mode s = 0 -> length (buf s) = size s ->
  match i with
  | Noise text => ~ In END text
  | Frame B => (length B < size s)%nat
  end ->
  slip_packets (item_bytes i) s = item_packet i /\
  mode (snd (slip_feed (item_bytes i) s)) = 0 /\
  length (buf (snd (slip_feed (item_bytes i) s))) = size s /\
  size (snd (slip_feed (item_bytes i) s)) = size s.
Proof.
  intros Hm Hb Hi. destruct i as [text | B]; cbn [item_bytes].
  - destruct (slip_feed_noise text s Hm Hi) as (p & E).
    split; [|rewrite E; simpl; auto].
    apply (slip_packets_silent _ _ (length text)). now rewrite E.
  - split; [now apply slip_packets_frame|].
    rewrite slip_feed_frame by assumption. cbn [snd mode buf size].
    rewrite length_inserts. auto.
Qed.

(** X1. A serial stream of console text (free of 0xC0) and SLIP frames
    shorter than the buffer, read from serial mode, is decoded to exactly the
    non-empty payloads of its frames, in order. *)
Theorem slip_stream_packets (items : list item) (s : slip) :
  mode s = 0 -> length (buf s) = size s ->
  Forall (fun i => match i with
                   | Noise text => ~ In END text
                   | Frame B => (length B < size s)%nat
                   end) items ->
  slip_packets (concat (map item_bytes items)) s =
  concat (map item_packet items).
Proof.
  revert s. induction items as [| i items IH]; intros s Hm Hb Hall;
    [reflexivity|].
  inversion Hall as [| ? ? Hi Hrest]; subst.
  cbn [map concat]. rewrite slip_packets_app.
  destruct (slip_item i s Hm Hb Hi) as (E & M & L & S).
  rewrite E. f_equal. apply IH; try assumption.
  - congruence.
  - now rewrite S.
Qed.

(** Witness of [slip_stream_packets]: a boot message, two frames and a
    prompt. *)
Lemma slip_stream_packets_witness :
  let items := [Noise [114; 115; 116; 10]; Frame [1; 192; 3]; Frame [219];
                Noise [62]] in
  mode (slip_init 8) = 0 /\
  length (buf (slip_init 8)) = size (slip_init 8) /\
  slip_packets (concat (map item_bytes items)) (slip_init 8) =
  [[1; 192; 3]; [219]].
Proof.
  intros items. split; [reflexivity|]. split; [reflexivity|].
  apply (slip_stream_packets items (slip_init 8)); [reflexivity | reflexivity |].
  repeat constructor; simpl; unfold END; intuition (try lia; try discriminate).
Defined.

(** A frame met in packet mode: the opening delimiter closes the pending
    packet, the payload passes as console text and the closing delimiter
    opens a packet. *)
Lemma slip_feed_frame_out_of_phase (B : list Z) (s : slip) :
  mode s <> 0 -> (len s < size s)%nat ->
  slip_feed (slip_encode B) s =
  (len s :: replicate (S (length (flat_map esc B))) 0%nat,
   mkslip (buf s) (size s) 0 1 END).
Proof.
  intros Hm Hl. rewrite slip_encode_eq, slip_feed_cons.
  assert (E1 : slip_recv END s = (len s, mkslip (buf s) (size s) 0 0 END)).
  { destruct s as [bf n l m p]. simpl in *.
    unfold slip_recv, append, set_prev, set_len, flip, lnot. simpl.
    slip_cases. }
  rewrite E1. cbn [fst snd]. rewrite slip_feed_app.
  destruct (slip_feed_noise (flat_map esc B) (mkslip (buf s) (size s) 0 0 END))
    as (p & E2); [reflexivity | |].
  { intros H. apply in_flat_map in H as (b & _ & H). unfold esc in H.
    destruct (Z.eqb_spec b END); [|destruct (Z.eqb_spec b ESC)];
      simpl in H; intuition slip_ne. }
  rewrite E2. cbn [fst snd buf size len slip_feed].
  rewrite slip_recv_open by reflexivity. cbn [fst snd buf size].
  f_equal. rewrite replicate_S_end. reflexivity.
Qed.

(** X2. The decoder never resynchronises by itself: once a lone delimiter
    has left it in packet mode with nothing buffered, a stream of
    back-to-back frames yields no packet at all and leaves it in packet
    mode. *)
Theorem slip_out_of_phase (Bs : list (list Z)) (s : slip) :
  mode s <> 0 -> len s = 0%nat -> (0 < size s)%nat ->
  slip_packets (concat (map slip_encode Bs)) s = [] /\
  mode (snd (slip_feed (concat (map slip_encode Bs)) s)) <> 0.
Proof.
  revert s. induction Bs as [| B Bs IH]; intros s Hm Hl Hs.
  - split; [reflexivity | assumption].
  - cbn [map concat]. rewrite slip_packets_app, slip_feed_app. cbn [snd].
    pose proof (slip_feed_frame_out_of_phase B s Hm ltac:(lia)) as E.
    rewrite Hl in E.
    assert (Ep : slip_packets (slip_encode B) s = []).
    { apply (slip_packets_silent _ _ (S (S (length (flat_map esc B))))).
      now rewrite E. }
    rewrite Ep, E. cbn [snd app].
    apply IH; simpl; [lia | reflexivity | assumption].
Qed.

(** Witness of [slip_out_of_phase]: the state after a lone delimiter. *)
Lemma slip_out_of_phase_witness :
  let s := snd (slip_recv 192 (slip_init 8)) in
  mode s <> 0 /\ len s = 0%nat /\ (0 < size s)%nat /\
  slip_packets (concat (map slip_encode [[1; 2]; [3]])) s = [].
Proof.
  intros s.
  assert (Hm : mode s <> 0) by (vm_compute; intros H; discriminate H).
  assert (Hs : (0 < size s)%nat) by (vm_compute; lia).
  split; [exact Hm|]. split; [reflexivity|]. split; [exact Hs|].
  exact (proj1 (slip_out_of_phase [[1; 2]; [3]] s Hm eq_refl Hs)).
Defined.

Lemma monitor_serial_cons (sock c : Z) (rest : list Z) (s : slip) :
  monitor_serial sock (c :: rest) s =
  ((if (fst (slip_recv c s) =? 0)%nat && (mode (snd (slip_recv c s)) =? 0)
    then [Putchar c] else [])
   ++ (if (fst (slip_recv c s) <=? 0)%nat then []
       else if (0 <? fst (slip_recv c s))%nat
               && negb (mode (snd (slip_recv c s)) =? 0) && negb (sock =? 0)
            then [SendTo (take (len (snd (slip_recv c s)))
                               (buf (snd (slip_recv c s))))]
            else [])
   ++ fst (monitor_serial sock rest (snd (slip_recv c s))),
   snd (monitor_serial sock rest (snd (slip_recv c s)))).
Proof.
  simpl. destruct (slip_recv c s) as [r s1]. simpl.
  now destruct (monitor_serial sock rest s1).
Qed.

Lemma monitor_serial_state (sock : Z) (bytes : list Z) (s : slip) :
  snd (monitor_serial sock bytes s) = snd (slip_feed bytes s).
Proof.
  revert s. induction bytes as [| c rest IH]; intros s; [reflexivity|].
  rewrite monitor_serial_cons, slip_feed_cons. cbn [snd]. apply IH.
Qed.

Lemma monitor_serial_app (sock : Z) (a b : list Z) (s : slip) :
  fst (monitor_serial sock (a ++ b) s) =
  fst (monitor_serial sock a s)
  ++ fst (monitor_serial sock b (snd (slip_feed a s))).
Proof.
  revert s. induction a as [| c a IH]; intros s; [reflexivity|].
  cbn [app]. rewrite !monitor_serial_cons, slip_feed_cons. cbn [fst snd].
  rewrite IH. now rewrite <- !app_assoc.
Qed.

(** A non-zero result is only returned on the way back to serial mode. *)
Lemma slip_recv_result_mode (c : Z) (s : slip) :
  fst (slip_recv c s) <> 0%nat -> mode (snd (slip_recv c s)) = 0.
Proof.
  destruct s as [bf n l m p].
  unfold slip_recv, append, set_prev, set_len, flip, lnot. simpl.
  slip_cases; intros Hres; try reflexivity; try (now contradiction Hres);
    destruct (n <=? l)%nat; simpl in *; contradiction.
Qed.

Lemma monitor_serial_no_send (sock : Z) (bytes : list Z) (s : slip) :
  forallb (fun a => negb (is_send a)) (fst (monitor_serial sock bytes s)) = true.
Proof.
  revert s. induction bytes as [| c rest IH]; intros s; [reflexivity|].
  rewrite monitor_serial_cons. cbn [fst].
  rewrite !forallb_app, IH, andb_true_r.
  apply andb_true_iff. split.
  - now destruct (_ && _).
  - destruct (Nat.leb_spec (fst (slip_recv c s)) 0); [reflexivity|].
    rewrite (slip_recv_result_mode c s) by lia.
    rewrite Z.eqb_refl. cbn [negb]. rewrite andb_false_r. reflexivity.
Qed.

Lemma slip_send_uart (bytes : list Z) (acc : list action) :
  slip_send bytes (fun c out => out ++ [UartTx c]) acc =
  acc ++ map UartTx (slip_encode bytes).
Proof.
  rewrite slip_encode_eq. unfold slip_send.
  assert (H : forall q a,
    fold_left (fun (a : list action) b =>
      if b =? END then (a ++ [UartTx ESC]) ++ [UartTx ESC_END]
      else if b =? ESC then (a ++ [UartTx ESC]) ++ [UartTx ESC_ESC]
      else a ++ [UartTx b]) q a = a ++ map UartTx (flat_map esc q)).
  { induction q as [| b q IH]; intros a; simpl.
    - now rewrite app_nil_r.
    - rewrite IH, map_app. unfold esc.
      destruct (b =? END); [| destruct (b =? ESC)];
        now rewrite <- ?app_assoc. }
  rewrite H. cbn [map]. rewrite map_app. cbn [map app].
  now rewrite <- !app_assoc.
Qed.

(** X3. [monitor] never calls [sendto]: whatever the device, the keyboard
    and the socket deliver, and whatever the SLIP state and the socket are,
    no action of [monitor] is a datagram to the UDP peer (a non-zero result
    of [slip_recv] always comes with mode 0, which the guard of [sendto]
    excludes). *)
Theorem monitor_never_sends (sock : Z) (r : ready) (s : slip) :
  match monitor sock r s with
  | Some (acts, _) => forallb (fun a => negb (is_send a)) acts = true
  | None => True
  end.
Proof.
  unfold monitor.
  set (a2 := match from_stdin r with
             | Some bytes => map UartTx bytes
             | None => []
             end).
  set (a3 := match from_sock r with
             | Some [] => []
             | Some bytes => slip_send bytes (fun c out => out ++ [UartTx c]) []
             | None => []
             end).
  assert (H2 : forallb (fun a => negb (is_send a)) a2 = true).
  { subst a2. destruct (from_stdin r) as [bytes|]; [|reflexivity].
    induction bytes; [reflexivity | assumption]. }
  assert (H3 : forallb (fun a => negb (is_send a)) a3 = true).
  { subst a3. destruct (from_sock r) as [[| b bs]|]; try reflexivity.
    rewrite slip_send_uart. cbn [app].
    induction (slip_encode (b :: bs)); [reflexivity | assumption]. }
  destruct (from_serial r) as [[| c bytes]|].
  - exact I.
  - pose proof (monitor_serial_no_send sock (c :: bytes) s) as H1.
    destruct (monitor_serial sock (c :: bytes) s) as [a1 s1].
    cbn [fst] in H1. now rewrite !forallb_app, H1, H2, H3.
  - now rewrite !forallb_app, H2, H3.
Qed.

(** In packet mode nothing but the delimiter is echoed. *)
Lemma monitor_serial_packet_mode (sock : Z) (bytes : list Z) (s : slip) :
  mode s <> 0 -> ~ In END bytes -> fst (monitor_serial sock bytes s) = [].
Proof.
  revert s. induction bytes as [| c rest IH]; intros s Hm Hn; [reflexivity|].
  assert (Hc : c <> END) by (intros ->; apply Hn; now left).
  pose proof (slip_recv_mode c s) as Em.
  destruct (Z.eqb_spec c END); [contradiction|].
  assert (Er : fst (slip_recv c s) = 0%nat)
    by (rewrite slip_recv_packet by assumption; reflexivity).
  rewrite monitor_serial_cons. cbn [fst]. rewrite Er, Em.
  destruct (Z.eqb_spec (mode s) 0); [contradiction|].
  cbn [Nat.eqb andb app Nat.leb].
  apply IH; [congruence | intros H; apply Hn; now right].
Qed.

Lemma monitor_serial_noise (sock : Z) (text : list Z) (s : slip) :
  mode s = 0 -> ~ In END text ->
  fst (monitor_serial sock text s) = map Putchar text.
Proof.
  revert s. induction text as [| c text IH]; intros s Hm Hn; [reflexivity|].
  assert (Hc : c <> END) by (intros ->; apply Hn; now left).
  assert (E : slip_recv c s = (0%nat, mkslip (buf s) (size s) (len s) 0 c)).
  { destruct s as [bf n l m p]. simpl in *. subst m.
    unfold slip_recv, set_prev. simpl.
    destruct (Z.eqb_spec c END); [contradiction | reflexivity]. }
  rewrite monitor_serial_cons, E. cbn [fst snd mode Nat.eqb Z.eqb andb app Nat.leb map].
  f_equal. apply IH; [reflexivity | intros H; apply Hn; now right].
Qed.

Lemma esc_no_END (B : list Z) : ~ In END (flat_map esc B).
Proof.
  intros H. apply in_flat_map in H as (b & _ & H). unfold esc in H.
  destruct (Z.eqb_spec b END); [|destruct (Z.eqb_spec b ESC)];
    simpl in H; intuition slip_ne.
Qed.

Lemma monitor_serial_frame (sock : Z) (B : list Z) (s : slip) :
  mode s = 0 -> (length B < size s)%nat ->
  fst (monitor_serial sock (slip_encode B) s) = item_echo (Frame B).
Proof.
  intros Hm Hl. rewrite slip_encode_eq.
  rewrite monitor_serial_cons, slip_recv_open by assumption.
  cbn [fst snd mode Nat.eqb Z.eqb andb app Nat.leb].
  rewrite monitor_serial_app.
  rewrite monitor_serial_packet_mode by (simpl; try apply esc_no_END; lia).
  destruct (slip_feed_payload B (mkslip (buf s) (size s) 0 1 END))
    as (p1 & Hp1 & E1); [simpl; slip_ne | simpl; slip_ne | simpl; lia |].
  cbn [len buf size mode] in E1. rewrite E1. cbn [snd app].
  rewrite monitor_serial_cons, slip_recv_close by (simpl; slip_ne).
  cbn [fst snd mode len monitor_serial Z.eqb andb negb].
  destruct B as [| b B]; reflexivity.
Qed.

(** X4. What [monitor] prints of a serial stream read from serial mode:
    console text (free of 0xC0) is echoed byte for byte, the bytes of a frame
    with a payload are not echoed at all, and an empty frame [C0 C0] echoes
    its closing delimiter. *)
Theorem monitor_stream_echo (sock : Z) (items : list item) (s : slip) :
  mode s = 0 ->
  Forall (fun i => match i with
                   | Noise text => ~ In END text
                   | Frame B => (length B < size s)%nat
                   end) items ->
  fst (monitor_serial sock (concat (map item_bytes items)) s) =
  concat (map item_echo items).
Proof.
  revert s. induction items as [| i items IH]; intros s Hm Hall;
    [reflexivity|].
  inversion Hall as [| ? ? Hi Hrest]; subst.
  cbn [map concat]. rewrite monitor_serial_app. f_equal.
  - destruct i as [text | B]; cbn [item_bytes item_echo].
    + now apply monitor_serial_noise.
    + now apply monitor_serial_frame.
  - destruct i as [text | B]; cbn [item_bytes].
    + destruct (slip_feed_noise text s Hm Hi) as (p & E). rewrite E.
      apply IH; [reflexivity | exact Hrest].
    + rewrite slip_feed_frame by assumption. apply IH; [reflexivity | exact Hrest].
Qed.

(** Witness of [monitor_stream_echo]: a prompt, a frame, an empty frame. *)
Lemma monitor_stream_echo_witness :
  let items := [Noise [62; 32]; Frame [1; 2; 3]; Frame []] in
  mode (slip_init 8) = 0 /\
  fst (monitor_serial 5 (concat (map item_bytes items)) (slip_init 8)) =
  [Putchar 62; Putchar 32; Putchar 192].
Proof.
  intros items. split; [reflexivity|].
  apply (monitor_stream_echo 5 items (slip_init 8)); [reflexivity|].
  repeat constructor; simpl; unfold END; intuition (try lia; try discriminate).
Defined.

End MonitorFacts.

(** *** Facts about checksums and alignment *)

Module ChecksumFacts.
Import Elf Checksum.

Lemma checksum2_lxor (v : Z) (buf : list Z) :
  checksum2 v buf = Z.lxor v (checksum2 0 buf).
Proof.
  unfold checksum2. revert v. induction buf as [| b buf IH]; intros v; simpl.
  - now rewrite Z.lxor_0_r.
  - rewrite (IH (Z.lxor v b)), (IH (Z.lxor 0 b)).
    now rewrite Z.lxor_0_l, Z.lxor_assoc.
Qed.

Lemma checksum2_app (v : Z) (a b : list Z) :
  checksum2 v (a ++ b) = checksum2 (checksum2 v a) b.
Proof. unfold checksum2. apply fold_left_app. Qed.

Lemma lxor_byte (a b : Z) : is_byte a -> is_byte b -> is_byte (Z.lxor a b).
Proof.
  unfold is_byte. intros Ha Hb.
  assert (H0 : 0 <= Z.lxor a b) by (apply Z.lxor_nonneg; lia).
  split; [assumption|].
  destruct (Z.eq_dec (Z.lxor a b) 0) as [->|Hne]; [lia|].
  pose proof (Z.log2_lxor a b ltac:(lia) ltac:(lia)) as Hl.
  assert (La : Z.log2 a < 8).
  { destruct (Z.eq_dec a 0) as [->|]; [simpl; lia|].
    apply (proj1 (Z.log2_lt_pow2 a 8 ltac:(lia))). simpl. lia. }
  assert (Lb : Z.log2 b < 8).
  { destruct (Z.eq_dec b 0) as [->|]; [simpl; lia|].
    apply (proj1 (Z.log2_lt_pow2 b 8 ltac:(lia))). simpl. lia. }
  change 256 with (2 ^ 8).
  apply (proj2 (Z.log2_lt_pow2 (Z.lxor a b) 8 ltac:(lia))). lia.
Qed.

Lemma checksum2_byte (v : Z) (buf : list Z) :
  is_byte v -> Forall is_byte buf -> is_byte (checksum2 v buf).
Proof.
  unfold checksum2. revert v. induction buf as [| b buf IH]; intros v Hv Hb;
    simpl; [assumption|].
  inversion Hb; subst. apply IH; [apply lxor_byte|]; assumption.
Qed.

(** X5. The checksum does not depend on the order of the bytes: two
    buffers that are permutations of each other have the same
    [checksum2], from any start value. *)
Theorem checksum2_permutation (v : Z) (l l' : list Z) :
  Permutation l l' -> checksum2 v l = checksum2 v l'.
Proof.
  intros HP. revert v. induction HP; intros v.
  - reflexivity.
  - unfold checksum2 in *. simpl. apply IHHP.
  - unfold checksum2. simpl. f_equal.
    rewrite !Z.lxor_assoc. f_equal. apply Z.lxor_comm.
  - now rewrite IHHP1.
Qed.

(** Witness of [checksum2_permutation]. *)
Lemma checksum2_permutation_witness :
  Permutation [1; 2; 3] [3; 1; 2] /\
  checksum2 0xef [1; 2; 3] = checksum2 0xef [3; 1; 2].
Proof.
  assert (H : Permutation [1; 2; 3] [3; 1; 2]).
  { apply Permutation_sym. apply (Permutation_cons_app [1; 2] [] 3).
    rewrite app_nil_r. apply Permutation_refl. }
  split; [exact H|]. exact (checksum2_permutation 0xef _ _ H).
Defined.

(** X6. The checksum detects every corruption of a single byte: buffers
    that differ in exactly one position have different checksums. *)
Theorem checksum_single_byte (a b : list Z) (x y : Z) :
  x <> y -> checksum (a ++ x :: b) <> checksum (a ++ y :: b).
Proof.
  intros Hxy. unfold checksum. rewrite !checksum2_app. simpl.
  change (fold_left (fun v b0 => Z.lxor v b0) b ?w) with (checksum2 w b).
  rewrite (checksum2_lxor (Z.lxor _ x)), (checksum2_lxor (Z.lxor _ y)).
  intros H. apply Hxy.
  apply (f_equal (fun t => Z.lxor t (checksum2 0 b))) in H.
  rewrite !Z.lxor_assoc, Z.lxor_nilpotent, !Z.lxor_0_r in H.
  apply (f_equal (Z.lxor (checksum2 239 a))) in H.
  now rewrite <- !Z.lxor_assoc, Z.lxor_nilpotent, !Z.lxor_0_l in H.
Qed.

(** Witness of [checksum_single_byte]. *)
Lemma checksum_single_byte_witness :
  1 <> 2 /\ checksum ([7] ++ 1 :: [9]) <> checksum ([7] ++ 2 :: [9]).
Proof.
  assert (H : 1 <> 2) by lia.
  split; [exact H|]. exact (checksum_single_byte [7] [9] 1 2 H).
Defined.

(** X7. [align_to] rounds up to the next multiple: when [n + to] does not
    exceed 2^64, the result is a multiple of [to], is at least [n] and less
    than [n + to], and is [n] itself when [n] is a multiple already. *)
Theorem align_to_next_multiple (n to : Z) :
  0 <= n -> 0 < to -> n + to <= 2 ^ 64 ->
  align_to n to mod to = 0 /\
  n <= align_to n to < n + to /\
  (n mod to = 0 -> align_to n to = n).
Proof.
  intros Hn Ht Hs. unfold align_to.
  rewrite (Z.mod_small (n + to - 1)) by lia.
  pose proof (Z.div_mod (n + to - 1) to ltac:(lia)) as Hd.
  pose proof (Z.mod_pos_bound (n + to - 1) to Ht) as Hm.
  set (q := (n + to - 1) / to) in *. set (r := (n + to - 1) mod to) in *.
  assert (Hqt : q * to = n + to - 1 - r) by lia.
  clearbody q r. rewrite (Z.mod_small (q * to) (2 ^ 64)) by lia.
  split; [apply Z.mod_mul; lia|]. split; [lia|].
  intros Hz. apply Z.mod_divide in Hz; [|lia]. destruct Hz as [k Hk].
  assert (Hq : q = k) by nia. subst q. lia.
Qed.

(** Witness of [align_to_next_multiple]: the 5-byte segment. *)
Lemma align_to_next_multiple_witness :
  0 <= 5 /\ 0 < 4 /\ 5 + 4 <= 2 ^ 64 /\ align_to 5 4 mod 4 = 0.
Proof.
  assert (H1 : 0 <= 5) by lia. assert (H2 : 0 < 4) by lia.
  assert (H3 : 5 + 4 <= 2 ^ 64) by lia.
  repeat (split; [assumption|]).
  exact (proj1 (align_to_next_multiple 5 4 H1 H2 H3)).
Defined.

End ChecksumFacts.

(** *** Facts about responses and chip selection *)

Module ResponseFacts.
Import Slip Chip Cmd Monitor Response SlipFacts MonitorFacts CmdFacts.

Lemma byte_at_take (l : list Z) (r : nat) (i : Z) :
  0 <= i < Z.of_nat r -> byte_at (take r l) i = byte_at l i.
Proof.
  intros Hi. unfold byte_at. destruct (Z.ltb_spec i 0); [lia|].
  rewrite nth_firstn. destruct (Nat.ltb_spec (Z.to_nat i) r); [reflexivity | lia].
Qed.

Lemma status_at_take (l : list Z) (r : nat) (ofs : Z) :
  0 <= ofs -> ofs + 1 < Z.of_nat r ->
  status_at (take r l) ofs = status_at l ofs.
Proof.
  intros H0 H1. unfold status_at. now rewrite !byte_at_take by lia.
Qed.

Lemma slip_recv_result_le (c : Z) (s : slip) :
  (fst (slip_recv c s) <= len s)%nat.
Proof.
  destruct s as [bf n l m p].
  unfold slip_recv, append, set_prev, set_len, flip. simpl.
  slip_cases; lia.
Qed.

(** The decision of [cmd] on the packet it finds in the buffer is
    [response_status] of that packet. *)
Lemma cmd_decision (chip_id op : Z) (r : nat) (b : list Z) :
  (10 <= r)%nat -> (r <= length b)%nat ->
  response_status chip_id op (take r b) =
  if cmd_accepts op r b then Some (cmd_ecode b (cmd_eofs chip_id r)) else None.
Proof.
  intros Hr Hb. unfold response_status, cmd_accepts, cmd_eofs.
  rewrite length_take, Nat.min_l by assumption.
  rewrite !byte_at_take by lia.
  destruct ((r <? 10)%nat || negb (byte_at b 0 =? 1)
            || negb (byte_at b 1 =? op)); [reflexivity|].
  cbn [negb]. f_equal. rewrite cmd_ecode_status.
  destruct ((chip_id =? 0) || (chip_id =? CHIP_ID_ESP8266));
    apply status_at_take; lia.
Qed.

Lemma response_status_short (chip_id op : Z) (P : list Z) :
  (length P < 10)%nat -> response_status chip_id op P = None.
Proof.
  intros H. unfold response_status.
  destruct (Nat.ltb_spec (length P) 10); [reflexivity | lia].
Qed.

Lemma cmd_scan_first (chip_id op : Z) (bytes : list Z) (s : slip) :
  slip_wf s ->
  fst (cmd_scan chip_id op bytes s) =
  first_status chip_id op (slip_packets bytes s).
Proof.
  revert s. induction bytes as [| c rest IH]; intros s Hwf; [reflexivity|].
  pose proof (slip_recv_result_le c s) as Hle.
  destruct (slip_recv_wf c s Hwf) as [Hwf1 Hsz].
  destruct Hwf as [Hb Hl]. pose proof Hwf1 as [Hb1 _].
  simpl. destruct (slip_recv c s) as [r s1]. cbn [fst snd] in *.
  destruct (Nat.eqb_spec r 0) as [->|Hr0]; [now apply IH|].
  cbn [first_status].
  destruct (Nat.lt_ge_cases r 10) as [Hs|Hs].
  - rewrite response_status_short by (rewrite length_take; lia).
    unfold cmd_accepts. destruct (Nat.ltb_spec r 10); [|lia].
    cbn [orb negb]. now apply IH.
  - rewrite cmd_decision by lia.
    destruct (cmd_accepts op r (buf s1)); cbn [negb]; [reflexivity|].
    now apply IH.
Qed.

(** X8. While it scans the bytes of a read, [cmd] answers with the status
    of the first decoded packet that is a response to the pending opcode
    (at least 10 bytes, starting with 1 and the opcode); every other packet
    is skipped. *)
Theorem cmd_scan_first_response (chip_id op : Z) (bytes : list Z) (s : slip) :
  slip_wf s ->
  fst (cmd_scan chip_id op bytes s) =
  first_status chip_id op (slip_packets bytes s).
Proof. apply cmd_scan_first. Qed.

(** Witness of [cmd_scan_first_response]: a short packet, a response to
    another opcode, then the response to SYNC. *)
Lemma cmd_scan_first_response_witness :
  let bytes := slip_encode [1; 8; 0] ++ slip_encode [1; 9; 4; 0; 0; 0; 0; 0; 0; 0; 0; 0]
               ++ slip_encode [1; 8; 4; 0; 0; 0; 0; 0; 1; 7; 0; 0] in
  slip_wf (slip_init 64) /\
  fst (cmd_scan CHIP_ID_ESP32 8 bytes (slip_init 64)) = Some 7.
Proof.
  intros bytes.
  assert (H : slip_wf (slip_init 64)) by (split; [reflexivity | simpl; lia]).
  split; [exact H|].
  rewrite (cmd_scan_first_response CHIP_ID_ESP32 8 bytes (slip_init 64) H).
  vm_compute. reflexivity.
Defined.

Lemma cmd_scan_app_none (chip_id op : Z) (a b : list Z) (s s1 : slip) :
  cmd_scan chip_id op a s = (None, s1) ->
  cmd_scan chip_id op (a ++ b) s = cmd_scan chip_id op b s1.
Proof.
  revert s. induction a as [| c a IH]; intros s; simpl.
  - intros H. now inversion H.
  - destruct (slip_recv c s) as [r s2].
    destruct (r =? 0)%nat; [apply IH|].
    destruct (negb (cmd_accepts op r (buf s2))); [apply IH | discriminate].
Qed.

Lemma cmd_scan_app_some (chip_id op e : Z) (a b : list Z) (s s1 : slip) :
  cmd_scan chip_id op a s = (Some e, s1) ->
  cmd_scan chip_id op (a ++ b) s = (Some e, s1).
Proof.
  revert s. induction a as [| c a IH]; intros s; simpl; [discriminate|].
  destruct (slip_recv c s) as [r s2].
  destruct (r =? 0)%nat; [apply IH|].
  destruct (negb (cmd_accepts op r (buf s2))); [apply IH | auto].
Qed.

(** X9. A response may arrive in pieces: when the bytes of one read hold no
    response yet, [cmd] goes on with the next read exactly as if both reads
    had come as one. *)
Theorem cmd_loop_split (chip_id op : Z) (a b : list Z) (evs : list io_event)
  (s s1 : slip) :
  a <> [] -> b <> [] ->
  cmd_scan chip_id op a s = (None, s1) ->
  cmd_loop chip_id op (Data a :: Data b :: evs) s =
  cmd_loop chip_id op (Data (a ++ b) :: evs) s.
Proof.
  intros Ha Hb Hs.
  destruct a as [| x a]; [contradiction|]. destruct b as [| y b]; [contradiction|].
  cbn [cmd_loop app]. change (x :: a ++ y :: b) with ((x :: a) ++ y :: b).
  rewrite (cmd_scan_app_none _ _ _ _ _ _ Hs), Hs. reflexivity.
Qed.

(** Witness of [cmd_loop_split]: a SYNC response cut after five bytes. *)
Lemma cmd_loop_split_witness :
  let R := slip_encode [1; 8; 4; 0; 0; 0; 0; 0; 0; 0; 0; 0] in
  take 5 R <> [] /\ drop 5 R <> [] /\
  cmd_loop CHIP_ID_ESP32 8 [Data (take 5 R); Data (drop 5 R)] (slip_init 64) =
  cmd_loop CHIP_ID_ESP32 8 [Data (take 5 R ++ drop 5 R)] (slip_init 64).
Proof.
  intros R.
  assert (H1 : take 5 R <> []) by (vm_compute; discriminate).
  assert (H2 : drop 5 R <> []) by (vm_compute; discriminate).
  split; [exact H1|]. split; [exact H2|].
  apply (cmd_loop_split CHIP_ID_ESP32 8 (take 5 R) (drop 5 R) [] (slip_init 64)
           (snd (cmd_scan CHIP_ID_ESP32 8 (take 5 R) (slip_init 64))) H1 H2).
  vm_compute. reflexivity.
Defined.

(** X10. What follows a response in the same read is lost: once [cmd] has
    found its response it returns, and the remaining bytes of that read are
    neither decoded nor kept for the next command. *)
Theorem cmd_loop_drops_rest (chip_id op e : Z) (a b : list Z)
  (evs : list io_event) (s s1 : slip) :
  cmd_scan chip_id op a s = (Some e, s1) ->
  cmd_loop chip_id op (Data (a ++ b) :: evs) s = Done (e, s1, evs) /\
  cmd_loop chip_id op (Data a :: evs) s = Done (e, s1, evs).
Proof.
  intros Hs. destruct a as [| x a]; [discriminate|].
  split.
  - cbn [cmd_loop app]. change (x :: a ++ b) with ((x :: a) ++ b).
    now rewrite (cmd_scan_app_some _ _ _ _ _ _ _ Hs).
  - cbn [cmd_loop]. now rewrite Hs.
Qed.

(** Witness of [cmd_loop_drops_rest]: a response followed by the start of
    another frame. *)
Lemma cmd_loop_drops_rest_witness :
  let R := slip_encode [1; 8; 4; 0; 0; 0; 0; 0; 0; 0; 0; 0] in
  exists s1,
    cmd_scan CHIP_ID_ESP32 8 R (slip_init 16) = (Some 0, s1) /\
    cmd_loop CHIP_ID_ESP32 8 [Data (R ++ [192; 1; 2])] (slip_init 16)
    = Done (0, s1, []).
Proof.
  intros R. eexists. split; [vm_compute; reflexivity|].
  apply (cmd_loop_drops_rest CHIP_ID_ESP32 8 0 R [192; 1; 2] [] (slip_init 16)).
  vm_compute. reflexivity.
Defined.

Lemma cmd_scan_silent_prefix (chip_id op : Z) (pre rest : list Z) (s : slip)
  (k : nat) :
  fst (slip_feed pre s) = replicate k 0%nat ->
  cmd_scan chip_id op (pre ++ rest) s =
  cmd_scan chip_id op rest (snd (slip_feed pre s)).
Proof.
  revert s k. induction pre as [| c pre IH]; intros s k; [reflexivity|].
  rewrite slip_feed_cons. cbn [fst snd app cmd_scan].
  destruct (slip_recv c s) as [r s1]. cbn [fst snd].
  destruct k as [| k]; [discriminate|]. cbn [replicate].
  intros H. injection H as -> H. cbn [Nat.eqb]. now apply (IH s1 k).
Qed.

(** Console text and a frame up to its closing delimiter. *)
Lemma slip_feed_until_close (noise R : list Z) (s : slip) :
  mode s = 0 -> ~ In END noise -> (length R < size s)%nat ->
  exists p1, p1 <> ESC /\
    slip_feed (noise ++ END :: flat_map esc R) s =
    (replicate (length noise + S (length (flat_map esc R))) 0%nat,
     mkslip (list_inserts 0 R (buf s)) (size s) (length R) 1 p1).
Proof.
  intros Hm Hn Hl.
  destruct (slip_feed_noise noise s Hm Hn) as (p0 & E0).
  destruct (slip_feed_payload R (mkslip (buf s) (size s) 0 1 END))
    as (p1 & Hp1 & E1); [simpl; slip_ne | simpl; slip_ne | simpl; lia |].
  cbn [len buf size mode] in E1.
  exists p1. split; [assumption|].
  rewrite slip_feed_app, E0. cbn [fst snd].
  rewrite slip_feed_cons, slip_recv_open by reflexivity.
  cbn [fst snd buf size]. rewrite E1. cbn [fst snd].
  f_equal. rewrite replicate_add. reflexivity.
Qed.

Lemma byte_at_inserts_0 (R bf : list Z) (i : Z) :
  (length R <= length bf)%nat -> 0 <= i < Z.of_nat (length R) ->
  byte_at (list_inserts 0 R bf) i = byte_at R i.
Proof.
  intros Hl Hi.
  rewrite <- (byte_at_take (list_inserts 0 R bf) (length R)) by assumption.
  now rewrite take_inserts_0.
Qed.

(** The response [R], delivered in one read after console text, is
    accepted. *)
Lemma cmd_response_ok (c : ctx) (op : Z) (b : list Z) (len cs : Z) (w : world)
  (noise R : list Z) (evs : list io_event) :
  slip_wf (ctx_slip c) -> mode (ctx_slip c) = 0 ->
  ~ In END noise ->
  (10 <= length R < size (ctx_slip c))%nat ->
  byte_at R 0 = 1 -> byte_at R 1 = op ->
  rx w = Data (noise ++ slip_encode R) :: evs ->
  cmd c op b len cs w =
  Done (status_at R (if (id (ctx_chip c) =? 0) || (id (ctx_chip c) =? 0xfff0c101)
                     then Z.of_nat (length R) - 2
                     else Z.of_nat (length R) - 4),
        mkctx (mkslip (list_inserts 0 R (buf (ctx_slip c))) (size (ctx_slip c))
                      0 0 END)
              (ctx_chip c),
        mkworld (tx w ++ slip_encode (cmd_frame op b len cs)) evs).
Proof.
  intros [Hb Hlen] Hm Hn [HR1 HR2] H0 H1 Hrx.
  unfold cmd. rewrite Hrx. set (s := ctx_slip c) in *.
  destruct (slip_feed_until_close noise R s Hm Hn HR2) as (p1 & Hp1 & E).
  assert (Hbytes : noise ++ slip_encode R
                   = (noise ++ END :: flat_map esc R) ++ [END]).
  { rewrite slip_encode_eq, <- app_assoc. reflexivity. }
  assert (Hscan : cmd_scan (id (ctx_chip c)) op (noise ++ slip_encode R) s =
    (Some (status_at R (if (id (ctx_chip c) =? 0) || (id (ctx_chip c) =? 0xfff0c101)
                        then Z.of_nat (length R) - 2
                        else Z.of_nat (length R) - 4)),
     mkslip (list_inserts 0 R (buf s)) (size s) 0 0 END)).
  { rewrite Hbytes.
    rewrite (cmd_scan_silent_prefix _ _ _ _ _ _ (f_equal fst E)), E.
    cbn [snd].
    set (s2 := mkslip _ _ (length R) 1 p1).
    assert (Ec : slip_recv END s2 =
                 (length R, mkslip (list_inserts 0 R (buf s)) (size s) 0 0 END)).
    { rewrite slip_recv_close by (subst s2; simpl; slip_ne). reflexivity. }
    rewrite cmd_scan_accept; rewrite Ec; cbn [fst snd buf].
    - rewrite cmd_ecode_status. unfold cmd_eofs.
      change CHIP_ID_ESP8266 with 0xfff0c101.
      f_equal. f_equal.
      rewrite <- (status_at_take _ (length R)), take_inserts_0 by
        (destruct ((id (ctx_chip c) =? 0) || (id (ctx_chip c) =? 0xfff0c101)); lia).
      reflexivity.
    - unfold cmd_accepts. rewrite !byte_at_inserts_0 by lia.
      rewrite H0, H1, !Z.eqb_refl.
      destruct (Nat.ltb_spec (length R) 10); [lia | reflexivity]. }
  destruct (noise ++ slip_encode R) as [| x bytes] eqn:Eb.
  { rewrite slip_encode_eq in Eb. destruct noise; discriminate. }
  cbn [cmd_loop]. rewrite Hscan.
  now rewrite slip_send_emit, slip_encode_eq.
Qed.

(** X11. A response delivered in one read is accepted whatever console
    text precedes it: when the session is in serial mode and the device
    sends text free of 0xC0 followed by the frame of a response [R] to the
    pending opcode (10 bytes at least, fewer than the buffer holds), [cmd]
    returns the status in the tail of [R], leaves [R] at the start of the
    SLIP buffer, has written the framed request to the line and has consumed
    that one read. *)
Theorem cmd_accepts_response (c : ctx) (op : Z) (b : list Z) (len cs : Z)
  (w : world) (noise R : list Z) (evs : list io_event) :
  slip_wf (ctx_slip c) -> mode (ctx_slip c) = 0 ->
  ~ In END noise ->
  (10 <= length R < size (ctx_slip c))%nat ->
  byte_at R 0 = 1 -> byte_at R 1 = op ->
  rx w = Data (noise ++ slip_encode R) :: evs ->
  exists c1,
    cmd c op b len cs w =
    Done (status_at R (if (id (ctx_chip c) =? 0) || (id (ctx_chip c) =? 0xfff0c101)
                       then Z.of_nat (length R) - 2
                       else Z.of_nat (length R) - 4),
          c1,
          mkworld (tx w ++ slip_encode (cmd_frame op b len cs)) evs) /\
    take (length R) (buf (ctx_slip c1)) = R /\
    mode (ctx_slip c1) = 0 /\ ctx_chip c1 = ctx_chip c.
Proof.
  intros Hwf Hm Hn HR H0 H1 Hrx.
  eexists. split; [now apply (cmd_response_ok c op b len cs w noise R evs)|].
  cbn [ctx_slip ctx_chip buf mode]. split; [|split; reflexivity].
  apply take_inserts_0. destruct Hwf. lia.
Qed.

(** Witness of [cmd_accepts_response]: an ESP32 answers SYNC after a line
    of boot text. *)
Lemma cmd_accepts_response_witness :
  let c := mkctx (slip_init 64) (mkchip CHIP_ID_ESP32 "ESP32" 4096) in
  let R := [1; 8; 4; 0; 0; 0; 0; 0; 0; 0; 0; 0] in
  let w := mkworld [] [Data ([98; 111; 111; 116; 10] ++ slip_encode R)] in
  slip_wf (ctx_slip c) /\ rx w = [Data ([98; 111; 111; 116; 10] ++ slip_encode R)] /\
  exists c1,
    cmd c 8 sync_data 36 0 w =
    Done (0, c1, mkworld (slip_encode (cmd_frame 8 sync_data 36 0)) []) /\
    take (length R) (buf (ctx_slip c1)) = R.
Proof.
  intros c R w.
  assert (Hwf : slip_wf (ctx_slip c)) by (split; [reflexivity | simpl; lia]).
  split; [exact Hwf|]. split; [reflexivity|].
  destruct (cmd_accepts_response c 8 sync_data 36 0 w [98; 111; 111; 116; 10] R []
              Hwf eq_refl) as (c1 & E & T & _).
  - simpl. unfold END. intuition lia.
  - simpl. lia.
  - reflexivity.
  - reflexivity.
  - reflexivity.
  - exists c1. split; [exact E | exact T].
Defined.

(** X12. [read32] returns the word at offset 4 of the response: when the
    device answers READ_REG with a response [R] whose status is 0, the value
    stored is the little-endian word made of the bytes 4..7 of [R]. *)
Theorem read32_value (c : ctx) (addr : Z) (w : world) (noise R : list Z)
  (evs : list io_event) :
  slip_wf (ctx_slip c) -> mode (ctx_slip c) = 0 ->
  ~ In END noise ->
  (10 <= length R < size (ctx_slip c))%nat ->
  byte_at R 0 = 1 -> byte_at R 1 = 10 ->
  status_at R (if (id (ctx_chip c) =? 0) || (id (ctx_chip c) =? 0xfff0c101)
               then Z.of_nat (length R) - 2
               else Z.of_nat (length R) - 4) = 0 ->
  rx w = Data (noise ++ slip_encode R) :: evs ->
  exists c1 w1,
    read32 c addr w = Done (0, Some (rd32 R 4), c1, w1) /\ rx w1 = evs.
Proof.
  intros Hwf Hm Hn HR H0 H1 Hst Hrx. unfold read32.
  rewrite (cmd_response_ok c 10 (le32 addr) 4 0 w noise R evs) by assumption.
  rewrite Hst. cbn [Z.eqb ctx_slip buf].
  assert (Ev : rd32 (list_inserts 0 R (buf (ctx_slip c))) 4 = rd32 R 4).
  { destruct Hwf as [Hb _]. unfold rd32.
    now rewrite !byte_at_inserts_0 by lia. }
  rewrite Ev. eexists. eexists. split; reflexivity.
Qed.

(** Witness of [read32_value]: the ROM of an ESP32-S2 answers with its id. *)
Lemma read32_value_witness :
  let c := mkctx (slip_init 64) (mkchip 0 "Unknown" 0) in
  let R := [1; 10; 4; 0; 0xc6; 0x07; 0; 0; 0; 0; 0; 0] in
  let w := mkworld [] [Data (slip_encode R)] in
  slip_wf (ctx_slip c) /\
  exists c1 w1,
    read32 c 0x40001000 w = Done (0, Some 0x7c6, c1, w1) /\ rx w1 = [].
Proof.
  intros c R w.
  assert (Hwf : slip_wf (ctx_slip c)) by (split; [reflexivity | simpl; lia]).
  split; [exact Hwf|].
  apply (read32_value c 0x40001000 w [] R [] Hwf eq_refl);
    try reflexivity; simpl; try lia; tauto.
Defined.

Lemma cmd_scan_wf (chip_id op : Z) (bytes : list Z) (s : slip) :
  slip_wf s ->
  slip_wf (snd (cmd_scan chip_id op bytes s)) /\
  size (snd (cmd_scan chip_id op bytes s)) = size s.
Proof.
  revert s. induction bytes as [| c rest IH]; intros s Hwf; [now split|].
  destruct (slip_recv_wf c s Hwf) as [Hwf1 Hsz].
  simpl. destruct (slip_recv c s) as [r s1]. cbn [snd] in *.
  destruct (IH s1 Hwf1) as [I1 I2].
  destruct (r =? 0)%nat; [split; [assumption | congruence]|].
  destruct (negb (cmd_accepts op r (buf s1)));
    [split; [assumption | congruence] | split; assumption].
Qed.

Lemma cmd_loop_keeps (chip_id op e : Z) (evs evs1 : list io_event) (s s1 : slip) :
  cmd_loop chip_id op evs s = Done (e, s1, evs1) ->
  (exists k, evs1 = drop k evs) /\
  (slip_wf s -> slip_wf s1 /\ size s1 = size s).
Proof.
  revert s. induction evs as [| ev evs IH]; intros s; simpl.
  - intros H. inversion H; subst. split; [now exists 0%nat | auto].
  - destruct ev as [| | bytes].
    + intros H. inversion H; subst. split; [now exists 1%nat | auto].
    + discriminate.
    + destruct bytes as [| b bs]; [discriminate|].
      pose proof (cmd_scan_wf chip_id op (b :: bs) s) as Hw.
      destruct (cmd_scan chip_id op (b :: bs) s) as [[e'|] s2]; cbn [snd] in Hw.
      * intros H. inversion H; subst. split; [now exists 1%nat | exact Hw].
      * intros H. destruct (IH s2 H) as [[k Hk] Hw2]. split.
        -- exists (S k). exact Hk.
        -- intros Hwf. destruct (Hw Hwf) as [W1 S1].
           destruct (Hw2 W1) as [W2 S2]. split; [assumption | congruence].
Qed.

(** X13. What [cmd] leaves of the session: when it returns, the chip
    descriptor is the one it started with, the line carries the framed
    request after what was written before, the pending reads are a suffix of
    those it started with, and a well-formed SLIP state is still well-formed
    with the same capacity. *)
Theorem cmd_keeps_session (c : ctx) (op : Z) (b : list Z) (len cs : Z)
  (w : world) (e : Z) (c1 : ctx) (w1 : world) :
  cmd c op b len cs w = Done (e, c1, w1) ->
  ctx_chip c1 = ctx_chip c /\
  tx w1 = tx w ++ slip_encode (cmd_frame op b len cs) /\
  (exists k, rx w1 = drop k (rx w)) /\
  (slip_wf (ctx_slip c) ->
   slip_wf (ctx_slip c1) /\ size (ctx_slip c1) = size (ctx_slip c)).
Proof.
  unfold cmd.
  destruct (cmd_loop _ _ _ _) as [[[e' s1] evs]|f] eqn:El; [|discriminate].
  intros H. inversion H; subst. cbn [ctx_chip ctx_slip tx rx].
  destruct (cmd_loop_keeps _ _ _ _ _ _ _ El) as [Hk Hw].
  split; [reflexivity|]. split; [|split; assumption].
  now rewrite slip_send_emit, slip_encode_eq.
Qed.

(** Witness of [cmd_keeps_session]: a SYNC that times out. *)
Lemma cmd_keeps_session_witness :
  let c := mkctx (slip_init 64) (mkchip 0 "Unknown" 0) in
  let w := mkworld [] [NotReady; Data [1; 2; 3]] in
  cmd c 8 sync_data 36 0 w =
    Done (1, c, mkworld (slip_encode (cmd_frame 8 sync_data 36 0)) [Data [1; 2; 3]])
  /\ exists k, [Data [1; 2; 3]] = drop k (rx w).
Proof.
  intros c w.
  assert (E : cmd c 8 sync_data 36 0 w =
    Done (1, c, mkworld (slip_encode (cmd_frame 8 sync_data 36 0)) [Data [1; 2; 3]]))
    by reflexivity.
  split; [exact E|].
  exact (proj1 (proj2 (proj2 (cmd_keeps_session c 8 sync_data 36 0 w _ _ _ E)))).
Defined.

Lemma chip_match_find (chips : list chip) (cur k : chip) (x : Z) :
  find (fun j => id j =? x) chips = Some k ->
  chip_match chips cur x =
  if negb (id cur =? 0) && negb (id cur =? x)
  then Exit (ChipMismatch (name cur) (name k)) else Done k.
Proof.
  induction chips as [| j chips IH]; simpl; [discriminate|].
  destruct (id j =? x); [|exact IH].
  intros H. now inversion H.
Qed.

Lemma find_by_id (chips : list chip) (k : chip) :
  NoDup (map id chips) -> In k chips ->
  find (fun j => id j =? id k) chips = Some k.
Proof.
  induction chips as [| j chips IH]; simpl; [contradiction|].
  intros Hnd Hin. apply NoDup_cons in Hnd as [Hj Hnd].
  destruct Hin as [->|Hin]; [now rewrite Z.eqb_refl|].
  destruct (Z.eqb_spec (id j) (id k)) as [E|_]; [|now apply IH].
  exfalso. apply Hj. rewrite E. apply list_elem_of_In. now apply in_map.
Qed.

Lemma known_ids_distinct : NoDup (map id s_known_chips).
Proof.
  apply NoDup_ListNoDup.
  repeat (constructor; [simpl; unfold CHIP_ID_ESP8266, CHIP_ID_ESP32,
    CHIP_ID_ESP32_C3_ECO_1_2, CHIP_ID_ESP32_C3_ECO3, CHIP_ID_ESP32_S2,
    CHIP_ID_ESP32_S3_BETA2, CHIP_ID_ESP32_S3_BETA3, CHIP_ID_ESP32_C6_BETA;
    intuition lia|]).
  constructor.
Qed.

(** X14. Detection selects the registry entry of the id it reads: when the
    register read succeeds with the id of a registry entry [k], [chip_detect]
    installs exactly [k] if the session's chip id is 0 or that id, and ends
    with the mismatch failure naming both chips otherwise. *)
Theorem chip_detect_known (c : ctx) (w : world) (k : chip) (c1 : ctx)
  (w1 : world) :
  In k s_known_chips ->
  read32 c 0x40001000 w = Done (0, Some (id k), c1, w1) ->
  chip_detect c w =
  if (id (ctx_chip c) =? 0) || (id (ctx_chip c) =? id k)
  then Done (mkctx (ctx_slip c1) k, w1)
  else Exit (ChipMismatch (name (ctx_chip c)) (name k)).
Proof.
  intros Hin Hr. unfold chip_detect. rewrite Hr.
  assert (Hc : ctx_chip c1 = ctx_chip c).
  { unfold read32, cmd in Hr.
    destruct (cmd_loop _ _ _ _) as [[[e s1] evs]|f]; [|discriminate].
    now inversion Hr. }
  rewrite (chip_match_find _ _ k) by (apply find_by_id;
    [apply known_ids_distinct | assumption]).
  rewrite Hc.
  destruct (id (ctx_chip c) =? 0); [reflexivity|].
  destruct (id (ctx_chip c) =? id k); reflexivity.
Qed.

(** Witness of [chip_detect_known]: an ESP32-S2 detected while an ESP32 was
    named by the user. *)
Lemma chip_detect_known_witness :
  let c := mkctx (slip_init 64) (mkchip CHIP_ID_ESP32 "ESP32" 4096) in
  let k := mkchip CHIP_ID_ESP32_S2 "ESP32-S2" 4096 in
  let w := mkworld [] [Data (slip_encode [1; 10; 4; 0; 0xc6; 0x07; 0; 0; 0; 0; 0; 0])] in
  In k s_known_chips /\
  chip_detect c w = Exit (ChipMismatch "ESP32" "ESP32-S2").
Proof.
  intros c k w.
  assert (Hin : In k s_known_chips) by (simpl; tauto).
  split; [exact Hin|].
  destruct (read32 c 0x40001000 w) as [[[[ok v] c1] w1]|f] eqn:Hr;
    [|vm_compute in Hr; discriminate].
  assert (Hok : ok = 0 /\ v = Some (id k)).
  { vm_compute in Hr. inversion Hr. split; reflexivity. }
  destruct Hok as [-> ->].
  rewrite (chip_detect_known c w k c1 w1 Hin Hr). reflexivity.
Defined.

Lemma strcasecmp_eq_lower (a b : string) :
  strcasecmp_eq a b = true <-> lower a = lower b.
Proof.
  revert b. induction a as [| x a IH]; intros [| y b]; simpl;
    try (split; [reflexivity || discriminate | reflexivity || discriminate]).
  rewrite andb_true_iff, IH. split.
  - intros [H1 H2]. apply Ascii.eqb_eq in H1. congruence.
  - intros H. inversion H. split; [apply Ascii.eqb_refl | reflexivity].
Qed.

Lemma chip_by_name_in (chips : list chip) (k : chip) (nm : string) :
  NoDup (map (fun j => lower (name j)) chips) -> In k chips ->
  lower (name k) = lower nm ->
  chip_by_name chips nm = Some k.
Proof.
  induction chips as [| j chips IH]; simpl; [contradiction|].
  intros Hnd Hin Hnm. apply NoDup_cons in Hnd as [Hj Hnd].
  destruct (strcasecmp_eq (name j) nm) eqn:E.
  - apply strcasecmp_eq_lower in E. destruct Hin as [->|Hin]; [reflexivity|].
    exfalso. apply Hj. rewrite E, <- Hnm. apply list_elem_of_In.
    now apply (in_map (fun j => lower (name j))).
  - destruct Hin as [->|Hin]; [|now apply IH].
    apply strcasecmp_eq_lower in Hnm. congruence.
Qed.

Lemma chip_by_name_none (chips : list chip) (nm : string) :
  chip_by_name chips nm = None <->
  forall k, In k chips -> lower (name k) <> lower nm.
Proof.
  induction chips as [| j chips IH]; simpl.
  - split; [intros _ k [] | reflexivity].
  - destruct (strcasecmp_eq (name j) nm) eqn:E.
    + split; [discriminate|]. intros H. exfalso.
      apply (H j); [now left | now apply strcasecmp_eq_lower].
    + rewrite IH. split.
      * intros H k [<-|Hin]; [|now apply H].
        intros Hl. apply strcasecmp_eq_lower in Hl. congruence.
      * intros H k Hin. apply H. now right.
Qed.

Lemma known_names_distinct :
  NoDup (map (fun j => lower (name j)) s_known_chips).
Proof.
  apply NoDup_ListNoDup.
  repeat (constructor; [simpl; intuition discriminate|]).
  constructor.
Qed.

(** X15. [-chip NAME] finds a chip whatever the case of the letters: a
    name that agrees with the name of a registry entry up to case selects
    exactly that entry, and a name that agrees with none is refused. *)
Theorem set_chip_from_string_case (c : ctx) (nm : string) :
  (forall k, In k s_known_chips -> lower (name k) = lower nm ->
     set_chip_from_string c nm = Some (mkctx (ctx_slip c) k))
  /\ (set_chip_from_string c nm = None <->
      forall k, In k s_known_chips -> lower (name k) <> lower nm).
Proof.
  unfold set_chip_from_string. split.
  - intros k Hin Hnm.
    now rewrite (chip_by_name_in _ k nm known_names_distinct Hin Hnm).
  - rewrite <- chip_by_name_none.
    destruct (chip_by_name s_known_chips nm); split; congruence.
Qed.

(** Witness of [set_chip_from_string_case]: [-chip esp32-s2]. *)
Lemma set_chip_from_string_case_witness :
  let k := mkchip CHIP_ID_ESP32_S2 "ESP32-S2" 4096 in
  let c := mkctx (slip_init 64) (mkchip 0 "Unknown" 0) in
  In k s_known_chips /\ lower (name k) = lower "esp32-s2" /\
  set_chip_from_string c "esp32-s2" = Some (mkctx (slip_init 64) k).
Proof.
  intros k c.
  assert (Hin : In k s_known_chips) by (simpl; tauto).
  assert (Hl : lower (name k) = lower "esp32-s2") by reflexivity.
  split; [exact Hin|]. split; [exact Hl|].
  exact (proj1 (set_chip_from_string_case c "esp32-s2") k Hin Hl).
Defined.

End ResponseFacts.


(** *** Facts about [flashbin] *)

Module FlashDataFacts.
Import Slip Chip Cmd Flash Checksum FlashData SlipFacts CmdFacts.

Lemma cmd_done (c c1 : ctx) (op e : Z) (b : list Z) (len cs : Z) (w w1 : world) :
  cmd c op b len cs w = Done (e, c1, w1) ->
  ctx_chip c1 = ctx_chip c /\
  tx w1 = tx w ++ slip_encode (cmd_frame op b len cs).
Proof.
  unfold cmd.
  destruct (cmd_loop _ _ _ _) as [[[e' s1] evs]|f]; [|discriminate].
  intros H. inversion H; subst. cbn [ctx_chip tx].
  split; [reflexivity|]. now rewrite slip_send_emit, slip_encode_eq.
Qed.

Lemma take_insert_any (l : list Z) (n i : nat) (x : Z) :
  take n (<[i:=x]> l) = <[i:=x]> (take n l).
Proof.
  destruct (Nat.lt_ge_cases i n) as [H|H].
  - now apply take_insert_lt.
  - rewrite take_insert_ge by assumption.
    symmetry. apply list_insert_ge. rewrite length_take. lia.
Qed.

Lemma take_patch_body (k : chip) (fp off seq : Z) (body : list Z) (n : nat) :
  take n (patch_body k fp off seq body) = patch_body k fp off seq (take n body).
Proof.
  unfold patch_body.
  destruct ((seq =? 0) && (off =? bla k)); [|reflexivity].
  destruct (negb (fp =? 0)); destruct (id k =? CHIP_ID_ESP32_C3_ECO3);
    destruct (id k =? CHIP_ID_ESP32_C3_ECO_1_2);
    destruct (id k =? CHIP_ID_ESP32_S2);
    now rewrite ?take_insert_any.
Qed.

Lemma length_patch_body (k : chip) (fp off seq : Z) (body : list Z) :
  length (patch_body k fp off seq body) = length body.
Proof.
  unfold patch_body.
  destruct ((seq =? 0) && (off =? bla k)); [|reflexivity].
  destruct (negb (fp =? 0)); destruct (id k =? CHIP_ID_ESP32_C3_ECO3);
    destruct (id k =? CHIP_ID_ESP32_C3_ECO_1_2);
    destruct (id k =? CHIP_ID_ESP32_S2);
    now rewrite ?length_insert.
Qed.

Lemma flash_patch_app (k : chip) (fp off seq : Z) (pre body : list Z) :
  length pre = 16%nat ->
  flash_patch k fp off seq (pre ++ body) = pre ++ patch_body k fp off seq body.
Proof.
  intros Hp. unfold flash_patch, patch_body.
  destruct ((seq =? 0) && (off =? bla k)); [|reflexivity].
  assert (I : forall (i : nat) x l, (16 <= i)%nat ->
            <[i:=x]> (pre ++ l) = pre ++ <[(i - 16)%nat:=x]> l).
  { intros i x l Hi. rewrite insert_app_r_alt by lia. now rewrite Hp. }
  destruct (negb (fp =? 0)); destruct (id k =? CHIP_ID_ESP32_C3_ECO3);
    destruct (id k =? CHIP_ID_ESP32_C3_ECO_1_2);
    destruct (id k =? CHIP_ID_ESP32_S2);
    rewrite ?I by lia; reflexivity.
Qed.

Lemma flash_block_shape (k : chip) (fp off seq : Z) (chunk buf : list Z) :
  buf_shape buf -> (length chunk <= 4096)%nat ->
  exists body',
    flash_block k fp off seq chunk buf =
      (le32 (Z.of_nat (length chunk)) ++ le32 seq) ++ replicate 8 0 ++ body' /\
    length body' = 4096%nat /\
    take (length chunk) body' = patch_body k fp off seq chunk.
Proof.
  intros (pre & body & -> & Hp & Hb) Hc.
  exists (patch_body k fp off seq (list_inserts 0 chunk body)).
  split; [|split].
  - unfold flash_block.
    assert (E1 : list_inserts 16 chunk (pre ++ replicate 8 0 ++ body)
                 = (pre ++ replicate 8 0) ++ list_inserts 0 chunk body).
    { rewrite app_assoc.
      replace 16%nat with (length (pre ++ replicate 8 0%Z) + 0)%nat
        by (rewrite length_app, Hp; reflexivity).
      apply list_inserts_app_r. }
    rewrite E1, flash_patch_app by (rewrite length_app, Hp; reflexivity).
    set (body' := patch_body _ _ _ _ _).
    destruct pre as [| a0 [| a1 [| a2 [| a3 [| a4 [| a5 [| a6 [| a7 [|]]]]]]]]];
      try discriminate.
    reflexivity.
  - now rewrite length_patch_body, length_inserts.
  - rewrite take_patch_body. f_equal. apply take_inserts_0. lia.
Qed.

Lemma flash_block_frame (k : chip) (fp off seq : Z) (chunk buf : list Z) :
  buf_shape buf -> (length chunk <= 4096)%nat ->
  buf_shape (flash_block k fp off seq chunk buf) /\
  cmd_frame 3 (flash_block k fp off seq chunk buf)
    ((16 + Z.of_nat (length chunk)) mod 2 ^ 16)
    (checksum (take (Z.to_nat (Z.of_nat (length chunk)))
                    (drop 16 (flash_block k fp off seq chunk buf))))
  = data_frame k fp off seq chunk.
Proof.
  intros Hs Hc.
  destruct (flash_block_shape k fp off seq chunk buf Hs Hc)
    as (body' & E & Hb & Ht).
  rewrite E. split.
  - exists (le32 (Z.of_nat (length chunk)) ++ le32 seq), body'.
    split; [reflexivity|]. split; [reflexivity | assumption].
  - rewrite Nat2Z.id, Z.mod_small by lia.
    assert (Ed : drop 16 ((le32 (Z.of_nat (length chunk)) ++ le32 seq)
                          ++ replicate 8 0 ++ body') = body') by reflexivity.
    rewrite Ed, Ht. unfold cmd_frame, data_frame.
    replace (Z.to_nat (16 + Z.of_nat (length chunk)))
      with (16 + length chunk)%nat by lia.
    assert (Et : take (16 + length chunk)
                   ((le32 (Z.of_nat (length chunk)) ++ le32 seq)
                    ++ replicate 8 0 ++ body')
                 = le32 (Z.of_nat (length chunk)) ++ le32 seq ++ replicate 8 0
                   ++ take (length chunk) body') by reflexivity.
    rewrite Et, Ht. reflexivity.
Qed.

Lemma flash_frames_data (k : chip) (fp off : Z) (blocks : list (list Z)) :
  Forall (fun b => (length b <= 4096)%nat) blocks ->
  forall seq buf, buf_shape buf ->
  flash_frames k fp off seq blocks buf = data_frames k fp off seq blocks.
Proof.
  induction 1 as [| chunk rest Hc Hrest IH]; intros seq buf Hs; [reflexivity|].
  cbn [flash_frames data_frames].
  destruct (flash_block_frame k fp off seq chunk buf Hs Hc) as [Hs' Ef].
  rewrite Ef. f_equal. now apply IH.
Qed.

Lemma fread_blocks_spec (fuel : nat) (file : list Z) :
  (length file <= fuel)%nat ->
  concat (fread_blocks fuel file) = file /\
  Forall (fun b => (1 <= length b <= 4096)%nat) (fread_blocks fuel file) /\
  Z.of_nat (length (fread_blocks fuel file))
  = (Z.of_nat (length file) + 4095) / 4096.
Proof.
  revert file. induction fuel as [| fuel IH]; intros file Hl.
  - destruct file; [|simpl in Hl; lia]. repeat split; constructor.
  - cbn [fread_blocks].
    destruct (take 4096 file) as [| x chunk] eqn:Et.
    + assert (file = []) as ->.
      { destruct file; [reflexivity | discriminate]. }
      repeat split; constructor.
    + assert (Hn : file <> []) by (intros ->; discriminate).
      assert (Hlen : (1 <= length file)%nat)
        by (destruct file; [contradiction | simpl; lia]).
      destruct (IH (drop 4096 file)) as (I1 & I2 & I3);
        [rewrite length_drop; lia|].
      assert (Hc : length (x :: chunk) = Nat.min 4096 (length file))
        by (rewrite <- Et; apply length_take).
      split; [|split].
      * cbn [concat]. rewrite I1, <- Et. apply take_drop.
      * constructor; [lia | assumption].
      * cbn [length]. rewrite Nat2Z.inj_succ, I3, length_drop.
        destruct (Nat.le_gt_cases (length file) 4096) as [Hle|Hgt].
        -- replace (length file - 4096)%nat with 0%nat by lia.
           Z.div_mod_to_equations. lia.
        -- rewrite Nat2Z.inj_sub by lia.
           Z.div_mod_to_equations. lia.
Qed.

Lemma flash_loop_frames (fp off : Z) (fuel : nat) :
  forall file seq buf c w c1 w1,
    flash_data_loop fuel fp off file seq buf c w = FlashOk c1 w1 ->
    ctx_chip c1 = ctx_chip c /\
    tx w1 = tx w ++ concat (map slip_encode
              (flash_frames (ctx_chip c) fp off seq (fread_blocks fuel file) buf)).
Proof.
  induction fuel as [| fuel IH]; intros file seq buf c w c1 w1; [discriminate|].
  cbn [flash_data_loop fread_blocks].
  destruct (take 4096 file) as [| x chunk] eqn:Et.
  - intros H. inversion H; subst. split; [reflexivity|].
    now rewrite app_nil_r.
  - set (blk := flash_block _ _ _ _ _ _).
    destruct (cmd c 3 blk _ _ w) as [[[e c2] w2]|f] eqn:Ec; [|discriminate].
    destruct (e =? 0); [|discriminate].
    intros H. apply IH in H as [H1 H2].
    apply cmd_done in Ec as [C1 C2].
    split; [congruence|].
    rewrite H2, C2, C1. cbn [flash_frames map concat].
    now rewrite <- app_assoc.
Qed.

Lemma flash_loop_fuel (fp off : Z) (fuel : nat) :
  forall file seq buf c w,
    (length file < fuel)%nat ->
    flash_data_loop fuel fp off file seq buf c w <> FlashOutOfFuel.
Proof.
  induction fuel as [| fuel IH]; intros file seq buf c w Hl; [lia|].
  cbn [flash_data_loop].
  destruct (take 4096 file) as [| x chunk] eqn:Et; [discriminate|].
  destruct (cmd _ _ _ _ _ _) as [[[e c2] w2]|f]; [|discriminate].
  destruct (e =? 0); [|discriminate].
  apply IH. rewrite length_drop.
  destruct file; [discriminate | simpl in *; lia].
Qed.

Lemma buf_shape_init : buf_shape (replicate (16 + 4096) 0).
Proof.
  exists (replicate 8 0), (replicate 4096 0).
  split; [|split; apply length_replicate].
  now rewrite <- !replicate_add.
Qed.

(** What a successful [flashbin] has written. *)
Lemma flashbin_ok (c c1 : ctx) (fp off : Z) (file : list Z) (w w1 : world) :
  flashbin c fp off file w = FlashOk c1 w1 ->
  tx w1 = tx w
    ++ slip_encode (flash_begin_frame (id (ctx_chip c))
                      (Z.of_nat (length file)) off)
    ++ concat (map slip_encode
         (data_frames (ctx_chip c) fp off 0 (fread_blocks (S (length file)) file))).
Proof.
  unfold flashbin.
  destruct (flash_begin _ _ _ _) as [[c0 w0]|f] eqn:Eb; [|discriminate].
  intros H. apply flash_loop_frames in H as [_ H].
  assert (Hc : ctx_chip c0 = ctx_chip c).
  { unfold flash_begin in Eb.
    destruct (cmd _ _ _ _ _ _) as [[[e c2] w2]|f] eqn:Ec; [|discriminate].
    destruct (e =? 0); [|discriminate]. inversion Eb; subst.
    now apply cmd_done in Ec as [C1 _]. }
  rewrite H, (FlashFacts.flash_begin_tx _ _ _ _ _ _ Eb), Hc, <- app_assoc.
  f_equal. f_equal. f_equal. f_equal.
  apply flash_frames_data; [|apply buf_shape_init].
  destruct (fread_blocks_spec (S (length file)) file ltac:(lia)) as (_ & F & _).
  eapply Forall_impl; [exact F|]. simpl. intros b Hb. lia.
Qed.

Lemma patch_body_lookup (k : chip) (fp off seq : Z) (body : list Z) (j : nat) :
  j <> 2%nat -> j <> 3%nat -> j <> 8%nat -> j <> 12%nat ->
  patch_body k fp off seq body !! j = body !! j.
Proof.
  intros H2 H3 H8 H12. unfold patch_body.
  destruct ((seq =? 0) && (off =? bla k)); [|reflexivity].
  destruct (negb (fp =? 0)); destruct (id k =? CHIP_ID_ESP32_C3_ECO3);
    destruct (id k =? CHIP_ID_ESP32_C3_ECO_1_2);
    destruct (id k =? CHIP_ID_ESP32_S2);
    now rewrite ?list_lookup_insert_ne by lia.
Qed.

Lemma patch_body_off (k : chip) (fp off seq : Z) (body : list Z) :
  seq <> 0 \/ off <> bla k -> patch_body k fp off seq body = body.
Proof.
  intros H. unfold patch_body.
  destruct (Z.eqb_spec seq 0); destruct (Z.eqb_spec off (bla k));
    try reflexivity. lia.
Qed.

Lemma frame_payload_data (k : chip) (fp off seq : Z) (chunk : list Z) :
  frame_payload (data_frame k fp off seq chunk) = patch_body k fp off seq chunk.
Proof. reflexivity. Qed.

Lemma data_frames_payload_rest (k : chip) (fp off : Z) (blocks : list (list Z)) :
  forall seq, seq <> 0 \/ off <> bla k -> (0 <= seq \/ off <> bla k) ->
  map frame_payload (data_frames k fp off seq blocks) = blocks.
Proof.
  induction blocks as [| chunk rest IH]; intros seq H H'; [reflexivity|].
  cbn [data_frames map]. rewrite frame_payload_data, patch_body_off by assumption.
  f_equal. apply IH; lia.
Qed.

Lemma length_data_frames (k : chip) (fp off : Z) (blocks : list (list Z)) :
  forall seq, length (data_frames k fp off seq blocks) = length blocks.
Proof.
  induction blocks as [| chunk rest IH]; intros seq; [reflexivity|].
  cbn [data_frames length]. now rewrite IH.
Qed.

(** X16. What a successful [flashbin] has put on the line: the framed
    FLASH_BEGIN request, then one framed FLASH_DATA request for every block of
    the file, in order.  The blocks partition the file into pieces of 4096
    bytes (the last one may be shorter); the request for block number [i]
    carries the payload length, [i], eight zero bytes and the payload, and
    its header carries the length [16 + n] and the checksum of the payload
    as sent. *)
Theorem flashbin_wire (c c1 : ctx) (fp off : Z) (file : list Z) (w w1 : world) :
  flashbin c fp off file w = FlashOk c1 w1 ->
  exists blocks,
    concat blocks = file /\
    Forall (fun b => (1 <= length b <= 4096)%nat) blocks /\
    tx w1 = tx w
      ++ slip_encode (flash_begin_frame (id (ctx_chip c))
                        (Z.of_nat (length file)) off)
      ++ concat (map slip_encode (data_frames (ctx_chip c) fp off 0 blocks)).
Proof.
  intros H. exists (fread_blocks (S (length file)) file).
  destruct (fread_blocks_spec (S (length file)) file ltac:(lia)) as (F1 & F2 & _).
  split; [assumption|]. split; [assumption|].
  exact (flashbin_ok _ _ _ _ _ _ _ H).
Qed.

(** The device acknowledges FLASH_BEGIN and one FLASH_DATA. *)
Lemma flashbin_sample :
  flashbin (mkctx (slip_init 64) (mkchip CHIP_ID_ESP32 "ESP32" 4096)) 0x220 4096
           [0xe9; 1; 0; 0; 5; 6; 7]
           (mkworld [] [Data (slip_encode [1; 2; 0; 0; 0; 0; 0; 0; 0; 0; 0; 0]);
                        Data (slip_encode [1; 3; 0; 0; 0; 0; 0; 0; 0; 0; 0; 0])])
  = FlashOk
      (mkctx (mkslip (list_inserts 0 [1; 3; 0; 0; 0; 0; 0; 0; 0; 0; 0; 0]
                        (replicate 64 0)) 64 0 0 192)
             (mkchip CHIP_ID_ESP32 "ESP32" 4096))
      (mkworld
         (slip_encode (flash_begin_frame CHIP_ID_ESP32 7 4096)
          ++ slip_encode (data_frame (mkchip CHIP_ID_ESP32 "ESP32" 4096)
                            0x220 4096 0 [0xe9; 1; 0; 0; 5; 6; 7]))
         []).
Proof. vm_compute. reflexivity. Qed.

(** Witness of [flashbin_wire]: a file of seven bytes. *)
Lemma flashbin_wire_witness :
  exists c c1 w w1 blocks,
    flashbin c 0x220 4096 [0xe9; 1; 0; 0; 5; 6; 7] w = FlashOk c1 w1 /\
    concat blocks = [0xe9; 1; 0; 0; 5; 6; 7] /\
    tx w1 = tx w
      ++ slip_encode (flash_begin_frame (id (ctx_chip c)) 7 4096)
      ++ concat (map slip_encode (data_frames (ctx_chip c) 0x220 4096 0 blocks)).
Proof.
  pose proof flashbin_sample as E.
  match type of E with
  | flashbin ?c _ _ _ ?w = FlashOk ?c1 ?w1 => exists c, c1, w, w1
  end.
  destruct (flashbin_wire _ _ _ _ _ _ _ E) as (blocks & B1 & _ & B3).
  exists blocks. split; [exact E|]. split; [exact B1 | exact B3].
Defined.

(** X17. The number of FLASH_DATA requests is the number of blocks that
    FLASH_BEGIN announced: for a file of fewer than 2^32 - 4095 bytes,
    a successful [flashbin] has sent as many FLASH_DATA frames as the second
    word of the FLASH_BEGIN body says. *)
Theorem flashbin_block_count (c c1 : ctx) (fp off : Z) (file : list Z)
  (w w1 : world) :
  flashbin c fp off file w = FlashOk c1 w1 ->
  Z.of_nat (length file) + 4095 < 2 ^ 32 ->
  exists frames,
    tx w1 = tx w
      ++ slip_encode (flash_begin_frame (id (ctx_chip c))
                        (Z.of_nat (length file)) off)
      ++ concat (map slip_encode frames) /\
    Z.of_nat (length frames)
    = nth 1 (flash_begin_d1 (Z.of_nat (length file)) off) 0.
Proof.
  intros H Hl.
  exists (data_frames (ctx_chip c) fp off 0 (fread_blocks (S (length file)) file)).
  split; [exact (flashbin_ok _ _ _ _ _ _ _ H)|].
  destruct (fread_blocks_spec (S (length file)) file ltac:(lia)) as (_ & _ & F3).
  rewrite length_data_frames, F3. unfold flash_begin_d1. cbn [nth].
  replace (Z.of_nat (length file) + 4096 - 1)
    with (Z.of_nat (length file) + 4095) by lia.
  now rewrite Z.mod_small by lia.
Qed.

(** Witness of [flashbin_block_count]. *)
Lemma flashbin_block_count_witness :
  exists c c1 w w1 (frames : list (list Z)),
    flashbin c 0x220 4096 [0xe9; 1; 0; 0; 5; 6; 7] w = FlashOk c1 w1 /\
    Z.of_nat (length frames) = 1.
Proof.
  pose proof flashbin_sample as E.
  match type of E with
  | flashbin ?c _ _ _ ?w = FlashOk ?c1 ?w1 => exists c, c1, w, w1
  end.
  destruct (flashbin_block_count _ _ _ _ _ _ _ E ltac:(simpl; lia))
    as (frames & _ & B2).
  exists frames. split; [exact E | exact B2].
Defined.

(** X18. What is sent is the file: after a successful [flashbin] the
    payloads of the FLASH_DATA requests, put end to end, have the length of
    the file and agree with it at every offset other than 2, 3, 8 and 12; and
    they are the file itself when the target offset is not the bootloader
    offset of the chip. *)
Theorem flashbin_sends_file (c c1 : ctx) (fp off : Z) (file : list Z)
  (w w1 : world) :
  flashbin c fp off file w = FlashOk c1 w1 ->
  exists frames,
    tx w1 = tx w
      ++ slip_encode (flash_begin_frame (id (ctx_chip c))
                        (Z.of_nat (length file)) off)
      ++ concat (map slip_encode frames) /\
    length (concat (map frame_payload frames)) = length file /\
    (forall j : nat, j <> 2%nat -> j <> 3%nat -> j <> 8%nat -> j <> 12%nat ->
       concat (map frame_payload frames) !! j = file !! j) /\
    (off <> bla (ctx_chip c) -> concat (map frame_payload frames) = file).
Proof.
  intros H.
  exists (data_frames (ctx_chip c) fp off 0 (fread_blocks (S (length file)) file)).
  split; [exact (flashbin_ok _ _ _ _ _ _ _ H)|].
  destruct (fread_blocks_spec (S (length file)) file ltac:(lia)) as (F1 & _ & _).
  revert F1. generalize (fread_blocks (S (length file)) file) as blocks.
  intros blocks <-. destruct blocks as [| chunk rest]; [repeat split|].
  cbn [data_frames map concat].
  rewrite frame_payload_data, data_frames_payload_rest by lia.
  split; [|split].
  - now rewrite !length_app, length_patch_body.
  - intros j H2 H3 H8 H12.
    destruct (Nat.lt_ge_cases j (length chunk)) as [Hj|Hj].
    + rewrite !lookup_app_l by (rewrite ?length_patch_body; assumption).
      now apply patch_body_lookup.
    + rewrite !lookup_app_r by (rewrite ?length_patch_body; assumption).
      now rewrite length_patch_body.
  - intros Ho. now rewrite patch_body_off by (right; assumption).
Qed.

(** Witness of [flashbin_sends_file]: the flash parameters 0x0220 land in
    the bytes 2 and 3 of the bootloader image. *)
Lemma flashbin_sends_file_witness :
  exists c c1 w w1 frames,
    flashbin c 0x220 4096 [0xe9; 1; 0; 0; 5; 6; 7] w = FlashOk c1 w1 /\
    length (concat (map frame_payload frames)) = 7%nat.
Proof.
  pose proof flashbin_sample as E.
  match type of E with
  | flashbin ?c _ _ _ ?w = FlashOk ?c1 ?w1 => exists c, c1, w, w1
  end.
  destruct (flashbin_sends_file _ _ _ _ _ _ _ E)
    as (frames & _ & B2 & _).
  exists frames. split; [exact E | exact B2].
Defined.

(** The fuel of [flashbin] suffices: in this model, where every [cmd]
    returns or ends the process, the read loop never runs out of the fuel it
    is given, one more than the length of the file.  (In the program a [cmd]
    that keeps receiving bytes that hold no response does not return.) *)
Lemma flashbin_fuel_suffices (c : ctx) (fp off : Z) (file : list Z) (w : world) :
  flashbin c fp off file w <> FlashOutOfFuel.
Proof.
  unfold flashbin.
  destruct (flash_begin _ _ _ _) as [[c0 w0]|f]; [|discriminate].
  apply flash_loop_fuel. lia.
Qed.

End FlashDataFacts.

(** *** Facts about the layout of the image *)

Module ImageFacts.
Import Elf Image ElfFacts ChecksumFacts.

Lemma align4_small (n : Z) :
  0 <= n < 2 ^ 31 ->
  align_to n 4 mod 2 ^ 32 = align4 n /\
  (align_to n 4 mod 2 ^ 32 - n) mod 2 ^ 32 = align4 n - n /\
  0 <= align4 n - n < 4 /\ align4 n mod 4 = 0.
Proof.
  intros Hn. unfold align_to, align4.
  replace (n + 4 - 1) with (n + 3) by lia.
  rewrite (Z.mod_small (n + 3)) by lia.
  assert (H : n <= (n + 3) / 4 * 4 < n + 4) by (Z.div_mod_to_equations; lia).
  rewrite (Z.mod_small ((n + 3) / 4 * 4) (2 ^ 64)) by lia.
  rewrite (Z.mod_small ((n + 3) / 4 * 4) (2 ^ 32)) by lia.
  split; [reflexivity|]. split; [apply Z.mod_small; lia|].
  split; [lia|]. apply Z.mod_mul. lia.
Qed.

(** One iteration of the segment loop, as a record of the image. *)
Lemma mkbin_segment_record (elf : mem) (i : Z) (st : mkbin_state) :
  Forall is_byte elf -> len elf < 2 ^ 31 -> 0 <= i ->
  rd32 elf 28 + 32 <= len elf ->
  phdr_in_file elf (rd32 elf 28)
    (i + if rd32 elf (rd32 elf 28 + 16) =? 0 then 1 else 0) = true ->
  mkbin_segment elf i st =
  Ok (mkst (written st
            ++ seg_record elf (i + if rd32 elf (rd32 elf 28 + 16) =? 0 then 1 else 0))
           (checksum2 (cs st)
              (seg_payload elf (i + if rd32 elf (rd32 elf 28 + 16) =? 0 then 1 else 0)))
           (S (iterations st))).
Proof.
  intros Hb Hlen Hi Hph Hin.
  pose proof (rd32_range elf 28 Hb) as Hoff.
  unfold seg_record, seg_payload, phdr_vaddr, phdr_filesz, phdr_offset.
  set (e_phoff := rd32 elf 28) in *.
  unfold mkbin_segment, elf_get_phdr.
  rewrite (rd_u32_ok elf 28) by lia. cbn [bind]. fold e_phoff.
  rewrite (rd_u32_ok elf (e_phoff + 16)) by lia. cbn [bind].
  set (shift := if rd32 elf (e_phoff + 16) =? 0 then 1 else 0) in *.
  assert (Hs : 0 <= shift <= 1)
    by (subst shift; destruct (rd32 elf (e_phoff + 16) =? 0); lia).
  assert (Hno : (if rd32 elf (e_phoff + 16) =? 0 then i + 1 else i) = i + shift)
    by (subst shift; destruct (rd32 elf (e_phoff + 16) =? 0); lia).
  rewrite Hno. clear Hno.
  set (no := i + shift) in *.
  unfold phdr_in_file in Hin. apply andb_true_iff in Hin as [Hin1 Hin2].
  apply Z.leb_le in Hin1. apply Z.leb_le in Hin2.
  rewrite (rd_ok elf (e_phoff + 32 * no) 32) by lia. cbn [bind].
  cbn [p_vaddr p_filesz p_offset].
  rewrite !(rd32_rd elf (e_phoff + 32 * no) 32) by lia.
  pose proof (rd32_range elf (e_phoff + 32 * no + 4) Hb) as Ho.
  pose proof (rd32_range elf (e_phoff + 32 * no + 16) Hb) as Hf.
  set (ofs := rd32 elf (e_phoff + 32 * no + 4)) in *.
  set (fsz := rd32 elf (e_phoff + 32 * no + 16)) in *.
  rewrite (rd_ok elf ofs fsz) by lia. cbn [bind].
  destruct (align4_small fsz ltac:(lia)) as (A1 & A2 & _).
  now rewrite A2, A1.
Qed.

Lemma mkbin_loop_records (elf : mem) (num_segments : Z) :
  Forall is_byte elf -> len elf < 2 ^ 31 ->
  rd32 elf 28 + 32 <= len elf -> 0 <= num_segments < 256 ->
  (forall i, 0 <= i < num_segments ->
     phdr_in_file elf (rd32 elf 28)
       (i + if rd32 elf (rd32 elf 28 + 16) =? 0 then 1 else 0) = true) ->
  forall (k : nat) (fuel : nat) (i : Z) (st : mkbin_state),
    0 <= i -> Z.of_nat k = num_segments - i -> (k < fuel)%nat ->
    mkbin_loop fuel elf i num_segments st =
    Ok (mkst (written st
              ++ concat (map (fun j => seg_record elf
                   (Z.of_nat j + if rd32 elf (rd32 elf 28 + 16) =? 0 then 1 else 0))
                   (seq (Z.to_nat i) k)))
             (checksum2 (cs st)
                (concat (map (fun j => seg_payload elf
                   (Z.of_nat j + if rd32 elf (rd32 elf 28 + 16) =? 0 then 1 else 0))
                   (seq (Z.to_nat i) k))))
             (iterations st + k)).
Proof.
  intros Hb Hlen Hph Hn Hall.
  induction k as [| k IH]; intros fuel i st Hi Hk Hfuel.
  - destruct fuel as [| fuel]; [lia|]. simpl.
    destruct (Z.ltb_spec i num_segments); [lia|].
    rewrite app_nil_r, Nat.add_0_r. now destruct st.
  - destruct fuel as [| fuel]; [lia|]. cbn [mkbin_loop].
    destruct (Z.ltb_spec i num_segments); [|lia].
    rewrite (mkbin_segment_record elf i st Hb Hlen Hi Hph) by (apply Hall; lia).
    cbn [bind]. rewrite Z.mod_small by lia.
    rewrite (IH fuel (i + 1)) by lia.
    cbn [written cs iterations seq map concat].
    replace (Z.to_nat (i + 1)) with (S (Z.to_nat i)) by lia.
    rewrite Z2Nat.id by lia.
    unfold checksum2. rewrite fold_left_app, <- app_assoc.
    f_equal. f_equal. lia.
Qed.

(** X20. The image [mkbin] builds from a well-formed ELF32 file: the
    magic byte E9, the truncated segment count, two zero bytes, the entry
    point, the extended header (its first byte is 0 for the ESP32-S2 and EE
    for every other chip), then for every segment its load address, its size
    rounded up to a multiple of 4, its bytes and the zero bytes that fill up
    to that size, then zero bytes up to one byte before a multiple of 16, and
    the checksum: EF xor-ed with the bytes of all segments, the padding left
    out.  The segments are taken from the headers 0, 1, ... of the table, or
    from the headers 1, 2, ... when the first header describes no bytes. *)
Theorem mkbin_image_layout (chip_id : Z) (elf : mem) :
  elf32_ok elf = true ->
  exists pad,
    mkbin chip_id elf =
    Ok ([0xe9; e_phnum elf mod 256; 0; 0] ++ le32 (rd32 elf 24)
        ++ extended_hdr chip_id
        ++ concat (map (seg_record elf) (seg_headers elf))
        ++ replicate pad 0
        ++ [checksum2 0xef (concat (map (seg_payload elf) (seg_headers elf)))],
        Z.to_nat (e_phnum elf mod 256))
    /\ (pad < 16)%nat.
Proof.
  intros Hok. unfold elf32_ok in Hok.
  apply andb_true_iff in Hok as [Hok Hsegs].
  apply andb_true_iff in Hok as [Hok Hid]. apply Z.eqb_eq in Hid.
  apply andb_true_iff in Hok as [Hok Hlt]. apply Z.ltb_lt in Hlt.
  apply andb_true_iff in Hok as [Hok Hge]. apply Z.leb_le in Hge.
  apply elf32_ok_bytes in Hok.
  unfold mkbin, elf_get_num_segments, elf_get_entry_point.
  rewrite (rd_u16_ok elf 44), (rd_u32_ok elf 24) by lia. cbn [bind].
  change (44 + 1) with 45. fold (e_phnum elf).
  unfold seg_headers, phdr_filesz. rewrite Z.mul_0_r, Z.add_0_r.
  set (num_segments := e_phnum elf mod 256) in *.
  assert (Hn : 0 <= num_segments < 256) by (apply Z.mod_pos_bound; lia).
  destruct (Z.ltb_spec (len elf) 32); [lia|].
  destruct (Z.eqb_spec (byte_at elf 4) 1); [|contradiction]. cbn [negb].
  set (st0 := mkst _ 239 0%nat).
  set (shift := if rd32 elf (rd32 elf 28 + 16) =? 0 then 1 else 0) in *.
  assert (Hloop :
    mkbin_loop 256 elf 0 num_segments st0 =
    Ok (mkst (written st0
              ++ concat (map (fun j => seg_record elf (Z.of_nat j + shift))
                             (seq 0 (Z.to_nat num_segments))))
             (checksum2 (cs st0)
                (concat (map (fun j => seg_payload elf (Z.of_nat j + shift))
                             (seq 0 (Z.to_nat num_segments)))))
             (iterations st0 + Z.to_nat num_segments))).
  { apply orb_true_iff in Hsegs as [Hz|Hsegs].
    - apply Z.eqb_eq in Hz. rewrite Hz. simpl. rewrite app_nil_r.
      now subst st0.
    - apply andb_true_iff in Hsegs as [Hph Hall]. apply Z.leb_le in Hph.
      rewrite forallb_forall in Hall.
      apply (mkbin_loop_records elf num_segments Hok Hlt Hph Hn); try lia.
      intros i Hi. replace i with (Z.of_nat (Z.to_nat i)) at 1 by lia.
      apply Hall. apply in_seq. lia. }
  rewrite Hloop. cbn [bind iterations]. subst st0. cbn [written cs iterations].
  rewrite !map_map. unfold mkbin_finish. cbn [written cs].
  eexists. split.
  - f_equal. f_equal.
    assert (Hx : (if chip_id =? 1990
                  then <[4%nat:=2]> (<[0%nat:=0]>
                         [238; 0; 0; 0; 2; 0; 0; 0; 0; 0; 0; 0; 0; 0; 0; 0])
                  else [238; 0; 0; 0; 2; 0; 0; 0; 0; 0; 0; 0; 0; 0; 0; 0])
                 = extended_hdr chip_id).
    { unfold extended_hdr. now destruct (chip_id =? 1990). }
    rewrite Hx. rewrite <- !app_assoc. reflexivity.
  - set (ofs := Z.of_nat (length _)).
    assert (Ho : 0 <= ofs) by (subst ofs; lia).
    destruct (Z.lt_ge_cases (ofs + 16) (2 ^ 64)) as [Hs|Hs].
    + assert (Ha : align_to (ofs + 1) 16 = (ofs + 16) / 16 * 16).
      { unfold align_to. replace (ofs + 1 + 16 - 1) with (ofs + 16) by lia.
        rewrite (Z.mod_small (ofs + 16)) by lia.
        apply Z.mod_small. Z.div_mod_to_equations. lia. }
      rewrite Ha. Z.div_mod_to_equations. lia.
    + unfold align_to.
      pose proof (Z.mod_pos_bound ((ofs + 1 + 16 - 1) mod 2 ^ 64 / 16 * 16)
                    (2 ^ 64) ltac:(lia)). lia.
Qed.

(** Witness of [mkbin_image_layout]: the two-segment sample file. *)
Lemma mkbin_image_layout_witness :
  elf32_ok sample_elf = true /\
  exists pad,
    mkbin 0 sample_elf =
    Ok ([0xe9; e_phnum sample_elf mod 256; 0; 0] ++ le32 (rd32 sample_elf 24)
        ++ extended_hdr 0
        ++ concat (map (seg_record sample_elf) (seg_headers sample_elf))
        ++ replicate pad 0
        ++ [checksum2 0xef (concat (map (seg_payload sample_elf)
                                       (seg_headers sample_elf)))],
        Z.to_nat (e_phnum sample_elf mod 256))
    /\ (pad < 16)%nat.
Proof.
  assert (H : elf32_ok sample_elf = true) by (vm_compute; reflexivity).
  split; [exact H|]. exact (mkbin_image_layout 0 sample_elf H).
Defined.

(** The checksum as a right fold: the start value xor-ed with every byte. *)
Lemma fold_right_lxor_start (v b : Z) (l : list Z) :
  fold_right Z.lxor (Z.lxor v b) l = Z.lxor b (fold_right Z.lxor v l).
Proof.
  induction l as [| x l IH]; cbn [fold_right].
  - apply Z.lxor_comm.
  - rewrite IH, <- !Z.lxor_assoc. f_equal. apply Z.lxor_comm.
Qed.

Lemma checksum2_fold_right (v : Z) (l : list Z) :
  checksum2 v l = fold_right Z.lxor v l.
Proof.
  unfold checksum2. revert v. induction l as [| b l IH]; intros v; [reflexivity|].
  cbn [fold_left fold_right]. rewrite IH. apply fold_right_lxor_start.
Qed.

Lemma seg_payload_bytes (elf : mem) (no : Z) :
  Forall is_byte elf -> Forall is_byte (seg_payload elf no).
Proof. intros H. unfold seg_payload. now apply Forall_take, Forall_drop. Qed.

Lemma payloads_bytes (elf : mem) (nos : list Z) :
  Forall is_byte elf -> Forall is_byte (concat (map (seg_payload elf) nos)).
Proof.
  intros H. induction nos as [| no nos IH]; [constructor|].
  cbn [map concat]. apply Forall_app. split; [now apply seg_payload_bytes | exact IH].
Qed.

(** The state of [mkbin] when the segment loop has ended. *)
Lemma mkbin_final_state (chip_id : Z) (elf : mem) :
  elf32_ok elf = true ->
  exists st,
    mkbin chip_id elf = Ok (mkbin_finish st, iterations st) /\
    Z.of_nat (length (written st)) < 2 ^ 63 /\
    cs st = checksum2 0xef (concat (map (seg_payload elf) (seg_headers elf))).
Proof.
  intros Hok. unfold elf32_ok in Hok.
  apply andb_true_iff in Hok as [Hok Hsegs].
  apply andb_true_iff in Hok as [Hok Hid]. apply Z.eqb_eq in Hid.
  apply andb_true_iff in Hok as [Hok Hlt]. apply Z.ltb_lt in Hlt.
  apply andb_true_iff in Hok as [Hok Hge]. apply Z.leb_le in Hge.
  apply elf32_ok_bytes in Hok.
  unfold mkbin, elf_get_num_segments, elf_get_entry_point.
  rewrite (rd_u16_ok elf 44), (rd_u32_ok elf 24) by lia. cbn [bind].
  change (44 + 1) with 45. fold (e_phnum elf).
  unfold seg_headers, phdr_filesz. rewrite Z.mul_0_r, Z.add_0_r.
  set (num_segments := e_phnum elf mod 256) in *.
  assert (Hn : 0 <= num_segments < 256) by (apply Z.mod_pos_bound; lia).
  destruct (Z.ltb_spec (len elf) 32); [lia|].
  destruct (Z.eqb_spec (byte_at elf 4) 1); [|contradiction]. cbn [negb].
  set (st0 := mkst _ 239 0%nat).
  set (shift := if rd32 elf (rd32 elf 28 + 16) =? 0 then 1 else 0) in *.
  assert (Hl0 : length (written st0) = 24%nat).
  { subst st0. cbn [written]. destruct (chip_id =? 1990); reflexivity. }
  assert (Hloop : exists st,
    mkbin_loop 256 elf 0 num_segments st0 = Ok st /\
    Z.of_nat (length (written st)) < 2 ^ 63 /\
    cs st = checksum2 239
              (concat (map (fun j => seg_payload elf (Z.of_nat j + shift))
                           (seq 0 (Z.to_nat num_segments))))).
  { apply orb_true_iff in Hsegs as [Hz|Hsegs].
    - apply Z.eqb_eq in Hz. rewrite Hz. exists st0.
      split; [reflexivity|]. split; [rewrite Hl0; lia | reflexivity].
    - apply andb_true_iff in Hsegs as [Hph Hall]. apply Z.leb_le in Hph.
      rewrite forallb_forall in Hall.
      assert (Hall' : forall i, 0 <= i < num_segments ->
                phdr_in_file elf (rd32 elf 28) (i + shift) = true).
      { intros i Hi. replace i with (Z.of_nat (Z.to_nat i)) at 1 by lia.
        apply Hall. apply in_seq. lia. }
      destruct (mkbin_loop_ok elf num_segments Hok Hlt Hph Hn Hall')
        with (k := Z.to_nat num_segments) (fuel := 256%nat) (i := 0) (st := st0)
        as (st & ext & E & _ & W & L); try lia.
      exists st. split; [exact E|]. split.
      + rewrite W, length_app, Hl0. lia.
      + rewrite (mkbin_loop_records elf num_segments Hok Hlt Hph Hn Hall'
                   (Z.to_nat num_segments) 256%nat 0 st0) in E by lia.
        inversion E. reflexivity. }
  destruct Hloop as (st & E & Hlen & Hcs).
  rewrite E. cbn [bind]. exists st. split; [reflexivity|]. split; [exact Hlen|].
  rewrite Hcs, map_map. reflexivity.
Qed.

(** C8. For every well-formed ELF32 input [mkbin] emits an image that ends
    with one checksum byte: the last byte of the image is EF xor-ed with
    every byte of every segment, it lies at an offset congruent to 15
    modulo 16, and the length of the file is a multiple of 16. *)
Theorem mkbin_checksum_offset (chip_id : Z) (elf : mem) :
  elf32_ok elf = true ->
  exists image iters body c,
    mkbin chip_id elf = Ok (image, iters) /\
    image = body ++ [c] /\
    c = fold_right Z.lxor 0xef (concat (map (seg_payload elf) (seg_headers elf))) /\
    is_byte c /\
    Z.of_nat (length body) mod 16 = 15 /\
    Z.of_nat (length image) mod 16 = 0.
Proof.
  intros Hok.
  destruct (mkbin_final_state chip_id elf Hok) as (st & E & Hl & Hcs).
  destruct (mkbin_finish_aligned st Hl) as (Hm & body & Hb & Hb15 & _).
  exists (mkbin_finish st), (iterations st), body, (cs st).
  split; [exact E|]. split; [exact Hb|].
  split; [rewrite Hcs; apply checksum2_fold_right|].
  split; [|split; assumption].
  rewrite Hcs. apply checksum2_byte; [unfold is_byte; lia|].
  apply payloads_bytes, elf32_ok_bytes.
  unfold elf32_ok in Hok. repeat (apply andb_true_iff in Hok as [Hok _]). exact Hok.
Qed.

(** Witness of [mkbin_checksum_offset]: the two-segment sample file. *)
Lemma mkbin_checksum_offset_witness :
  elf32_ok sample_elf = true /\
  exists image iters body c,
    mkbin 0 sample_elf = Ok (image, iters) /\
    image = body ++ [c] /\
    c = fold_right Z.lxor 0xef
          (concat (map (seg_payload sample_elf) (seg_headers sample_elf))) /\
    is_byte c /\
    Z.of_nat (length body) mod 16 = 15 /\
    Z.of_nat (length image) mod 16 = 0.
Proof.
  assert (H : elf32_ok sample_elf = true) by (vm_compute; reflexivity).
  split; [exact H|]. exact (mkbin_checksum_offset 0 sample_elf H).
Defined.

End ImageFacts.

(** *** Facts about the reset recipes and [chip_connect] *)

Module ResetFacts.
Import Slip Chip Cmd Reset SlipFacts CmdFacts.

Lemma count_after_spec (k : nat) :
  count_after k 0 =
  if (k =? 0)%nat then 0
  else if (k mod 5 =? 0)%nat then 5 else Z.of_nat (k mod 5).
Proof.
  induction k as [| k IH]; [reflexivity|].
  cbn [count_after]. rewrite IH. clear IH.
  assert (Hk : (k mod 5 < 5)%nat) by (apply Nat.mod_upper_bound; lia).
  assert (Hs : (S k mod 5 = if (k mod 5 =? 4)%nat then 0 else S (k mod 5))%nat).
  { replace (S k) with (k + 1)%nat by lia.
    rewrite Nat.Div0.add_mod by lia.
    destruct (Nat.eqb_spec (k mod 5) 4) as [E|E].
    - rewrite E. reflexivity.
    - change (1 mod 5)%nat with 1%nat. rewrite Nat.mod_small by lia. lia. }
  rewrite Hs. unfold reset_strategy. cbn [snd Nat.eqb].
  destruct (Nat.eqb_spec k 0) as [->|Hk0]; [reflexivity|].
  destruct (Nat.eqb_spec (k mod 5) 0) as [E0|E0].
  - rewrite E0. reflexivity.
  - destruct (Nat.eqb_spec (k mod 5) 4) as [E4|E4].
    + rewrite E4. reflexivity.
    + destruct (Z.ltb_spec 4 (Z.of_nat (k mod 5))); [lia|].
      destruct (Nat.eqb_spec (S (k mod 5)) 0); [lia|]. lia.
Qed.

Lemma count_after_win32_spec (k : nat) :
  count_after_win32 k 0 =
  if (k =? 0)%nat then 0
  else if (k mod 3 =? 0)%nat then 3 else Z.of_nat (k mod 3).
Proof.
  induction k as [| k IH]; [reflexivity|].
  cbn [count_after_win32]. rewrite IH. clear IH.
  assert (Hk : (k mod 3 < 3)%nat) by (apply Nat.mod_upper_bound; lia).
  assert (Hs : (S k mod 3 = if (k mod 3 =? 2)%nat then 0 else S (k mod 3))%nat).
  { replace (S k) with (k + 1)%nat by lia.
    rewrite Nat.Div0.add_mod by lia.
    destruct (Nat.eqb_spec (k mod 3) 2) as [E|E].
    - rewrite E. reflexivity.
    - change (1 mod 3)%nat with 1%nat. rewrite Nat.mod_small by lia. lia. }
  rewrite Hs. unfold reset_strategy_win32. cbn [snd Nat.eqb].
  destruct (Nat.eqb_spec k 0) as [->|Hk0]; [reflexivity|].
  destruct (Nat.eqb_spec (k mod 3) 0) as [E0|E0].
  - rewrite E0. reflexivity.
  - destruct (Nat.eqb_spec (k mod 3) 2) as [E4|E4].
    + rewrite E4. reflexivity.
    + destruct (Z.ltb_spec 2 (Z.of_nat (k mod 3))); [lia|].
      destruct (Nat.eqb_spec (S (k mod 3)) 0); [lia|]. lia.
Qed.

(** X21. The reset recipes rotate: counting the calls of
    [reset_strategy] from 0, call number [k] runs recipe number [k mod 5] of
    the list USB-JTAG-serial, tight with 50 ms, tight with 100 ms, classic
    with 50 ms, classic with 100 ms; under [_WIN32] it runs recipe number
    [k mod 3] of the list USB-JTAG-serial, classic with 50 ms, classic with
    100 ms. *)
Theorem reset_strategy_rotates (k : nat) :
  fst (reset_strategy (count_after k 0)) = nth (k mod 5) recipes [] /\
  fst (reset_strategy_win32 (count_after_win32 k 0))
  = nth (k mod 3) recipes_win32 [].
Proof.
  split.
  - rewrite count_after_spec.
    assert (Hk : (k mod 5 < 5)%nat) by (apply Nat.mod_upper_bound; lia).
    destruct (Nat.eqb_spec k 0) as [->|Hk0]; [reflexivity|].
    destruct (Nat.eqb_spec (k mod 5) 0) as [E0|E0]; [rewrite E0; reflexivity|].
    destruct (k mod 5)%nat as [| [| [| [| [| m]]]]]; try reflexivity; lia.
  - rewrite count_after_win32_spec.
    assert (Hk : (k mod 3 < 3)%nat) by (apply Nat.mod_upper_bound; lia).
    destruct (Nat.eqb_spec k 0) as [->|Hk0]; [reflexivity|].
    destruct (Nat.eqb_spec (k mod 3) 0) as [E0|E0]; [rewrite E0; reflexivity|].
    destruct (k mod 3)%nat as [| [| [| m]]]; try reflexivity; lia.
Qed.

(** X22. Every reset leaves both modem-control lines released: whatever
    the state of DTR and RTS before, after [hard_reset] and after each recipe
    of [reset_strategy], with any delay, DTR and RTS are both off. *)
Theorem reset_releases_lines (l : lines) (count delay : Z) :
  run_lines hard_reset l = mklines false false /\
  run_lines (fst (reset_strategy count)) l = mklines false false /\
  run_lines (fst (reset_strategy_win32 count)) l = mklines false false /\
  run_lines (reset_to_bootloader delay) l = mklines false false /\
  run_lines (unix_tight_reset_to_bootloader delay) l = mklines false false.
Proof.
  destruct l as [d r]. unfold reset_strategy, reset_strategy_win32.
  repeat split; try reflexivity; cbn [fst];
    repeat match goal with
           | |- context [if ?b then _ else _] => destruct b
           end; reflexivity.
Qed.

Lemma cmd_silent (c : ctx) (op : Z) (b : list Z) (len cs : Z) (t : list Z)
  (k : nat) :
  cmd c op b len cs (mkworld t (replicate k NotReady)) =
  Done (1, c, mkworld (t ++ slip_encode (cmd_frame op b len cs))
                      (replicate (k - 1) NotReady)).
Proof.
  unfold cmd. cbn [rx tx]. rewrite slip_send_emit, slip_encode_eq.
  destruct c as [sl ch]. destruct k as [| k]; cbn [replicate cmd_loop];
    [reflexivity|].
  replace (S k - 1)%nat with k by lia. reflexivity.
Qed.

Lemma sync_tries_silent (n : nat) :
  forall (c : ctx) (t : list Z) (k : nat) (ops : list line_op),
  sync_tries n c (mkworld t (replicate k NotReady)) ops =
  Done (false, c,
        mkworld (t ++ concat (replicate n (slip_encode (cmd_frame 8 sync_data 36 0))))
                (replicate (k - n) NotReady),
        ops).
Proof.
  induction n as [| n IH]; intros c t k ops.
  - cbn [sync_tries replicate concat]. now rewrite app_nil_r, Nat.sub_0_r.
  - cbn [sync_tries]. rewrite cmd_silent. cbn [Z.eqb].
    rewrite IH. cbn [replicate concat]. rewrite <- app_assoc.
    replace (k - 1 - n)%nat with (k - S n)%nat by lia. reflexivity.
Qed.

Lemma count_after_S (k : nat) (count : Z) :
  count_after (S k) count = count_after k (snd (reset_strategy count)).
Proof.
  induction k as [| k IH]; [reflexivity|].
  change (count_after (S (S k)) count)
    with (snd (reset_strategy (count_after (S k) count))).
  now rewrite IH.
Qed.

Lemma flushes_app (a b : list line_op) :
  flushes (a ++ b) = (flushes a + flushes b)%nat.
Proof. unfold flushes. now rewrite List.filter_app, length_app. Qed.

Lemma flushes_reset_strategy (count : Z) :
  flushes (fst (reset_strategy count)) = 0%nat.
Proof.
  unfold reset_strategy. cbn [fst].
  repeat match goal with
         | |- context [if ?b then _ else _] => destruct b
         end; reflexivity.
Qed.

Lemma connect_rounds_silent (js : list nat) :
  forall (count : Z) (c : ctx) (t : list Z) (k : nat) (ops : list line_op),
  exists ops',
    connect_rounds js count c (mkworld t (replicate k NotReady)) ops =
    Done (false, c,
          mkworld (t ++ concat (replicate (list_sum (map (Nat.add 2) js))
                                  (slip_encode (cmd_frame 8 sync_data 36 0))))
                  (replicate (k - list_sum (map (Nat.add 2) js)) NotReady),
          count_after (length js) count, ops')
    /\ flushes ops' = (flushes ops + length js)%nat.
Proof.
  induction js as [| j js IH]; intros count c t k ops.
  - exists ops. cbn [connect_rounds map list_sum fold_right replicate concat length
                     count_after].
    rewrite app_nil_r, Nat.sub_0_r, Nat.add_0_r. split; reflexivity.
  - cbn [connect_rounds]. destruct (reset_strategy count) as [recipe count1] eqn:Er.
    rewrite sync_tries_silent.
    destruct (IH count1 c
                (t ++ concat (replicate (2 + j)
                                (slip_encode (cmd_frame 8 sync_data 36 0))))
                (k - (2 + j))%nat (ops ++ recipe ++ [Flush])) as [ops' [E Hf]].
    exists ops'. rewrite E. split.
    + change (list_sum (map (Nat.add 2) (j :: js)))
        with ((2 + j) + list_sum (map (Nat.add 2) js))%nat.
      cbn [length]. rewrite count_after_S, Er. cbn [snd].
      rewrite <- app_assoc, <- concat_app, <- replicate_add.
      replace (k - (2 + j) - list_sum (map (Nat.add 2) js))%nat
        with (k - (2 + j + list_sum (map (Nat.add 2) js)))%nat by lia.
      reflexivity.
    + rewrite Hf, !flushes_app.
      replace recipe with (fst (reset_strategy count)) by (now rewrite Er).
      rewrite flushes_reset_strategy. cbn [length]. unfold flushes at 2.
      cbn [List.filter length]. lia.
Qed.

(** X23. The attempt budget of [chip_connect]: on a line that stays silent
    (every wait times out) it gives up with [false] after six resets, six
    calls of [flushio] and exactly 27 SYNC requests, two after the first
    reset and one more after each following reset; it leaves the session
    context as it was and the recipe counter six calls further. *)
Theorem chip_connect_silent (count : Z) (c : ctx) (t : list Z) (k : nat) :
  exists ops,
    chip_connect count c (mkworld t (replicate k NotReady)) =
    Done (false, c,
          mkworld (t ++ concat (replicate 27
                                  (slip_encode (cmd_frame 8 sync_data 36 0))))
                  (replicate (k - 27) NotReady),
          count_after 6 count, ops)
    /\ flushes ops = 6%nat.
Proof.
  unfold chip_connect.
  destruct (connect_rounds_silent [0; 1; 2; 3; 4; 5]%nat count c t k [])
    as [ops [E Hf]].
  exists ops. split; [exact E | exact Hf].
Qed.

Lemma chip_match_in (chips : list chip) (cur k : chip) (x : Z) :
  chip_match chips cur x = Done k -> In k chips.
Proof.
  induction chips as [| j chips IH]; simpl; [discriminate|].
  destruct (id j =? x); [|auto].
  destruct (negb (id cur =? 0) && negb (id cur =? x)); [discriminate|].
  intros H. inversion H. now left.
Qed.

Lemma chip_detect_in (c c1 : ctx) (w w1 : world) :
  chip_detect c w = Done (c1, w1) -> In (ctx_chip c1) s_known_chips.
Proof.
  unfold chip_detect.
  destruct (read32 _ _ _) as [[[[ok v] c0] w0]|f]; [|discriminate].
  destruct v as [x|]; [|discriminate].
  destruct (chip_match _ _ _) as [k|f] eqn:Em; [|discriminate].
  intros H. inversion H; subst. cbn [ctx_chip]. now apply chip_match_in in Em.
Qed.

Lemma cmd_chip (c c1 : ctx) (op e : Z) (b : list Z) (len cs : Z) (w w1 : world) :
  cmd c op b len cs w = Done (e, c1, w1) -> ctx_chip c1 = ctx_chip c.
Proof.
  unfold cmd.
  destruct (cmd_loop _ _ _ _) as [[[e' s1] evs]|f]; [|discriminate].
  intros H. now inversion H.
Qed.

Lemma sync_tries_chip (n : nat) :
  forall c w ops r c1 w1 ops1,
    sync_tries n c w ops = Done (r, c1, w1, ops1) ->
    if r then In (ctx_chip c1) s_known_chips else ctx_chip c1 = ctx_chip c.
Proof.
  induction n as [| n IH]; intros c w ops r c1 w1 ops1; cbn [sync_tries].
  - intros H. now inversion H.
  - destruct (cmd _ _ _ _ _ _) as [[[e c2] w2]|f] eqn:Ec; [|discriminate].
    apply cmd_chip in Ec. destruct (e =? 0).
    + destruct (chip_detect c2 w2) as [[c3 w3]|f] eqn:Ed; [|discriminate].
      intros H. inversion H; subst. now apply chip_detect_in in Ed.
    + intros H. apply IH in H. destruct r; [assumption | congruence].
Qed.

(** X24. After [chip_connect] the chip descriptor can be relied on: when
    it returns [true] the session's chip descriptor is an entry of the
    registry (the one detection selected), and when it returns [false] the
    descriptor is the one the session had before. *)
Theorem chip_connect_chip (count : Z) (c : ctx) (w : world) (r : bool)
  (c1 : ctx) (w1 : world) (count1 : Z) (ops : list line_op) :
  chip_connect count c w = Done (r, c1, w1, count1, ops) ->
  if r then In (ctx_chip c1) s_known_chips else ctx_chip c1 = ctx_chip c.
Proof.
  unfold chip_connect. generalize (@nil line_op) as ops0.
  generalize [0; 1; 2; 3; 4; 5]%nat as js. intros js. revert count c w.
  induction js as [| j js IH]; intros count c w ops0; cbn [connect_rounds].
  - intros H. now inversion H.
  - destruct (reset_strategy count) as [recipe count2].
    destruct (sync_tries _ _ _ _) as [[[[r' c2] w2] ops2]|f] eqn:Es;
      [|discriminate].
    apply sync_tries_chip in Es. destruct r'.
    + intros H. inversion H; subst. assumption.
    + intros H. apply IH in H. destruct r; [assumption | congruence].
Qed.

(** Witness of [chip_connect_chip]: the first SYNC is answered and the ROM
    reports an ESP32. *)
Lemma chip_connect_chip_witness :
  let c := mkctx (slip_init 64) (mkchip 0 "Unknown" 0) in
  let w := mkworld [] [Data (slip_encode [1; 8; 4; 0; 0; 0; 0; 0; 0; 0; 0; 0]);
                       Data (slip_encode [1; 10; 4; 0; 0x83; 0x1d; 0xf0; 0; 0; 0; 0; 0])] in
  exists c1 w1 count1 ops,
    chip_connect 0 c w = Done (true, c1, w1, count1, ops) /\
    In (ctx_chip c1) s_known_chips.
Proof.
  intros c w.
  destruct (chip_connect 0 c w) as [[[[[r c1] w1] count1] ops]|f] eqn:E;
    [|vm_compute in E; discriminate].
  assert (Hr : r = true) by (vm_compute in E; now inversion E).
  subst r. exists c1, w1, count1, ops. split; [reflexivity|].
  exact (chip_connect_chip 0 c w true c1 w1 count1 ops E).
Defined.

End ResetFacts.

(** *** Facts about the records of a HEX file *)

Module HexRecordFacts.
Import Hex HexRecord.

Lemma codes_app (s1 s2 : string) :
  codes (String.append s1 s2) = codes s1 ++ codes s2.
Proof.
  unfold codes. induction s1 as [| a s1 IH]; [reflexivity|].
  cbn [String.append list_ascii_of_string map]. now rewrite IH.
Qed.

Lemma codes_hexdigit (d : Z) :
  0 <= d < 16 -> Z.of_nat (nat_of_ascii (hexdigit d)) = hexcode d.
Proof.
  intros H.
  assert (E : d = 0 \/ d = 1 \/ d = 2 \/ d = 3 \/ d = 4 \/ d = 5 \/ d = 6 \/ d = 7
              \/ d = 8 \/ d = 9 \/ d = 10 \/ d = 11 \/ d = 12 \/ d = 13 \/ d = 14
              \/ d = 15) by lia.
  repeat (destruct E as [-> | E]; [reflexivity|]). now subst.
Qed.

Lemma codes_hex_low_S (k : nat) (v : Z) :
  codes (hex_low (S k) v) = codes (hex_low k (v / 16)) ++ [hexcode (v mod 16)].
Proof.
  cbn [hex_low]. rewrite codes_app. f_equal. unfold codes.
  cbn [list_ascii_of_string map]. rewrite codes_hexdigit; [reflexivity|].
  apply Z.mod_pos_bound. lia.
Qed.

Lemma length_codes_hex_low (k : nat) (v : Z) : length (codes (hex_low k v)) = k.
Proof.
  revert v. induction k as [| k IH]; intros v; [reflexivity|].
  rewrite codes_hex_low_S, length_app, IH. simpl. lia.
Qed.

Lemma hex_width_le (k : nat) (v : Z) :
  (1 <= k)%nat -> 0 <= v < 16 ^ Z.of_nat k -> (hex_width v <= k)%nat.
Proof.
  intros Hk Hv. unfold hex_width. destruct (Z.leb_spec v 0); [lia|].
  assert (Hl : Z.log2 v < 4 * Z.of_nat k).
  { apply Z.log2_lt_pow2; [lia|].
    replace (2 ^ (4 * Z.of_nat k)) with (16 ^ Z.of_nat k); [lia|].
    change 16 with (2 ^ 4). rewrite <- Z.pow_mul_r by lia. reflexivity. }
  assert (Z.log2 v / 4 < Z.of_nat k) by (apply Z.div_lt_upper_bound; lia).
  assert (0 <= Z.log2 v / 4) by (apply Z.div_pos; [apply Z.log2_nonneg | lia]).
  lia.
Qed.

Lemma fmt_x_hex_low (k : nat) (v : Z) :
  (1 <= k)%nat -> 0 <= v < 16 ^ Z.of_nat k -> fmt_x k v = hex_low k v.
Proof.
  intros Hk Hv. unfold fmt_x. f_equal. pose proof (hex_width_le k v Hk Hv). lia.
Qed.

Lemma digit_hexcode (d : Z) : 0 <= d < 16 -> digit (hexcode d) = d.
Proof.
  intros H. unfold digit, hexcode.
  destruct (Z.ltb_spec d 10).
  - destruct (Z.leb_spec 48 (48 + d)), (Z.leb_spec (48 + d) 57); simpl; lia.
  - destruct (Z.leb_spec 48 (87 + d)), (Z.leb_spec (87 + d) 57),
      (Z.leb_spec 65 (87 + d)), (Z.leb_spec (87 + d) 70); simpl; lia.
Qed.

Lemma lor_shift_digit (v d : Z) :
  0 <= v < 2 ^ 60 -> 0 <= d < 16 ->
  Z.lor (ulong (Z.shiftl v 4)) (ulong d) = 16 * v + d.
Proof.
  intros Hv Hd. unfold ulong. rewrite Z.shiftl_mul_pow2 by lia.
  rewrite !Z.mod_small by lia.
  rewrite <- Z.add_nocarry_lor; [lia|].
  apply Z.bits_inj'. intros n Hn. rewrite Z.land_spec, Z.bits_0.
  destruct (Z.lt_ge_cases n 4).
  - rewrite Z.mul_pow2_bits_low by lia. reflexivity.
  - rewrite (Z.bits_above_log2 d n); [apply andb_false_r | lia |].
    destruct (Z.eq_dec d 0) as [->|]; [simpl; lia|].
    assert (Z.log2 d < 4) by (apply Z.log2_lt_pow2; lia). lia.
Qed.

Lemma hex_to_ul_fold (k : nat) :
  forall (tmp : list Z) (ofs v : Z),
    (k <= 16)%nat -> 0 <= v < 16 ^ Z.of_nat k ->
    (forall i, (i < k)%nat ->
               byte_at tmp (ofs + Z.of_nat i) = nth i (codes (hex_low k v)) 0) ->
    fold_left (hex_step tmp ofs) (replicate k tt) (0, 0) = (v, Z.of_nat k).
Proof.
  induction k as [| k IH]; intros tmp ofs v Hk Hv Hb.
  - cbn. f_equal. change (16 ^ Z.of_nat 0) with 1 in Hv. lia.
  - assert (Hp : 16 ^ Z.of_nat (S k) = 16 * 16 ^ Z.of_nat k).
    { rewrite Nat2Z.inj_succ, Z.pow_succ_r by lia. reflexivity. }
    assert (Hq : 0 <= v / 16 < 16 ^ Z.of_nat k).
    { split; [apply Z.div_pos; lia | apply Z.div_lt_upper_bound; lia]. }
    assert (Hm : 0 <= v mod 16 < 16) by (apply Z.mod_pos_bound; lia).
    replace (replicate (S k) tt) with (replicate k tt ++ [tt])
      by (rewrite <- replicate_S_end; reflexivity).
    rewrite fold_left_app, (IH tmp ofs (v / 16)); [| lia | assumption |].
    + cbn [fold_left hex_step].
      rewrite (Hb k) by lia. rewrite codes_hex_low_S.
      rewrite app_nth2 by (rewrite length_codes_hex_low; lia).
      rewrite length_codes_hex_low, Nat.sub_diag. cbn [nth].
      fold (digit (hexcode (v mod 16))). rewrite digit_hexcode by assumption.
      f_equal; [|lia].
      destruct (Z.ltb_spec 0 (Z.of_nat k)).
      * rewrite lor_shift_digit; [| | assumption].
        -- pose proof (Z.div_mod v 16). lia.
        -- split; [lia|]. 
           assert (16 ^ Z.of_nat k <= 16 ^ 15) by (apply Z.pow_le_mono_r; lia).
           change (2 ^ 60) with (16 ^ 15). lia.
      * assert (k = 0%nat) by lia. subst k. change (16 ^ Z.of_nat 0) with 1 in Hq.
        assert (E : v / 16 = 0) by lia. rewrite E. unfold ulong.
        rewrite Z.mod_small by lia. rewrite Z.lor_0_l.
        pose proof (Z.div_mod v 16). lia.
    + intros i Hi. rewrite (Hb i) by lia. rewrite codes_hex_low_S.
      rewrite app_nth1 by (rewrite length_codes_hex_low; lia). reflexivity.
Qed.

Lemma hex_to_ul_eq tmp ofs k : hex_to_ul tmp ofs k = fst (fold_left (hex_step tmp ofs) (replicate k tt) (0, 0)).
Proof. reflexivity. Qed.

Lemma byte_at_app_mid (pre mid post : list Z) (i : nat) :
  (i < length mid)%nat ->
  byte_at (pre ++ mid ++ post) (Z.of_nat (length pre) + Z.of_nat i) = nth i mid 0.
Proof.
  intros Hi. unfold byte_at. destruct (Z.ltb_spec (Z.of_nat (length pre) + Z.of_nat i) 0); [lia|].
  replace (Z.to_nat (Z.of_nat (length pre) + Z.of_nat i)) with (length pre + i)%nat by lia.
  rewrite app_nth2 by lia. replace (length pre + i - length pre)%nat with i by lia.
  now rewrite app_nth1.
Qed.

(** X25. [hex_to_ul] reads back what [printf("%0kx")] printed: for a
    field of [k] digits, 1 to 16, and a value below 16^k, the [k] characters
    of the value, wherever they lie in the line buffer, decode to the
    value. *)
Theorem hex_to_ul_fmt_x (pre post : list Z) (k : nat) (v : Z) :
  (1 <= k <= 16)%nat -> 0 <= v < 16 ^ Z.of_nat k ->
  hex_to_ul (pre ++ codes (fmt_x k v) ++ post) (Z.of_nat (length pre)) k = v.
Proof.
  intros Hk Hv. rewrite fmt_x_hex_low by lia. rewrite hex_to_ul_eq.
  rewrite (hex_to_ul_fold k _ _ v); [reflexivity | lia | assumption |].
  intros i Hi. apply byte_at_app_mid. rewrite length_codes_hex_low. lia.
Qed.

(** Witness of [hex_to_ul_fmt_x]: the address field of a record. *)
Lemma hex_to_ul_fmt_x_witness :
  hex_to_ul ([58; 49; 48] ++ codes (fmt_x 4 0xBEEF) ++ [48; 48])
            (Z.of_nat (length [58; 49; 48])) 4 = 0xBEEF.
Proof.
  apply (hex_to_ul_fmt_x [58; 49; 48] [48; 48] 4 0xBEEF); [lia|].
  change (16 ^ Z.of_nat 4) with 65536. lia.
Defined.

Lemma printhexline_fold (data : list Z) :
  forall (cs : Z) (body : string),
    fold_left (fun '(cs, body) b => ((cs + b) mod 2 ^ 32, String.append body (fmt_x 2 b)))
              data (cs mod 2 ^ 32, body) =
    ((cs + fold_right Z.add 0 data) mod 2 ^ 32,
     fold_left (fun body b => String.append body (fmt_x 2 b)) data body).
Proof.
  induction data as [| b data IH]; intros cs body; cbn [fold_left fold_right].
  - now rewrite Z.add_0_r.
  - rewrite Zplus_mod_idemp_l, IH. f_equal. f_equal. lia.
Qed.

Lemma codes_fold_body (data : list Z) :
  forall body,
    codes (fold_left (fun body b => String.append body (fmt_x 2 b)) data body) =
    codes body ++ flat_map (fun b => codes (fmt_x 2 b)) data.
Proof.
  induction data as [| b data IH]; intros body; cbn [fold_left flat_map].
  - now rewrite app_nil_r.
  - rewrite IH, codes_app, <- app_assoc. reflexivity.
Qed.

Lemma land_255 (x : Z) : Z.land x 255 = x mod 256.
Proof. change 255 with (Z.ones 8). now rewrite Z.land_ones by lia. Qed.

Lemma printhexline_codes (type addr : Z) (data : list Z) :
  0 <= addr < 65536 ->
  codes (printhexline type (Z.of_nat (length data)) addr data) =
  record_codes type addr data ++ [10].
Proof.
  intros Ha. unfold printhexline, record_codes.
  rewrite Nat2Z.id, firstn_all, printhexline_fold.
  rewrite !codes_app, codes_fold_body, !codes_app.
  change (codes ":") with [58]. change (codes nl) with [10].
  assert (E1 : Z.land addr 65535 = addr).
  { change 65535 with (Z.ones 16). rewrite Z.land_ones by lia.
    apply Z.mod_small. lia. }
  rewrite E1.
  assert (E2 : Z.land ((2 ^ 32 - 1
       - (type + Z.of_nat (length data) + Z.land (Z.shiftr addr 8) 255
          + Z.land addr 255 + fold_right Z.add 0 data) mod 2 ^ 32 + 1) mod 2 ^ 32) 255
     = record_cs type addr data).
  { unfold record_cs, record_sum. rewrite !land_255, Z.shiftr_div_pow2 by lia.
    change (2 ^ 8) with 256. rewrite (Z.mod_small (addr / 256)) by
      (split; [apply Z.div_pos; lia | apply Z.div_lt_upper_bound; lia]).
    Z.div_mod_to_equations. lia. }
  rewrite E2. rewrite <- !app_assoc. reflexivity.
Qed.

(** X26. Every record [printhexline] prints is well formed: a colon, two
    digits of length, four of address, two of type, two for each data byte,
    two of checksum and a line feed; and the bytes of the record, checksum
    included, add up to 0 modulo 256. *)
Theorem printhexline_checksum (type addr : Z) (data : list Z) :
  0 <= addr < 65536 ->
  exists cs,
    0 <= cs < 256 /\
    codes (printhexline type (Z.of_nat (length data)) addr data) =
      [58] ++ codes (fmt_x 2 (Z.of_nat (length data))) ++ codes (fmt_x 4 addr)
           ++ codes (fmt_x 2 type) ++ flat_map (fun b => codes (fmt_x 2 b)) data
           ++ codes (fmt_x 2 cs) ++ [10] /\
    (Z.of_nat (length data) + addr / 256 + addr mod 256 + type
     + fold_right Z.add 0 data + cs) mod 256 = 0.
Proof.
  intros Ha. exists (record_cs type addr data). split; [|split].
  - apply Z.mod_pos_bound. lia.
  - rewrite printhexline_codes by assumption. unfold record_codes.
    rewrite <- !app_assoc. reflexivity.
  - unfold record_cs. fold (record_sum type addr data).
    Z.div_mod_to_equations. lia.
Qed.

(** Witness of [printhexline_checksum]: three bytes at 0x0010. *)
Lemma printhexline_checksum_witness :
  exists cs,
    0 <= cs < 256 /\
    codes (printhexline 0 (Z.of_nat (length [1; 2; 3])) 16 [1; 2; 3]) =
      [58] ++ codes (fmt_x 2 (Z.of_nat (length [1; 2; 3]))) ++ codes (fmt_x 4 16)
           ++ codes (fmt_x 2 0) ++ flat_map (fun b => codes (fmt_x 2 b)) [1; 2; 3]
           ++ codes (fmt_x 2 cs) ++ [10] /\
    (Z.of_nat (length [1; 2; 3]) + 16 / 256 + 16 mod 256 + 0
     + fold_right Z.add 0 [1; 2; 3] + cs) mod 256 = 0.
Proof. apply (printhexline_checksum 0 16 [1; 2; 3]). lia. Defined.

Lemma unhex_char_plain (c : Z) (T : list Z) (k : nat) up nx o fs nm :
  plain c -> (k + 1 < 600)%nat ->
  unhex_char c (mkunhex T (Z.of_nat k) up nx o fs nm) =
  inl (mkunhex (<[k := c]> T) (Z.of_nat (S k)) up nx o fs nm).
Proof.
  intros [Hs Hc] Hk. unfold unhex_char. rewrite Hs. cbn [negb n tmp upper next out files names].
  assert (E : to_char c = c) by (unfold to_char; destruct (Z.ltb_spec c 128); lia).
  rewrite E, Nat2Z.id.
  destruct (Z.leb_spec 600 (Z.of_nat k + 1)); [lia|].
  destruct (Z.eqb_spec c 10) as [->|]; [discriminate|].
  cbn [orb]. do 2 f_equal. lia.
Qed.

Lemma unhex_feed (rc : list Z) :
  forall (rest T : list Z) (k : nat) up nx o fs nm,
    Forall plain rc -> (k + length rc < 600)%nat ->
    unhex_loop (rc ++ rest) (mkunhex T (Z.of_nat k) up nx o fs nm) =
    unhex_loop rest (mkunhex (list_inserts k rc T) (Z.of_nat (k + length rc)) up nx o fs nm).
Proof.
  induction rc as [| c rc IH]; intros rest T k up nx o fs nm Hp Hk.
  - cbn [app list_inserts length]. now rewrite Nat.add_0_r.
  - inversion Hp as [| ? ? Hc Hp']; subst. cbn [length] in Hk.
    cbn [app unhex_loop]. rewrite unhex_char_plain by (assumption || lia).
    rewrite IH by (assumption || lia). cbn [list_inserts length].
    rewrite list_insert_inserts_lt by lia.
    do 2 f_equal. lia.
Qed.

Lemma unhex_feed_line (rc rest T : list Z) up nx o fs nm :
  Forall plain rc -> (length rc < 600)%nat -> length T = 600%nat ->
  unhex_loop (rc ++ 10 :: rest) (mkunhex T 0 up nx o fs nm) =
  match unhex_line (mkunhex (rc ++ drop (length rc) T) (Z.of_nat (length rc))
                            up nx o fs nm) with
  | inl st => unhex_loop rest st
  | inr f => inr f
  end.
Proof.
  intros Hp Hl HT. change 0 with (Z.of_nat 0) at 1.
  rewrite unhex_feed by (assumption || lia). cbn [unhex_loop Nat.add].
  unfold unhex_char. cbn [isspace Z.eqb negb orb n]. 
  replace (isspace 10) with true by reflexivity. cbn [negb].
  rewrite orb_true_r.
  rewrite <- (take_drop (length rc) T) at 1.
  rewrite list_inserts_0_r by (rewrite length_take; lia). reflexivity.
Qed.

Lemma plain_hexcode (d : Z) : 0 <= d < 16 -> plain (hexcode d).
Proof.
  intros H.
  assert (E : d = 0 \/ d = 1 \/ d = 2 \/ d = 3 \/ d = 4 \/ d = 5 \/ d = 6 \/ d = 7
              \/ d = 8 \/ d = 9 \/ d = 10 \/ d = 11 \/ d = 12 \/ d = 13 \/ d = 14
              \/ d = 15) by lia.
  repeat (destruct E as [-> | E]; [split; [reflexivity | cbn; lia]|]).
  subst. split; [reflexivity | cbn; lia].
Qed.

Lemma plain_hex_low (k : nat) : forall v, Forall plain (codes (hex_low k v)).
Proof.
  induction k as [| k IH]; intros v; [constructor|].
  rewrite codes_hex_low_S. apply Forall_app. split; [apply IH|].
  constructor; [|constructor]. apply plain_hexcode. apply Z.mod_pos_bound. lia.
Qed.

Lemma plain_fmt_x (k : nat) (v : Z) : Forall plain (codes (fmt_x k v)).
Proof. apply plain_hex_low. Qed.

Lemma length_fmt_x (k : nat) (v : Z) :
  (1 <= k)%nat -> 0 <= v < 16 ^ Z.of_nat k -> length (codes (fmt_x k v)) = k.
Proof. intros. rewrite fmt_x_hex_low by assumption. apply length_codes_hex_low. Qed.

Lemma length_flat_fmt (data : list Z) :
  Forall is_byte data ->
  length (flat_map (fun b => codes (fmt_x 2 b)) data) = (2 * length data)%nat.
Proof.
  induction 1 as [| b data Hb Hd IH]; [reflexivity|].
  cbn [flat_map length]. rewrite length_app, IH, length_fmt_x; [lia | lia |].
  unfold is_byte in Hb. change (16 ^ Z.of_nat 2) with 256. lia.
Qed.

Lemma plain_flat_fmt (data : list Z) :
  Forall plain (flat_map (fun b => codes (fmt_x 2 b)) data).
Proof.
  induction data as [| b data IH]; [constructor|].
  cbn [flat_map]. apply Forall_app. split; [apply plain_fmt_x | exact IH].
Qed.

Lemma record_cs_range type addr data : 0 <= record_cs type addr data < 256.
Proof. apply Z.mod_pos_bound. lia. Qed.

Lemma plain_record (type addr : Z) (data : list Z) :
  Forall plain (record_codes type addr data).
Proof.
  unfold record_codes. repeat (apply Forall_app; split);
    try apply plain_fmt_x; try apply plain_flat_fmt.
  constructor; [|constructor]. split; [reflexivity | lia].
Qed.

Lemma length_record (type addr : Z) (data : list Z) :
  0 <= type < 256 -> 0 <= addr < 65536 -> (length data < 256)%nat ->
  Forall is_byte data ->
  length (record_codes type addr data) = (11 + 2 * length data)%nat.
Proof.
  intros Ht Ha Hl Hd. unfold record_codes.
  pose proof (record_cs_range type addr data).
  rewrite !length_app, length_flat_fmt, !length_fmt_x by
    (assumption || lia || (change (16 ^ Z.of_nat 2) with 256; lia)
     || (change (16 ^ Z.of_nat 4) with 65536; lia)).
  cbn [length]. lia.
Qed.

Lemma hex_field (T pre post : list Z) (k : nat) (v ofs : Z) :
  T = pre ++ codes (fmt_x k v) ++ post -> ofs = Z.of_nat (length pre) ->
  (1 <= k <= 16)%nat -> 0 <= v < 16 ^ Z.of_nat k ->
  hex_to_ul T ofs k = v.
Proof.
  intros -> -> Hk Hv. rewrite fmt_x_hex_low by lia. rewrite hex_to_ul_eq.
  rewrite (hex_to_ul_fold k _ _ v); [reflexivity | lia | assumption |].
  intros i Hi. apply byte_at_app_mid. rewrite length_codes_hex_low. lia.
Qed.

Lemma to_int_small (v : Z) : 0 <= v < 2 ^ 31 -> to_int v = v.
Proof.
  intros H. unfold to_int. rewrite Z.mod_small by lia.
  destruct (Z.ltb_spec v (2 ^ 31)); lia.
Qed.

(** The fields of a record, read back. *)
Lemma record_fields (type addr : Z) (data tl : list Z) :
  0 <= type < 256 -> 0 <= addr < 65536 -> (length data < 256)%nat ->
  Forall is_byte data ->
  let T := record_codes type addr data ++ tl in
  byte_at T 0 = 58 /\
  hex_to_ul T 1 2 = Z.of_nat (length data) /\
  hex_to_ul T 3 4 = addr /\
  hex_to_ul T 7 2 = type /\
  forall i, (i < length data)%nat ->
            hex_to_ul T (9 + Z.of_nat i * 2) 2 = nth i data 0.
Proof.
  intros Ht Ha Hl Hd T.
  assert (B2 : 16 ^ Z.of_nat 2 = 256) by reflexivity.
  assert (B4 : 16 ^ Z.of_nat 4 = 65536) by reflexivity.
  assert (L1 : length (codes (fmt_x 2 (Z.of_nat (length data)))) = 2%nat)
    by (apply length_fmt_x; lia).
  assert (L2 : length (codes (fmt_x 4 addr)) = 4%nat) by (apply length_fmt_x; lia).
  assert (L3 : length (codes (fmt_x 2 type)) = 2%nat) by (apply length_fmt_x; lia).
  subst T. unfold record_codes. rewrite <- !app_assoc.
  split; [reflexivity|]. split; [|split; [|split]].
  - eapply (hex_field _ [58]); [reflexivity | reflexivity | lia | lia].
  - eapply (hex_field _ ([58] ++ codes (fmt_x 2 (Z.of_nat (length data)))));
      [rewrite <- !app_assoc; reflexivity | | lia | lia].
    rewrite length_app, L1. reflexivity.
  - eapply (hex_field _ ([58] ++ codes (fmt_x 2 (Z.of_nat (length data)))
                              ++ codes (fmt_x 4 addr)));
      [rewrite <- !app_assoc; reflexivity | | lia | lia].
    rewrite !length_app, L1, L2. reflexivity.
  - intros i Hi.
    destruct (lookup_lt_is_Some_2 data i Hi) as [x Hx].
    assert (Hn : nth i data 0 = x) by (now apply nth_lookup_Some with (d := 0) in Hx).
    assert (Hbx : is_byte x).
    { rewrite Forall_forall in Hd. apply Hd. now apply list_elem_of_lookup_2 in Hx. }
    rewrite Hn.
    assert (Ef : flat_map (fun b => codes (fmt_x 2 b)) data =
                 flat_map (fun b => codes (fmt_x 2 b)) (take i data)
                 ++ codes (fmt_x 2 x)
                 ++ flat_map (fun b => codes (fmt_x 2 b)) (drop (S i) data)).
    { rewrite <- (take_drop_middle data i x Hx) at 1.
      rewrite flat_map_app. reflexivity. }
    rewrite Ef. rewrite <- !app_assoc.
    eapply (hex_field _ ([58] ++ codes (fmt_x 2 (Z.of_nat (length data)))
                              ++ codes (fmt_x 4 addr) ++ codes (fmt_x 2 type)
                              ++ flat_map (fun b => codes (fmt_x 2 b)) (take i data)));
      [rewrite <- !app_assoc; reflexivity | | lia | unfold is_byte in Hbx; lia].
    rewrite !length_app, L1, L2, L3, length_flat_fmt
      by (now apply Forall_take).
    rewrite length_take. cbn [length]. lia.
Qed.

Lemma fold_index (g : Z -> Z) (o : Z) (data : list Z) (fs : list (Z * list Z)) :
  (forall i, (i < length data)%nat -> g (Z.of_nat i) = nth i data 0) ->
  fold_left (fun fs i => fputc (g i) o fs) (map Z.of_nat (seq 0 (length data))) fs
  = fputs data o fs.
Proof.
  unfold fputs. induction data as [| x data IH] using rev_ind; intros Hg; [reflexivity|].
  rewrite length_app in *. cbn [length] in *.
  replace (length data + 1)%nat with (S (length data)) by lia.
  rewrite seq_S, map_app, !fold_left_app. cbn [map fold_left Nat.add].
  rewrite IH.
  - rewrite (Hg (length data)) by lia.
    rewrite app_nth2 by lia. now rewrite Nat.sub_diag.
  - intros i Hi. rewrite Hg by lia. now rewrite app_nth1 by lia.
Qed.

Lemma fputs_single (data : list Z) :
  forall (o : Z) (d : list Z),
    Forall is_byte data -> fputs data o [(o, d)] = [(o, d ++ data)].
Proof.
  unfold fputs. induction data as [| b data IH]; intros o d Hd; cbn [fold_left].
  - now rewrite app_nil_r.
  - inversion Hd as [| ? ? Hb Hd']; subst. unfold fputc at 2. cbn [map fst snd].
    rewrite Z.eqb_refl. rewrite Z.mod_small by exact Hb.
    rewrite IH by assumption. now rewrite <- app_assoc.
Qed.

Lemma lor_upper (h lo : Z) :
  0 <= h -> 0 <= lo < 65536 -> Z.lor (65536 * h) lo = 65536 * h + lo.
Proof.
  intros Hh Hl. rewrite <- Z.add_nocarry_lor; [reflexivity|].
  apply Z.bits_inj'. intros n Hn. rewrite Z.land_spec, Z.bits_0.
  destruct (Z.lt_ge_cases n 16).
  - rewrite Z.mul_comm. change 65536 with (2 ^ 16).
    rewrite Z.mul_pow2_bits_low by lia. reflexivity.
  - rewrite (Z.bits_above_log2 lo n); [apply andb_false_r | lia |].
    destruct (Z.eq_dec lo 0) as [->|]; [simpl; lia|].
    assert (Z.log2 lo < 16) by (apply Z.log2_lt_pow2; lia). lia.
Qed.

(** [unhex_line] on a data record. *)
Lemma unhex_line_data (lo : Z) (data tl : list Z) up nx o fs nm :
  0 <= lo < 65536 -> (length data < 256)%nat -> Forall is_byte data ->
  unhex_line (mkunhex (record_codes 0 lo data ++ tl)
                      (Z.of_nat (length (record_codes 0 lo data))) up nx o fs nm) =
  inl (let '(o', fs', nm') :=
         match o with
         | Some a => if negb (nx =? Z.lor up lo)
                     then (Z.lor up lo, fopen_wb (Z.lor up lo) fs, nm ++ [Z.lor up lo])
                     else (a, fs, nm)
         | None => (Z.lor up lo, fopen_wb (Z.lor up lo) fs, nm ++ [Z.lor up lo])
         end in
       mkunhex (record_codes 0 lo data ++ tl) 0 up
               (ulong (Z.lor up lo + Z.of_nat (length data))) (Some o')
               (fputs data o' fs') nm').
Proof.
  intros Hl Hn Hd.
  destruct (record_fields 0 lo data tl) as (F0 & F1 & F2 & F3 & F4);
    try assumption; try lia.
  cbv zeta in F0, F1, F2, F3, F4.
  unfold unhex_line. cbn [tmp n upper next out files names].
  rewrite F0, F1, F2, F3, length_record by (assumption || lia).
  rewrite !to_int_small by lia. cbn [Z.eqb negb Pos.eqb].
  replace (Z.of_nat (11 + 2 * length data)
           =? 1 + 2 + 4 + 2 + Z.of_nat (length data) * 2 + 2) with true
    by (symmetry; apply Z.eqb_eq; lia).
  cbn [negb]. rewrite Nat2Z.id.
  assert (Ef : forall o' fs',
    fold_left (fun fs0 i =>
       fputc (to_int (hex_to_ul (record_codes 0 lo data ++ tl) (9 + i * 2) 2)) o' fs0)
      (map Z.of_nat (seq 0 (length data))) fs' = fputs data o' fs').
  { intros o' fs'.
    apply (fold_index (fun i => to_int (hex_to_ul (record_codes 0 lo data ++ tl)
                                          (9 + i * 2) 2))).
    intros i Hi. rewrite F4 by assumption.
    assert (Hb : is_byte (nth i data 0)).
    { rewrite Forall_forall in Hd. apply Hd. apply list_elem_of_In, nth_In. lia. }
    apply to_int_small. unfold is_byte in Hb. lia. }
  destruct o as [a|]; [destruct (negb _)|]; rewrite Ef; reflexivity.
Qed.

Lemma codes_hex4 (b1 b0 : Z) :
  is_byte b1 -> is_byte b0 ->
  codes (fmt_x 2 b1) ++ codes (fmt_x 2 b0) = codes (fmt_x 4 (b1 * 256 + b0)).
Proof.
  unfold is_byte. intros H1 H0.
  rewrite !fmt_x_hex_low by
    (lia || (change (16 ^ Z.of_nat 2) with 256; lia)
     || (change (16 ^ Z.of_nat 4) with 65536; lia)).
  rewrite !codes_hex_low_S. cbn [hex_low codes list_ascii_of_string map app].
  assert (E3 : ((((b1 * 256 + b0) / 16) / 16) / 16) mod 16 = (b1 / 16) mod 16)
    by (Z.div_mod_to_equations; lia).
  assert (E2 : (((b1 * 256 + b0) / 16) / 16) mod 16 = b1 mod 16)
    by (Z.div_mod_to_equations; lia).
  assert (E1 : ((b1 * 256 + b0) / 16) mod 16 = (b0 / 16) mod 16)
    by (Z.div_mod_to_equations; lia).
  assert (E0 : (b1 * 256 + b0) mod 16 = b0 mod 16)
    by (Z.div_mod_to_equations; lia).
  now rewrite E3, E2, E1, E0.
Qed.

(** [unhex_line] on an upper-address record. *)
Lemma unhex_line_upper (b1 b0 : Z) (tl : list Z) up nx o fs nm :
  is_byte b1 -> is_byte b0 ->
  unhex_line (mkunhex (record_codes 4 0 [b1; b0] ++ tl)
                      (Z.of_nat (length (record_codes 4 0 [b1; b0]))) up nx o fs nm) =
  inl (mkunhex (record_codes 4 0 [b1; b0] ++ tl) 0
               (65536 * (b1 * 256 + b0)) nx o fs nm).
Proof.
  intros H1 H0. pose proof H1 as H1'. pose proof H0 as H0'.
  unfold is_byte in H1', H0'.
  assert (Hd : Forall is_byte [b1; b0])
    by (constructor; [assumption | constructor; [assumption | constructor]]).
  destruct (record_fields 4 0 [b1; b0] tl) as (F0 & F1 & F2 & F3 & F4);
    try assumption; try (cbn; lia).
  cbv zeta in F0, F1, F2, F3, F4.
  assert (F5 : hex_to_ul (record_codes 4 0 [b1; b0] ++ tl) 9 4 = b1 * 256 + b0).
  { unfold record_codes. cbn [flat_map]. rewrite app_nil_r, <- !app_assoc.
    rewrite (app_assoc (codes (fmt_x 2 b1))), codes_hex4 by assumption.
    eapply (hex_field _ ([58] ++ codes (fmt_x 2 (Z.of_nat (length [b1; b0])))
                              ++ codes (fmt_x 4 0) ++ codes (fmt_x 2 4)));
      [rewrite <- !app_assoc; reflexivity | reflexivity | lia |].
    change (16 ^ Z.of_nat 4) with 65536. lia. }
  unfold unhex_line. cbn [tmp n upper next out files names].
  rewrite F0, F1, F3, F5, length_record by (assumption || cbn; lia).
  cbn [length]. rewrite !to_int_small by (cbn; lia).
  cbn [Z.eqb negb Pos.eqb Z.of_nat Pos.of_succ_nat Pos.succ Nat.add Nat.mul Z.add
       Z.mul Pos.add Pos.mul Pos.add_carry].
  do 2 f_equal. unfold ulong. rewrite Z.shiftl_mul_pow2 by lia.
  rewrite Z.mod_small by lia. lia.
Qed.

(** [unhex_line] on the end-of-file record. *)
Lemma unhex_line_eof (tl : list Z) up nx o fs nm :
  unhex_line (mkunhex (record_codes 1 0 [] ++ tl)
                      (Z.of_nat (length (record_codes 1 0 []))) up nx o fs nm) =
  inl (mkunhex (record_codes 1 0 [] ++ tl) 0 up nx None fs nm).
Proof. reflexivity. Qed.

Lemma codes_hiaddr (a : Z) :
  codes (printhexhiaddrline a) = record_codes 4 0 (hi_bytes a) ++ [10].
Proof. unfold printhexhiaddrline. apply (printhexline_codes 4 0 (hi_bytes a)). lia. Qed.

Lemma land_ffff (a : Z) : Z.land a 0xffff = a mod 65536.
Proof. change 65535 with (Z.ones 16). now rewrite Z.land_ones by lia. Qed.

Lemma codes_flush (a : Z) (buf : list Z) (out : string) :
  codes (snd (mkhex_flush a buf out)) = codes out ++ flush_codes a buf.
Proof.
  unfold mkhex_flush, flush_codes, hi_due. cbn [snd].
  assert (Hr : 0 <= Z.land a 65535 < 65536).
  { rewrite land_ffff. apply Z.mod_pos_bound. lia. }
  destruct ((65535 <=? a) && (Z.land a 65535 =? 0)),
    (0 <? Z.of_nat (length buf));
    rewrite ?codes_app, ?codes_hiaddr, ?printhexline_codes by assumption;
    rewrite ?app_nil_r, <- ?app_assoc; reflexivity.
Qed.

Lemma fst_flush (a : Z) (buf : list Z) (out : string) :
  fst (mkhex_flush a buf out) = ulong (a + Z.of_nat (length buf)).
Proof. reflexivity. Qed.

Lemma mkhex_file_buf (xs : list Z) :
  forall (rest : list Z) (addr : Z) (buf : list Z) (out : string),
    (length buf + length xs < 16)%nat ->
    mkhex_file (xs ++ rest) addr buf out = mkhex_file rest addr (buf ++ xs) out.
Proof.
  induction xs as [| x xs IH]; intros rest addr buf out Hl.
  - now rewrite app_nil_r.
  - cbn [app mkhex_file length] in *.
    destruct (Nat.leb_spec 16 (length (buf ++ [x]))) as [H|H];
      [rewrite length_app in H; cbn in H; lia|].
    rewrite IH by (rewrite length_app; cbn; lia).
    now rewrite <- app_assoc.
Qed.

Lemma mkhex_file_short (bytes : list Z) (addr : Z) (out : string) :
  (length bytes < 16)%nat ->
  mkhex_file bytes addr [] out = snd (mkhex_flush addr bytes out).
Proof.
  intros H. rewrite <- (app_nil_r bytes) at 1.
  rewrite mkhex_file_buf by (cbn; lia). reflexivity.
Qed.

Lemma mkhex_file_chunk (chunk rest : list Z) (addr : Z) (out : string) :
  length chunk = 16%nat ->
  mkhex_file (chunk ++ rest) addr [] out =
  mkhex_file rest (fst (mkhex_flush addr chunk out)) []
             (snd (mkhex_flush addr chunk out)).
Proof.
  intros H.
  assert (E : exists xs x, chunk = xs ++ [x]).
  { pose proof (length_drop chunk 15) as Hd.
    destruct (drop 15 chunk) as [| x [| y l]] eqn:Ed; cbn [length] in Hd; try lia.
    exists (take 15 chunk), x. now rewrite <- Ed, take_drop. }
  destruct E as (xs & x & ->).
  rewrite length_app in H. cbn [length] in H.
  rewrite <- app_assoc. cbn [app].
  rewrite mkhex_file_buf by (cbn; lia). cbn [app mkhex_file].
  destruct (Nat.leb_spec 16 (length (xs ++ [x]))) as [H'|H'];
    [|rewrite length_app in H'; cbn in H'; lia].
  destruct (mkhex_flush addr (xs ++ [x]) out) as [a' out']. reflexivity.
Qed.

Lemma chunk_ind (P : list Z -> Prop) :
  (forall l, (length l < 16)%nat -> P l) ->
  (forall chunk rest, length chunk = 16%nat -> P rest -> P (chunk ++ rest)) ->
  forall l, P l.
Proof.
  intros Hs Hc l.
  assert (H : forall m l, (length l <= m)%nat -> P l).
  { clear l. induction m as [| m IH]; intros l Hl.
    - apply Hs. lia.
    - destruct (Nat.ltb_spec (length l) 16) as [H|H]; [now apply Hs|].
      rewrite <- (take_drop 16 l). apply Hc.
      + rewrite length_take. lia.
      + apply IH. rewrite length_drop. lia. }
  now apply (H (length l)).
Qed.

Lemma codes_mkhex_file_out (bytes : list Z) :
  forall (addr : Z) (out : string),
    codes (mkhex_file bytes addr [] out) =
    codes out ++ codes (mkhex_file bytes addr [] EmptyString).
Proof.
  induction bytes as [bytes Hl | chunk rest Hl IH] using chunk_ind; intros addr out.
  - rewrite (mkhex_file_short bytes addr out Hl),
      (mkhex_file_short bytes addr EmptyString Hl), !codes_flush. reflexivity.
  - rewrite (mkhex_file_chunk chunk rest addr out Hl),
      (mkhex_file_chunk chunk rest addr EmptyString Hl), !fst_flush.
    rewrite IH, codes_flush. symmetry. rewrite IH, codes_flush.
    change (codes EmptyString) with (@nil Z). cbn [app].
    now rewrite <- app_assoc.
Qed.

Lemma hi_bytes_value (a : Z) :
  0 <= a ->
  Forall is_byte (hi_bytes a) /\
  exists b1 b0, hi_bytes a = [b1; b0] /\ is_byte b1 /\ is_byte b0 /\
                b1 * 256 + b0 = (a / 65536) mod 65536.
Proof.
  intros Ha. unfold hi_bytes. rewrite !land_255, !Z.shiftr_div_pow2 by lia.
  change (2 ^ 24) with 16777216. change (2 ^ 16) with 65536.
  assert (H1 : is_byte ((a / 16777216) mod 256)) by (apply Z.mod_pos_bound; lia).
  assert (H0 : is_byte ((a / 65536) mod 256)) by (apply Z.mod_pos_bound; lia).
  split; [constructor; [assumption | constructor; [assumption | constructor]]|].
  eexists. eexists. split; [reflexivity|]. split; [assumption|].
  split; [assumption|]. Z.div_mod_to_equations. lia.
Qed.

(** An upper-address record changes [upper] only. *)
Lemma hi_record_step (a : Z) (rest T : list Z) up nx o fs nm :
  0 <= a -> length T = 600%nat ->
  exists T1,
    unhex_loop (record_codes 4 0 (hi_bytes a) ++ 10 :: rest) (mkunhex T 0 up nx o fs nm)
    = unhex_loop rest (mkunhex T1 0 (65536 * ((a / 65536) mod 65536)) nx o fs nm)
    /\ length T1 = 600%nat.
Proof.
  intros Ha HT. destruct (hi_bytes_value a Ha) as (Hb & b1 & b0 & E & H1 & H0 & Ev).
  rewrite E in *.
  assert (Hlen : length (record_codes 4 0 [b1; b0]) = 15%nat)
    by (rewrite length_record; [reflexivity | lia | lia | cbn; lia | assumption]).
  rewrite unhex_feed_line; [| apply plain_record | lia | assumption].
  rewrite unhex_line_upper by assumption. rewrite Ev.
  eexists. split; [reflexivity|].
  rewrite length_app, length_drop. lia.
Qed.

Lemma data_record_step (a : Z) (chunk : list Z) (addr0 : Z) (written : list Z)
  (st : unhex_state) (rest : list Z) :
  0 <= addr0 -> a = addr0 + Z.of_nat (length written) ->
  a + Z.of_nat (length chunk) <= 2 ^ 32 ->
  (0 < length chunk < 256)%nat -> Forall is_byte chunk ->
  seg_state addr0 written st -> upper st = 65536 * (a / 65536) ->
  exists st',
    unhex_loop (record_codes 0 (Z.land a 0xffff) chunk ++ 10 :: rest) st
    = unhex_loop rest st'
    /\ seg_state addr0 (written ++ chunk) st' /\ upper st' = upper st.
Proof.
  intros H0 Ea Hmax Hl Hd (HT & Hn & Hs) Hu.
  destruct st as [T n0 up nx o fs nm]. cbn [tmp n upper next out files names] in *.
  subst n0 up.
  assert (Ha : 0 <= a) by lia.
  assert (Hr : 0 <= a mod 65536 < 65536) by (apply Z.mod_pos_bound; lia).
  assert (Hq : 0 <= a / 65536) by (apply Z.div_pos; lia).
  rewrite land_ffff.
  assert (Hlen : length (record_codes 0 (a mod 65536) chunk)
                 = (11 + 2 * length chunk)%nat)
    by (apply length_record; (assumption || lia)).
  rewrite unhex_feed_line; [| apply plain_record | lia | assumption].
  rewrite unhex_line_data by (assumption || lia).
  rewrite lor_upper by lia.
  assert (Ea' : 65536 * (a / 65536) + a mod 65536 = a)
    by (pose proof (Z.div_mod a 65536); lia).
  rewrite Ea'.
  assert (Eu : ulong (a + Z.of_nat (length chunk)) = a + Z.of_nat (length chunk))
    by (unfold ulong; apply Z.mod_small; lia).
  assert (Hne : written ++ chunk <> []).
  { intros E. apply (f_equal (@length Z)) in E. rewrite length_app in E.
    cbn in E. lia. }
  assert (HT' : length (record_codes 0 (a mod 65536) chunk
                        ++ drop (length (record_codes 0 (a mod 65536) chunk)) T)
                = 600%nat) by (rewrite length_app, length_drop; lia).
  destruct Hs as [(-> & -> & -> & ->) | (Hw & -> & -> & -> & ->)].
  - cbn [length Z.of_nat] in Ea. rewrite Z.add_0_r in Ea. subst a.
    unfold fopen_wb. cbn [existsb app]. cbv beta iota zeta.
    rewrite (fputs_single chunk addr0 []) by assumption.
    eexists. split; [reflexivity|]. cbn [app].
    split; [|reflexivity]. split; [assumption|]. split; [reflexivity|].
    right. cbn [out next files names app].
    split; [exact Hne|]. split; [reflexivity|]. split; [rewrite Eu; lia|].
    split; reflexivity.
  - rewrite <- Ea. rewrite Z.eqb_refl. cbn [negb]. cbv beta iota zeta.
    rewrite fputs_single by assumption.
    eexists. split; [reflexivity|].
    split; [|reflexivity]. split; [assumption|]. split; [reflexivity|].
    right. cbn [out next files names].
    split; [exact Hne|]. split; [reflexivity|].
    split; [rewrite Eu, length_app; lia|]. split; reflexivity.
Qed.

Lemma hi_step (a addr0 : Z) (written : list Z) (st : unhex_state) (rest : list Z) :
  0 <= a -> seg_state addr0 written st ->
  upper st = 65536 * (a / 65536) \/ hi_due a = true ->
  exists st1,
    unhex_loop ((if hi_due a then record_codes 4 0 (hi_bytes a) ++ [10] else [])
                ++ rest) st = unhex_loop rest st1
    /\ seg_state addr0 written st1
    /\ (a < 2 ^ 32 -> upper st1 = 65536 * (a / 65536)).
Proof.
  intros Ha (HT & Hn & Hs) Hu. destruct st as [T n0 up nx o fs nm].
  cbn [tmp n upper next out files names] in *. subst n0.
  destruct (hi_due a).
  - rewrite <- app_assoc. cbn [app].
    destruct (hi_record_step a rest T up nx o fs nm Ha HT) as (T1 & E & HT1).
    rewrite E. eexists. split; [reflexivity|]. split.
    + split; [exact HT1|]. split; [reflexivity|]. exact Hs.
    + intros Hlt. cbn [upper]. rewrite Z.mod_small; [reflexivity|].
      split; [apply Z.div_pos; lia | apply Z.div_lt_upper_bound; lia].
  - destruct Hu as [Hu | Hu]; [|discriminate]. cbn [app].
    eexists. split; [reflexivity|]. split.
    + split; [exact HT|]. split; [reflexivity|]. exact Hs.
    + intros _. exact Hu.
Qed.

Lemma flush_step (a : Z) (chunk : list Z) (addr0 : Z) (written : list Z)
  (st : unhex_state) (rest : list Z) :
  0 <= addr0 -> a = addr0 + Z.of_nat (length written) ->
  a + Z.of_nat (length chunk) <= 2 ^ 32 ->
  (length chunk < 256)%nat -> Forall is_byte chunk ->
  seg_state addr0 written st ->
  upper st = 65536 * (a / 65536) \/ hi_due a = true ->
  exists st',
    unhex_loop (flush_codes a chunk ++ rest) st = unhex_loop rest st'
    /\ seg_state addr0 (written ++ chunk) st'
    /\ (a < 2 ^ 32 -> upper st' = 65536 * (a / 65536)).
Proof.
  intros H0 Ea Hmax Hl Hd Hs Hu. unfold flush_codes. rewrite <- app_assoc.
  destruct (hi_step a addr0 written st
              ((if 0 <? Z.of_nat (length chunk)
                then record_codes 0 (Z.land a 65535) chunk ++ [10] else []) ++ rest))
    as (st1 & E1 & Hs1 & Hu1); [lia | assumption | assumption |].
  rewrite E1. destruct (Z.ltb_spec 0 (Z.of_nat (length chunk))) as [Hc|Hc].
  - rewrite <- app_assoc. cbn [app].
    destruct (data_record_step a chunk addr0 written st1 rest)
      as (st2 & E2 & Hs2 & Hu2); try assumption; try lia.
    exists st2. split; [exact E2|]. split; [exact Hs2|].
    intros Hlt. rewrite Hu2. now apply Hu1.
  - assert (chunk = []) by (destruct chunk; [reflexivity | cbn in Hc; lia]).
    subst chunk. cbn [app]. rewrite app_nil_r.
    exists st1. split; [reflexivity|]. split; assumption.
Qed.

Lemma file_roundtrip (addr0 : Z) (bytes : list Z) :
  forall (a : Z) (written : list Z) (st : unhex_state) (rest : list Z),
    0 <= addr0 -> a = addr0 + Z.of_nat (length written) ->
    a mod 16 = 0 \/ a mod 65536 + Z.of_nat (length bytes) <= 65536 ->
    a + Z.of_nat (length bytes) <= 2 ^ 32 -> Forall is_byte bytes ->
    seg_state addr0 written st ->
    upper st = 65536 * (a / 65536) \/ hi_due a = true ->
    exists st',
      unhex_loop (codes (mkhex_file bytes a [] EmptyString) ++ rest) st
      = unhex_loop rest st'
      /\ seg_state addr0 (written ++ bytes) st'.
Proof.
  induction bytes as [bytes Hl | chunk rest0 Hl IH] using chunk_ind;
    intros a written st rest H0 Ea Hal Hmax Hd Hs Hu.
  - rewrite mkhex_file_short, codes_flush by assumption.
    change (codes EmptyString) with (@nil Z). cbn [app].
    destruct (flush_step a bytes addr0 written st rest) as (st' & E & Hs' & _);
      try assumption; try lia.
    exists st'. split; assumption.
  - rewrite length_app in Hmax, Hal. apply Forall_app in Hd as [Hd1 Hd2].
    rewrite mkhex_file_chunk, fst_flush, codes_mkhex_file_out, codes_flush
      by assumption.
    change (codes EmptyString) with (@nil Z). cbn [app]. rewrite <- app_assoc.
    destruct (flush_step a chunk addr0 written st
                (codes (mkhex_file rest0 (ulong (a + Z.of_nat (length chunk))) []
                          EmptyString) ++ rest))
      as (st1 & E1 & Hs1 & Hu1); try assumption; try lia.
    rewrite E1. rewrite Hl in *.
    assert (Eu : ulong (a + Z.of_nat 16) = a + 16)
      by (unfold ulong; apply Z.mod_small; lia).
    rewrite Eu.
    destruct (IH (a + 16) (written ++ chunk) st1 rest) as (st2 & E2 & Hs2);
      try assumption.
    + rewrite length_app, Hl. lia.
    + destruct Hal as [Hal | Hal]; [left | right]; Z.div_mod_to_equations; lia.
    + lia.
    + destruct (Z.eq_dec ((a + 16) mod 65536) 0) as [Hz|Hz].
      * right. unfold hi_due. rewrite land_ffff, Hz.
        apply andb_true_iff. split; [apply Z.leb_le | reflexivity].
        destruct Hal as [Hal | Hal]; Z.div_mod_to_equations; lia.
      * left. rewrite Hu1 by lia. f_equal.
        destruct Hal as [Hal | Hal]; Z.div_mod_to_equations; lia.
    + exists st2. split; [exact E2|]. now rewrite app_assoc.
Qed.

(** X27. [unhex] restores what [mkhex] wrote: a non-empty segment of
    bytes that ends within the 32-bit address space, and that starts on a
    multiple of 16 or lies within one 64 KiB block, comes back as one file
    named by its address and holding the same bytes. *)
Theorem mkhex_unhex_roundtrip (addr : Z) (bytes : list Z) :
  0 <= addr ->
  addr mod 16 = 0 \/ addr mod 65536 + Z.of_nat (length bytes) <= 65536 ->
  addr + Z.of_nat (length bytes) <= 2 ^ 32 ->
  bytes <> [] -> Forall is_byte bytes ->
  unhex (mkhex [(addr, bytes)]) = inl ([(addr, bytes)], [addr]).
Proof.
  intros H0 Hal Hmax Hne Hd.
  assert (Hlen : (0 < length bytes)%nat) by (destruct bytes; [congruence | cbn; lia]).
  unfold unhex, mkhex. cbn [fold_left String.append].
  change (map (fun a => Z.of_nat (nat_of_ascii a)) (list_ascii_of_string ?s))
    with (codes s).
  rewrite codes_app, codes_mkhex_file_out, codes_hiaddr.
  change (codes (printhexline 1 0 0 [])) with (record_codes 1 0 [] ++ [10]).
  rewrite <- !app_assoc. cbn [app].
  destruct (hi_record_step addr
              (codes (mkhex_file bytes addr [] EmptyString)
               ++ record_codes 1 0 [] ++ [10])
              (replicate 600 0) 0 0 None [] [] H0)
    as (T1 & E1 & HT1); [apply length_replicate|].
  rewrite E1.
  destruct (file_roundtrip addr bytes addr [] 
              (mkunhex T1 0 (65536 * ((addr / 65536) mod 65536)) 0 None [] [])
              (record_codes 1 0 [] ++ [10]))
    as (st2 & E2 & HT2 & Hn2 & Hs2); try assumption.
  - cbn [length Z.of_nat]. lia.
  - split; [exact HT1|]. split; [reflexivity|]. left. repeat split; reflexivity.
  - left. cbn [upper]. rewrite Z.mod_small; [reflexivity|].
    split; [apply Z.div_pos; lia | apply Z.div_lt_upper_bound; lia].
  - rewrite E2. cbn [app] in Hs2.
    destruct Hs2 as [(-> & _) | (_ & Ho & Hx & Hf & Hm)]; [congruence|].
    destruct st2 as [T2 n2 up2 nx2 o2 fs2 nm2].
    cbn [tmp n upper next out files names] in *. subst.
    rewrite unhex_feed_line;
      [| apply plain_record
       | change (length (record_codes 1 0 [])) with 11%nat; lia | assumption].
    rewrite unhex_line_eof. reflexivity.
Qed.

(** Witness of [mkhex_unhex_roundtrip]: three bytes at 0x10000. *)
Lemma mkhex_unhex_roundtrip_witness :
  unhex (mkhex [(0x10000, [1; 2; 3])]) = inl ([(0x10000, [1; 2; 3])], [0x10000]).
Proof.
  apply mkhex_unhex_roundtrip.
  - lia.
  - left. reflexivity.
  - cbn [length Z.of_nat Pos.of_succ_nat Pos.succ]. lia.
  - discriminate.
  - repeat (constructor; [unfold is_byte; lia|]). constructor.
Defined.

End HexRecordFacts.

(** *** Facts about the arguments of [flash] *)

Module FlashArgsFacts.
Import Chip Response ResponseFacts FlashData FlashArgs.

Lemma string_from_app (stem tail : string) :
  string_from (String.length stem) (String.append stem tail) = tail.
Proof. induction stem as [| x stem IH]; [now destruct tail | exact IH]. Qed.

Lemma length_append (a b : string) :
  String.length (String.append a b) = (String.length a + String.length b)%nat.
Proof. induction a as [| x a IH]; [reflexivity | cbn; now rewrite IH]. Qed.

Lemma length_lower (a : string) : String.length (lower a) = String.length a.
Proof. induction a as [| x a IH]; [reflexivity | cbn; now rewrite IH]. Qed.

Lemma string_split (n : nat) :
  forall s, (n <= String.length s)%nat ->
  exists stem, s = String.append stem (string_from n s) /\ String.length stem = n.
Proof.
  induction n as [| n IH]; intros s Hn.
  - exists EmptyString. split; reflexivity.
  - destruct s as [| x s]; cbn in Hn; [lia|].
    destruct (IH s) as (stem & E & Hl); [lia|].
    exists (String x stem). cbn. split; [now rewrite <- E | now rewrite Hl].
Qed.

(** X28. [has_suffix] holds exactly for a word made of a non-empty stem
    followed by the suffix, letters compared without case: the suffix alone
    is not accepted. *)
Theorem has_suffix_stem (word suffix : string) :
  has_suffix word suffix = true <->
  exists stem tail, word = String.append stem tail /\ stem <> EmptyString /\
                    lower tail = lower suffix.
Proof.
  unfold has_suffix. rewrite andb_true_iff, Nat.ltb_lt, strcasecmp_eq_lower. split.
  - intros [Hl He].
    destruct (string_split (String.length word - String.length suffix) word)
      as (stem & E & Hs); [lia|].
    exists stem, (string_from (String.length word - String.length suffix) word).
    split; [exact E|]. split; [|exact He].
    intros ->. cbn in Hs. lia.
  - intros (stem & tail & -> & Hne & He).
    assert (Hl : String.length tail = String.length suffix)
      by (rewrite <- (length_lower tail), He; apply length_lower).
    rewrite length_append, Hl. split.
    + destruct stem; [congruence | cbn; lia].
    + replace (String.length stem + String.length suffix - String.length suffix)%nat
        with (String.length stem) by lia.
      now rewrite string_from_app.
Qed.

Lemma lor_bytes (hi lo : Z) :
  is_byte hi -> is_byte lo -> Z.lor (Z.shiftl hi 8) lo = 256 * hi + lo.
Proof.
  unfold is_byte. intros Hh Hl. rewrite Z.shiftl_mul_pow2 by lia.
  change (2 ^ 8) with 256.
  rewrite <- Z.add_nocarry_lor; [lia|].
  apply Z.bits_inj'. intros n Hn. rewrite Z.land_spec, Z.bits_0.
  destruct (Z.lt_ge_cases n 8).
  - change 256 with (2 ^ 8). rewrite Z.mul_pow2_bits_low by lia. reflexivity.
  - rewrite (Z.bits_above_log2 lo n); [apply andb_false_r | lia |].
    destruct (Z.eq_dec lo 0) as [->|]; [simpl; lia|].
    assert (Z.log2 lo < 8) by (apply Z.log2_lt_pow2; lia). lia.
Qed.

Lemma byte_at_insert (buf : list Z) (i : nat) (x : Z) (j : Z) :
  (i < length buf)%nat ->
  byte_at (<[i := x]> buf) j = if j =? Z.of_nat i then x else byte_at buf j.
Proof.
  intros Hi. unfold byte_at. destruct (Z.eqb_spec j (Z.of_nat i)) as [->|Hj].
  - destruct (Z.ltb_spec (Z.of_nat i) 0); [lia|]. rewrite Nat2Z.id.
    apply nth_lookup_Some with (d := 0). now apply list_lookup_insert_eq.
  - destruct (Z.ltb_spec j 0); [reflexivity|].
    rewrite !nth_lookup. rewrite list_lookup_insert_ne by lia. reflexivity.
Qed.

(** X29. The flash parameters of the bootloader in place are carried
    over: when the parameters [flash] read from the old image are not 0, the
    first block written at the bootloader address gets the bytes 2 and 3 of
    the old image at the same place (offsets 18 and 19 of the command
    buffer), whatever the chip. *)
Theorem flash_params_carried (k : chip) (old buf : list Z) :
  is_byte (byte_at old 10) -> is_byte (byte_at old 11) ->
  bootloader_flash_params old <> 0 -> (28 < length buf)%nat ->
  byte_at (flash_patch k (bootloader_flash_params old) (bla k) 0 buf) 18
    = byte_at old 10 /\
  byte_at (flash_patch k (bootloader_flash_params old) (bla k) 0 buf) 19
    = byte_at old 11.
Proof.
  intros H10 H11 Hp Hl. unfold bootloader_flash_params in *.
  rewrite lor_bytes in * by assumption.
  unfold is_byte in H10, H11.
  rewrite Z.mod_small in * by lia.
  unfold flash_patch. rewrite (Z.eqb_refl (bla k)). cbn [Z.eqb andb].
  destruct (Z.eqb_spec (256 * byte_at old 10 + byte_at old 11) 0) as [E|_];
    [contradiction|]. cbv beta iota zeta delta [negb].
  assert (E18 : Z.land (Z.shiftr (256 * byte_at old 10 + byte_at old 11) 8) 255
                = byte_at old 10).
  { rewrite Z.shiftr_div_pow2 by lia. change 255 with (Z.ones 8).
    rewrite Z.land_ones by lia. change (2 ^ 8) with 256.
    Z.div_mod_to_equations. lia. }
  assert (E19 : Z.land (256 * byte_at old 10 + byte_at old 11) 255 = byte_at old 11).
  { change 255 with (Z.ones 8). rewrite Z.land_ones by lia. change (2 ^ 8) with 256.
    Z.div_mod_to_equations. lia. }
  rewrite E18, E19.
  repeat match goal with
         | |- context [if ?b then _ else _] => destruct b
         end;
    rewrite ?byte_at_insert by (rewrite ?length_insert; lia);
    cbn [Z.eqb Z.of_nat Pos.eqb Pos.of_succ_nat Pos.succ]; split; reflexivity.
Qed.

(** Witness of [flash_params_carried]: the old image has 0x02 and 0x20
    at its bytes 2 and 3. *)
Lemma flash_params_carried_witness :
  let k := mkchip CHIP_ID_ESP32 "ESP32" 4096 in
  let old := replicate 10 0 ++ [2; 32] in
  let buf := replicate (16 + 4096) 0 in
  byte_at (flash_patch k (bootloader_flash_params old) (bla k) 0 buf) 18
    = byte_at old 10 /\
  byte_at (flash_patch k (bootloader_flash_params old) (bla k) 0 buf) 19
    = byte_at old 11.
Proof.
  intros k old buf. apply flash_params_carried.
  - change (is_byte 2). unfold is_byte. lia.
  - change (is_byte 32). unfold is_byte. lia.
  - change (544 <> 0). lia.
  - unfold buf. rewrite length_replicate. lia.
Defined.

End FlashArgsFacts.

(** *** Facts about [uart_tx] and the exits of [cmd] *)

Module UartFacts.
Import Slip Chip Cmd Uart SlipFacts CmdFacts.

(** [slip_send] hands the bytes of the frame to its sink, in order. *)
Lemma slip_send_fold {A : Type} (p : list Z) (fn : Z -> A -> A) (a : A) :
  slip_send p fn a = fold_left (fun a c => fn c a) (slip_encode p) a.
Proof.
  rewrite slip_encode_eq. unfold slip_send.
  cbn [fold_left]. rewrite fold_left_app. cbn [fold_left]. f_equal.
  generalize (fn END a) as a0. induction p as [| b p IH]; intros a0; [reflexivity|].
  cbn [fold_left flat_map]. rewrite fold_left_app, IH. f_equal.
  unfold esc. destruct (b =? END); [reflexivity|].
  destruct (b =? ESC); reflexivity.
Qed.

Lemma uart_write_failed (bytes : list Z) (ch : Z) :
  fold_left (fun st c => uart_tx c st) bytes (WriteFailed ch) = WriteFailed ch.
Proof. induction bytes as [| b bytes IH]; [reflexivity | exact IH]. Qed.

(** Writing [bytes] to a port: all of them when there is room, else the
    process ends at the first byte the device does not take. *)
Lemma uart_write (bytes : list Z) :
  forall p,
    fold_left (fun st c => uart_tx c st) bytes (Sent p) =
    match room p with
    | None => Sent (mkport (sent p ++ bytes) None)
    | Some n =>
        if (length bytes <=? n)%nat
        then Sent (mkport (sent p ++ bytes) (Some (n - length bytes)%nat))
        else WriteFailed (nth n bytes 0)
    end.
Proof.
  induction bytes as [| b bytes IH]; intros [t r].
  - cbn [fold_left room sent length]. rewrite app_nil_r.
    destruct r as [n|]; [|reflexivity]. cbn [Nat.leb]. now rewrite Nat.sub_0_r.
  - cbn [fold_left uart_tx room sent]. destruct r as [[| n]|].
    + rewrite uart_write_failed. reflexivity.
    + rewrite IH. cbn [room sent length nth Nat.leb Nat.sub].
      now rewrite <- app_assoc.
    + rewrite IH. cbn [room sent]. now rewrite <- app_assoc.
Qed.

(** X30. How a failing [write] ends [cmd]: when the device takes fewer
    one-byte writes than the framed request has bytes, [cmd] ends the process
    in [uart_tx] at the first byte that is not taken, before any read; when
    the device takes the whole frame, [cmd] does what it does on a port that
    takes every write; and the process ends within [cmd] in these two ways
    only, a closed serial line and a failed write. *)
Theorem cmd_uart_exits (c : ctx) (op : Z) (b : list Z) (len cs : Z) (p : port)
  (evs : list io_event) :
  let frame := slip_encode (cmd_frame op b len cs) in
  (forall n, room p = Some n -> (n < length frame)%nat ->
     cmd_uart c op b len cs p evs = Exited (FailedToWrite (nth n frame 0)))
  /\ ((forall n, room p = Some n -> (length frame <= n)%nat) ->
      cmd_uart c op b len cs p evs =
      match cmd c op b len cs (mkworld (sent p) evs) with
      | Done (e, c1, w1) =>
          Returned e c1
            (mkport (tx w1) (option_map (fun n => (n - length frame)%nat) (room p)))
            (rx w1)
      | Exit f => Exited (ReadFailed f)
      end)
  /\ (forall x, cmd_uart c op b len cs p evs = Exited x ->
        x = ReadFailed SerialLineClosed \/
        exists n, room p = Some n /\ (n < length frame)%nat /\
                  x = FailedToWrite (nth n frame 0)).
Proof.
  intros frame. unfold cmd_uart, cmd. rewrite slip_send_fold, uart_write.
  rewrite slip_send_emit, <- slip_encode_eq. fold frame. cbn [tx rx].
  split; [|split].
  - intros n Hr Hn. rewrite Hr.
    destruct (Nat.leb_spec (length frame) n); [lia | reflexivity].
  - intros Hroom. destruct (room p) as [n|] eqn:Hr.
    + specialize (Hroom n eq_refl).
      destruct (Nat.leb_spec (length frame) n); [|lia].
      destruct (cmd_loop _ _ _ _) as [[[e s1] evs1]|f]; reflexivity.
    + destruct (cmd_loop _ _ _ _) as [[[e s1] evs1]|f]; reflexivity.
  - intros x. destruct (room p) as [n|] eqn:Hr.
    + destruct (Nat.leb_spec (length frame) n) as [Hn|Hn].
      * destruct (cmd_loop _ _ _ _) as [[[e s1] evs1]|f] eqn:El; [discriminate|].
        intros Hx. inversion Hx. left. f_equal. now apply cmd_loop_exit in El.
      * intros Hx. inversion Hx. right. exists n.
        split; [reflexivity|]. split; [exact Hn | reflexivity].
    + destruct (cmd_loop _ _ _ _) as [[[e s1] evs1]|f] eqn:El; [discriminate|].
      intros Hx. inversion Hx. left. f_equal. now apply cmd_loop_exit in El.
Qed.

(** Witness of [cmd_uart_exits]: the device takes three bytes of a SYNC
    request, and the write of the fourth, the low byte of the length, fails. *)
Lemma cmd_uart_exits_witness :
  let c := mkctx (slip_init 64) (mkchip 0 "Unknown" 0) in
  cmd_uart c 8 sync_data 36 0 (mkport [] (Some 3%nat)) [NotReady]
  = Exited (FailedToWrite 36).
Proof.
  intros c.
  exact (proj1 (cmd_uart_exits c 8 sync_data 36 0 (mkport [] (Some 3%nat)) [NotReady])
           3%nat eq_refl ltac:(vm_compute; lia)).
Defined.

End UartFacts.
